(** * Fox Celebration Uploads: the transfer and session state machines and
      the upload registry, embedded from the TypeScript sources.

    - [UploadStateMachine]   : src/atoms/uploadStateMachine.ts
    - [OverallProgress]      : src/atoms/overallProgressStateMachine.ts
    - [LocalStorage]         : src/lib/localStorage.ts
    - [Uploads]              : the jotai atoms of atoms/uploads.ts
    - [UploadStats]          : src/atoms/upload-stats.ts
    - [Registry]             : predicates and sample data for the properties

    Conventions of the embedding.
    - A JS [number] that holds a count, a size or a percentage is a [Z],
      and [Math.round] is [floor (x + 1/2)]. The mean of
      [overallProgressAtom], a single quotient of two integers, is taken
      over [Q]. The percentage of [onUploadProgress] and the byte share of
      [uploadStatsAtom] take two operations on fractions, and there the
      rounding of the intermediate result shows: they are computed in
      binary64, the arithmetic of a JS number ([Binary64]).
    - An optional property ([error?: string]) is an [option]; a
      [Partial<T>] argument distinguishes a key that is absent ([None])
      from a key that is present, possibly with the value [undefined]
      ([Some None]), because the object spread copies the latter.
    - A JS object used as a dictionary is a [gmap string _]; a loop over its
      entries or values is a [map_fold]. The order of the iteration is not
      that of JS (insertion order); nothing proved below depends on it.
    - [uploadsAtom] is a derived atom: it stores nothing itself. What is
      stored is the serializable projection and the file cache, and every
      [get(uploadsAtom)] rebuilds the records, and their state machines,
      from these two. The memoisation jotai applies to that getter is not
      modelled.
    - String literal types are inductive types whose constructors carry the
      literals' names; record fields carry a short prefix because several
      records of the sources share field names ([id], [error], ...). *)

From stdpp Require Import gmap strings list fin_maps.
From Stdlib Require Import ZArith QArith Qround Qpower Qabs Lqa.
From Stdlib Require Import Floats.SpecFloat.

Open Scope Z_scope.

(** ** DOM values the program handles *)

(** A [File]: its metadata. [new File([], name, {type, lastModified})] has
    size 0. *)
Record File := mkFile {
  file_name : string;
  file_size : Z;
  file_type : string;
  file_lastModified : Z;
}.

Inductive Method := PUT | POST.

(** An [AbortController] is an object identity; [abort()] is recorded in a
    log of the identities aborted. *)
Definition AbortController := nat.

(** [{...old, key: v}] for one key of a [Partial]: a present key overrides. *)
Definition spread {A} (old : A) (upd : option A) : A :=
  match upd with Some v => v | None => old end.

(** [String.prototype.includes]. *)
Fixpoint includes (needle hay : string) : bool :=
  String.prefix needle hay ||
  match hay with
  | EmptyString => false
  | String _ rest => includes needle rest
  end.

(* ================================================================== *)
(** ** The arithmetic of a JS number *)
(* ================================================================== *)

(** A JS number is an IEEE 754 binary64, and an operation on two numbers
    returns the double nearest to its exact result, a tie going to the
    double with the even significand. A finite double is modelled by the
    rational it denotes. Infinities and NaN are not modelled: the program
    divides by a total it has tested to be non-zero and by the constant
    100, and its operands are integers far below [2^1024]. *)
Module Binary64.

(** The digits of a significand and the exponent of the smallest
    subnormal double, [2^-1074]. *)
Definition prec : Z := 53.
Definition emin : Z := -1074.

(** [floor (log2 q)], for a positive [q]. *)
Definition ilog2 (q : Q) : Z :=
  let k := Z.log2 (Qnum q) - Z.log2 (Z.pos (Qden q)) in
  if Qle_bool (2 ^ k) q then k else k - 1.

(** The integer nearest to [x], a tie going to the even one. *)
Definition nearest_even (x : Q) : Z :=
  let f := Qfloor x in
  match (x - inject_Z f ?= 1 # 2)%Q with
  | Lt => f
  | Gt => f + 1
  | Eq => if Z.even f then f else f + 1
  end.

(** The doubles around [q] are the multiples of [2 ^ exponent q]: 53 digits
    from the leading one of [q], and never finer than [2 ^ emin]. *)
Definition exponent (q : Q) : Z := Z.max (ilog2 (Qabs q) - (prec - 1)) emin.

(** The double nearest to [q]. *)
Definition round (q : Q) : Q :=
  if Qeq_bool q 0 then 0%Q
  else (inject_Z (nearest_even (q / 2 ^ exponent q)) * 2 ^ exponent q)%Q.

(** [x / y] and [x * y] on doubles. *)
Definition div (x y : Q) : Q := round (x / y).
Definition mul (x y : Q) : Q := round (x * y).

(** The rationals that are doubles: [m * 2^e] with [|m| < 2^53] and [e] at
    least [emin]. *)
Definition representable (x : Q) : Prop :=
  exists m e, (Z.abs m < 2 ^ prec)%Z /\ (emin <= e)%Z
              /\ (x == inject_Z m * 2 ^ e)%Q.

(** The same two operations in the Standard Library's specification of
    IEEE 754, [SpecFloat], at the parameters of binary64; [round] is
    compared with them below. *)
Definition SF2Q (x : spec_float) : Q :=
  match x with
  | S754_finite s m e =>
      ((if s then -1 else 1) * inject_Z (Z.pos m) * 2 ^ e)%Q
  | _ => 0%Q
  end.

Definition Z2SF (z : Z) : spec_float := binary_normalize prec 1024 z 0 false.

Definition SpecFloat_div (a b : Z) : Q :=
  SF2Q (SFdiv prec 1024 (Z2SF a) (Z2SF b)).

Definition SpecFloat_div_mul (a b c : Z) : Q :=
  SF2Q (SFmul prec 1024 (SFdiv prec 1024 (Z2SF a) (Z2SF b)) (Z2SF c)).

Definition SpecFloat_mul_div (c a b : Z) : Q :=
  SF2Q (SFmul prec 1024 (Z2SF c) (SFdiv prec 1024 (Z2SF a) (Z2SF b))).

(** The fractions [a / b] with [0 <= a <= b] and [1 <= b <= n]. *)
Definition fractions (n : nat) : list (Z * Z) :=
  flat_map (fun b => map (fun a => (Z.of_nat a, Z.of_nat (S b)))
                         (seq 0 (S (S b))))
           (seq 0 n).

End Binary64.

(* ================================================================== *)
(** ** src/atoms/uploadStateMachine.ts *)
(* ================================================================== *)

Module UploadStateMachine.

Inductive UploadState :=
  | idle | queued | reserving | ready | uploading
  | success | error | canceled | retrying.

Inductive UploadEvent :=
  | ADD_FILE | START_RESERVE | RESERVE_SUCCESS | RESERVE_ERROR
  | START_UPLOAD | UPLOAD_PROGRESS | UPLOAD_SUCCESS | UPLOAD_ERROR
  | CANCEL | RETRY | REMOVE.

#[global] Instance UploadState_eq_dec : EqDecision UploadState.
Proof. solve_decision. Defined.

#[global] Instance UploadEvent_eq_dec : EqDecision UploadEvent.
Proof. solve_decision. Defined.

Record UploadContext := mkContext {
  ctx_id : string;
  ctx_file : File;
  ctx_fileSize : Z;
  ctx_progress : Z;
  ctx_error : option string;
  ctx_remoteId : option string;
  ctx_uploadUrl : option string;
  ctx_method : option Method;
  ctx_controller : option AbortController;
}.

(** [Partial<UploadContext>], the payload of [send]. *)
Record PartialUploadContext := mkPartialContext {
  p_id : option string;
  p_file : option File;
  p_fileSize : option Z;
  p_progress : option Z;
  p_error : option (option string);
  p_remoteId : option (option string);
  p_uploadUrl : option (option string);
  p_method : option (option Method);
  p_controller : option (option AbortController);
}.

Definition emptyPayload : PartialUploadContext :=
  mkPartialContext None None None None None None None None None.

(** [STATE_TRANSITIONS]: for each state, the object literal of its accepted
    events, in source order. *)
Definition STATE_TRANSITIONS (s : UploadState) : list (UploadEvent * UploadState) :=
  match s with
  | idle => [(ADD_FILE, queued)]
  | queued => [(START_RESERVE, reserving); (REMOVE, idle); (CANCEL, canceled)]
  | reserving =>
      [(RESERVE_SUCCESS, ready); (RESERVE_ERROR, error);
       (CANCEL, canceled); (REMOVE, idle)]
  | ready => [(START_UPLOAD, uploading); (CANCEL, canceled); (REMOVE, idle)]
  | uploading =>
      [(UPLOAD_PROGRESS, uploading); (UPLOAD_SUCCESS, success);
       (UPLOAD_ERROR, error); (CANCEL, canceled)]
  | success => [(REMOVE, idle)]
  | error => [(RETRY, retrying); (REMOVE, idle)]
  | canceled => [(RETRY, retrying); (REMOVE, idle)]
  | retrying =>
      [(START_RESERVE, reserving); (RESERVE_SUCCESS, ready);
       (START_UPLOAD, uploading); (UPLOAD_SUCCESS, success);
       (UPLOAD_ERROR, error); (CANCEL, canceled); (REMOVE, idle)]
  end.

(** Property access [obj[event]] on such an object literal. *)
Fixpoint prop (event : UploadEvent) (obj : list (UploadEvent * UploadState))
  : option UploadState :=
  match obj with
  | [] => None
  | (e, s) :: rest => if decide (e = event) then Some s else prop event rest
  end.

(** [event in validTransitions]. *)
Definition canTransition (currentState : UploadState) (event : UploadEvent) : bool :=
  let validTransitions := STATE_TRANSITIONS currentState in
  match prop event validTransitions with Some _ => true | None => false end.

(** [getNextState]; the [console.warn] of the rejected case is not modelled. *)
Definition getNextState (currentState : UploadState) (event : UploadEvent)
  : UploadState :=
  if negb (canTransition currentState event) then currentState
  else
    let validTransitions := STATE_TRANSITIONS currentState in
    match prop event validTransitions with
    | Some next => next
    | None => currentState
    end.

(** [{ ...this.context, ...payload }]. *)
Definition mergeContext (c : UploadContext) (p : PartialUploadContext)
  : UploadContext :=
  {| ctx_id := spread (ctx_id c) (p_id p);
     ctx_file := spread (ctx_file c) (p_file p);
     ctx_fileSize := spread (ctx_fileSize c) (p_fileSize p);
     ctx_progress := spread (ctx_progress c) (p_progress p);
     ctx_error := spread (ctx_error c) (p_error p);
     ctx_remoteId := spread (ctx_remoteId c) (p_remoteId p);
     ctx_uploadUrl := spread (ctx_uploadUrl c) (p_uploadUrl p);
     ctx_method := spread (ctx_method c) (p_method p);
     ctx_controller := spread (ctx_controller c) (p_controller p) |}.

(** A listener is known by its identity; a call [listener(state, context)]
    is recorded with the arguments it received. *)
Definition Listener := nat.
Definition Notification : Type := Listener * UploadState * UploadContext.

(** The private fields of [class UploadStateMachine]. *)
Record Machine := mkMachine {
  state : UploadState;
  context : UploadContext;
  listeners : list Listener;
}.

(** What one call of [send] does: the object after the call, the listener
    calls made, and the boolean returned. *)
Record Sent := mkSent {
  machine : Machine;
  notified : list Notification;
  returned : bool;
}.

Definition getState (m : Machine) : UploadState := state m.
Definition getContext (m : Machine) : UploadContext := context m.

Definition send (m : Machine) (event : UploadEvent)
    (payload : option PartialUploadContext) : Sent :=
  let nextState := getNextState (state m) event in
  if bool_decide (nextState = state m) && negb (bool_decide (is_Some payload))
  then mkSent m [] false
  else
    let context' :=
      match payload with
      | Some p => mergeContext (context m) p
      | None => context m
      end in
    let state' :=
      if bool_decide (nextState <> state m) then nextState else state m in
    mkSent (mkMachine state' context' (listeners m))
           (map (fun l => (l, state', context')) (listeners m))
           true.

(** [send] used as a statement: the returned boolean dropped. *)
Definition send_ (event : UploadEvent) (payload : option PartialUploadContext)
    (m : Machine) : Machine :=
  machine (send m event payload).

Definition createUploadStateMachine (file : File) (id : string) : Machine :=
  mkMachine idle
    {| ctx_id := id; ctx_file := file; ctx_fileSize := file_size file;
       ctx_progress := 0; ctx_error := None; ctx_remoteId := None;
       ctx_uploadUrl := None; ctx_method := None; ctx_controller := None |}
    [].

(** [context.error?.includes("page refresh") ?? false]. *)
Definition error_mentions_refresh (e : option string) : bool :=
  match e with
  | Some msg => includes "page refresh" msg
  | None => false
  end.

Definition isPlaceholderState (s : UploadState) (c : UploadContext) : bool :=
  bool_decide (s = error)
  && bool_decide (file_size (ctx_file c) = 0)
  && bool_decide (0 < ctx_fileSize c)
  && error_mentions_refresh (ctx_error c).

(** [subscribe]: the listener is pushed at the end of the array. *)
Definition subscribe (m : Machine) (listener : Listener) : Machine :=
  mkMachine (state m) (context m) (listeners m ++ [listener]).

(** [const index = listeners.indexOf(listener);
     if (index > -1) listeners.splice(index, 1)]: the first occurrence goes. *)
Fixpoint spliceFirst (listener : Listener) (ls : list Listener)
  : list Listener :=
  match ls with
  | [] => []
  | l :: rest =>
      if decide (l = listener) then rest else l :: spliceFirst listener rest
  end.

(** The unsubscribe function [subscribe] returns, called on the machine. *)
Definition unsubscribe (m : Machine) (listener : Listener) : Machine :=
  mkMachine (state m) (context m) (spliceFirst listener (listeners m)).

Definition canRetry (m : Machine) : bool := canTransition (state m) RETRY.
Definition canCancel (m : Machine) : bool := canTransition (state m) CANCEL.
Definition canRemove (m : Machine) : bool := canTransition (state m) REMOVE.

Definition isFinal (m : Machine) : bool :=
  bool_decide (state m = success) || bool_decide (state m = error)
  || bool_decide (state m = canceled).

Definition isActive (m : Machine) : bool :=
  bool_decide (state m = reserving) || bool_decide (state m = uploading)
  || bool_decide (state m = retrying).

(** A sequence of [send] calls, each with its optional payload. *)
Definition sendAll (calls : list (UploadEvent * option PartialUploadContext))
    (m : Machine) : Machine :=
  foldl (fun m call => send_ call.1 call.2 m) m calls.

(** The transition table of section 4.1 of the specification, row by row
    as the specification prints it: the destination listed for a state and
    an event, if one is listed. *)
Definition listed (S : UploadState) (E : UploadEvent) : option UploadState :=
  match S, E with
  | idle, ADD_FILE => Some queued
  | queued, START_RESERVE => Some reserving
  | queued, CANCEL => Some canceled
  | queued, REMOVE => Some idle
  | reserving, RESERVE_SUCCESS => Some ready
  | reserving, RESERVE_ERROR => Some error
  | reserving, CANCEL => Some canceled
  | reserving, REMOVE => Some idle
  | ready, START_UPLOAD => Some uploading
  | ready, CANCEL => Some canceled
  | ready, REMOVE => Some idle
  | uploading, UPLOAD_PROGRESS => Some uploading
  | uploading, UPLOAD_SUCCESS => Some success
  | uploading, UPLOAD_ERROR => Some error
  | uploading, CANCEL => Some canceled
  | success, REMOVE => Some idle
  | error, RETRY => Some retrying
  | error, REMOVE => Some idle
  | canceled, RETRY => Some retrying
  | canceled, REMOVE => Some idle
  | retrying, START_RESERVE => Some reserving
  | retrying, RESERVE_SUCCESS => Some ready
  | retrying, START_UPLOAD => Some uploading
  | retrying, UPLOAD_SUCCESS => Some success
  | retrying, UPLOAD_ERROR => Some error
  | retrying, CANCEL => Some canceled
  | retrying, REMOVE => Some idle
  | _, _ => None
  end.

End UploadStateMachine.

(* ================================================================== *)
(** ** src/atoms/overallProgressStateMachine.ts *)
(* ================================================================== *)

Module OverallProgress.

Inductive OverallProgressState :=
  | idle | preparing | ready | uploading
  | completed | partial | failed | canceled.

Inductive OverallProgressEvent :=
  | FILES_ADDED | PREPARATION_STARTED | PREPARATION_COMPLETED
  | UPLOAD_STARTED | UPLOAD_PROGRESS | ALL_COMPLETED
  | SOME_FAILED | ALL_FAILED | ALL_CANCELED | RESET.

#[global] Instance OverallProgressState_eq_dec : EqDecision OverallProgressState.
Proof. solve_decision. Defined.

#[global] Instance OverallProgressEvent_eq_dec : EqDecision OverallProgressEvent.
Proof. solve_decision. Defined.

Record OverallProgressContext := mkContext {
  totalFiles : Z;
  completedFiles : Z;
  failedFiles : Z;
  canceledFiles : Z;
  uploadingFiles : Z;
  preparingFiles : Z;
  readyFiles : Z;
  overallProgress : Z;
  hasRetryableFiles : bool;
  hasPlaceholderFiles : bool;
}.

(** [Partial<OverallProgressContext>], the argument of [updateFromUploads]. *)
Record PartialContext := mkPartialContext {
  p_totalFiles : option Z;
  p_completedFiles : option Z;
  p_failedFiles : option Z;
  p_canceledFiles : option Z;
  p_uploadingFiles : option Z;
  p_preparingFiles : option Z;
  p_readyFiles : option Z;
  p_overallProgress : option Z;
  p_hasRetryableFiles : option bool;
  p_hasPlaceholderFiles : option bool;
}.

(** [OVERALL_STATE_TRANSITIONS], each object literal in source order. *)
Definition OVERALL_STATE_TRANSITIONS (s : OverallProgressState)
  : list (OverallProgressEvent * OverallProgressState) :=
  match s with
  | idle => [(FILES_ADDED, preparing)]
  | preparing =>
      [(PREPARATION_COMPLETED, ready); (SOME_FAILED, partial);
       (ALL_FAILED, failed); (ALL_CANCELED, canceled); (RESET, idle)]
  | ready =>
      [(UPLOAD_STARTED, uploading); (SOME_FAILED, partial);
       (ALL_FAILED, failed); (ALL_CANCELED, canceled); (RESET, idle)]
  | uploading =>
      [(UPLOAD_PROGRESS, uploading); (ALL_COMPLETED, completed);
       (SOME_FAILED, partial); (ALL_FAILED, failed);
       (ALL_CANCELED, canceled); (RESET, idle)]
  | completed => [(RESET, idle); (FILES_ADDED, preparing)]
  | partial =>
      [(UPLOAD_STARTED, uploading); (ALL_COMPLETED, completed);
       (ALL_FAILED, failed); (ALL_CANCELED, canceled); (RESET, idle);
       (FILES_ADDED, preparing)]
  | failed =>
      [(UPLOAD_STARTED, uploading); (SOME_FAILED, partial);
       (ALL_COMPLETED, completed); (ALL_CANCELED, canceled); (RESET, idle);
       (FILES_ADDED, preparing)]
  | canceled =>
      [(UPLOAD_STARTED, uploading); (ALL_COMPLETED, completed);
       (SOME_FAILED, partial); (ALL_FAILED, failed); (RESET, idle);
       (FILES_ADDED, preparing)]
  end.

Fixpoint prop (event : OverallProgressEvent)
    (obj : list (OverallProgressEvent * OverallProgressState))
  : option OverallProgressState :=
  match obj with
  | [] => None
  | (e, s) :: rest => if decide (e = event) then Some s else prop event rest
  end.

Definition canTransitionOverall (currentState : OverallProgressState)
    (event : OverallProgressEvent) : bool :=
  let validTransitions := OVERALL_STATE_TRANSITIONS currentState in
  match prop event validTransitions with Some _ => true | None => false end.

Definition getNextOverallState (currentState : OverallProgressState)
    (event : OverallProgressEvent) : OverallProgressState :=
  if negb (canTransitionOverall currentState event) then currentState
  else
    let validTransitions := OVERALL_STATE_TRANSITIONS currentState in
    match prop event validTransitions with
    | Some next => next
    | None => currentState
    end.

Definition Listener := nat.
Definition Notification : Type :=
  Listener * OverallProgressState * OverallProgressContext.

(** The private fields of [class OverallProgressStateMachine]. *)
Record Machine := mkMachine {
  state : OverallProgressState;
  context : OverallProgressContext;
  listeners : list Listener;
}.

Record Sent := mkSent {
  machine : Machine;
  notified : list Notification;
  returned : bool;
}.

Definition createOverallProgressStateMachine : Machine :=
  mkMachine idle (mkContext 0 0 0 0 0 0 0 0 false false) [].

Definition getState (m : Machine) : OverallProgressState := state m.
Definition getContext (m : Machine) : OverallProgressContext := context m.

(** [send]: listeners are called on both paths; only the returned boolean
    and the state assignment differ. *)
Definition send (m : Machine) (event : OverallProgressEvent) : Sent :=
  let nextState := getNextOverallState (state m) event in
  if bool_decide (nextState = state m) then
    mkSent m (map (fun l => (l, state m, context m)) (listeners m)) false
  else
    mkSent (mkMachine nextState (context m) (listeners m))
           (map (fun l => (l, nextState, context m)) (listeners m))
           true.

(** [private determineEventFromContext()], reading [this.state] and
    [this.context]. The local [readyFiles] of the last rule shadows the
    context field of that name, as in the source. *)
Definition determineEventFromContext (m : Machine) : option OverallProgressEvent :=
  let s := state m in
  let c := context m in
  if bool_decide (totalFiles c = 0) then
    (if bool_decide (s <> idle) then Some RESET else None)
  else if bool_decide (s = idle) && bool_decide (0 < totalFiles c) then
    Some FILES_ADDED
  else if bool_decide (canceledFiles c = totalFiles c) then
    (if bool_decide (s <> canceled) then Some ALL_CANCELED else None)
  else if bool_decide (completedFiles c = totalFiles c) then
    (if bool_decide (s <> completed) then Some ALL_COMPLETED else None)
  else
    let nonCanceledFiles := totalFiles c - canceledFiles c in
    if bool_decide (0 < nonCanceledFiles)
       && bool_decide (failedFiles c = nonCanceledFiles) then
      (if bool_decide (s <> failed) then Some ALL_FAILED else None)
    else if bool_decide (0 < completedFiles c)
            && (bool_decide (0 < failedFiles c)
                || bool_decide (0 < canceledFiles c)) then
      (if bool_decide (s <> partial) then Some SOME_FAILED else None)
    else if bool_decide (0 < uploadingFiles c) then
      (if bool_decide (s = ready) || bool_decide (s = partial)
          || bool_decide (s = failed)
       then Some UPLOAD_STARTED
       else if bool_decide (s <> uploading) then Some UPLOAD_PROGRESS else None)
    else if bool_decide (0 < preparingFiles c) then
      (if bool_decide (s <> preparing) then Some PREPARATION_STARTED else None)
    else
      let readyFiles :=
        totalFiles c - completedFiles c - failedFiles c - canceledFiles c
        - uploadingFiles c - preparingFiles c in
      if bool_decide (readyFiles = totalFiles c) then
        (if bool_decide (s <> ready) then Some PREPARATION_COMPLETED else None)
      else None.

(** [{ ...this.context, ...context }]. *)
Definition mergeContext (c : OverallProgressContext) (p : PartialContext)
  : OverallProgressContext :=
  {| totalFiles := spread (totalFiles c) (p_totalFiles p);
     completedFiles := spread (completedFiles c) (p_completedFiles p);
     failedFiles := spread (failedFiles c) (p_failedFiles p);
     canceledFiles := spread (canceledFiles c) (p_canceledFiles p);
     uploadingFiles := spread (uploadingFiles c) (p_uploadingFiles p);
     preparingFiles := spread (preparingFiles c) (p_preparingFiles p);
     readyFiles := spread (readyFiles c) (p_readyFiles p);
     overallProgress := spread (overallProgress c) (p_overallProgress p);
     hasRetryableFiles := spread (hasRetryableFiles c) (p_hasRetryableFiles p);
     hasPlaceholderFiles :=
       spread (hasPlaceholderFiles c) (p_hasPlaceholderFiles p) |}.

(** [updateFromUploads]: merge, derive the event, send it if there is one. *)
Definition updateFromUploads (m : Machine) (ctx : PartialContext) : Sent :=
  let m1 := mkMachine (state m) (mergeContext (context m) ctx) (listeners m) in
  match determineEventFromContext m1 with
  | Some event => send m1 event
  | None => mkSent m1 [] false
  end.

Definition canStartUploads (m : Machine) : bool :=
  bool_decide (state m = ready) || bool_decide (state m = partial)
  || bool_decide (state m = failed).

Definition canAddFiles (m : Machine) : bool :=
  bool_decide (state m = idle) || bool_decide (state m = completed)
  || bool_decide (state m = partial) || bool_decide (state m = failed)
  || bool_decide (state m = canceled).

Definition canRetry (m : Machine) : bool :=
  (bool_decide (state m = partial) || bool_decide (state m = failed)
   || bool_decide (state m = canceled))
  && hasRetryableFiles (context m).

Definition isFinal (m : Machine) : bool :=
  bool_decide (state m = completed) || bool_decide (state m = failed)
  || bool_decide (state m = canceled).

Definition isActive (m : Machine) : bool :=
  bool_decide (state m = preparing) || bool_decide (state m = uploading).

(** *** The precedence of section 4.2 of the specification

    The nine rules in the order the specification lists them. A rule has a
    condition on the snapshot (and, for rule 2, on the state) and names the
    event it stands for; rule 7 names [UPLOAD_STARTED] when the machine is
    leaving ready, partial or failed and [UPLOAD_PROGRESS] otherwise. *)
Record Rule := mkRule {
  applies : OverallProgressState -> OverallProgressContext -> bool;
  event_of : OverallProgressState -> OverallProgressEvent;
}.

Definition precedence : list Rule :=
  [ (* 1 *) mkRule (fun _ c => bool_decide (totalFiles c = 0)) (fun _ => RESET);
    (* 2 *) mkRule (fun s c => bool_decide (s = idle /\ 0 < totalFiles c))
                   (fun _ => FILES_ADDED);
    (* 3 *) mkRule (fun _ c => bool_decide (canceledFiles c = totalFiles c))
                   (fun _ => ALL_CANCELED);
    (* 4 *) mkRule (fun _ c => bool_decide (completedFiles c = totalFiles c))
                   (fun _ => ALL_COMPLETED);
    (* 5 *) mkRule (fun _ c =>
                      bool_decide (failedFiles c = totalFiles c - canceledFiles c
                                   /\ 0 < totalFiles c - canceledFiles c))
                   (fun _ => ALL_FAILED);
    (* 6 *) mkRule (fun _ c =>
                      bool_decide (0 < completedFiles c
                                   /\ (0 < failedFiles c \/ 0 < canceledFiles c)))
                   (fun _ => SOME_FAILED);
    (* 7 *) mkRule (fun _ c => bool_decide (0 < uploadingFiles c))
                   (fun s => if bool_decide (s ∈ [ready; partial; failed])
                             then UPLOAD_STARTED else UPLOAD_PROGRESS);
    (* 8 *) mkRule (fun _ c => bool_decide (0 < preparingFiles c))
                   (fun _ => PREPARATION_STARTED);
    (* 9 *) mkRule (fun _ c =>
                      bool_decide (completedFiles c + failedFiles c
                                   + canceledFiles c + uploadingFiles c
                                   + preparingFiles c = 0))
                   (fun _ => PREPARATION_COMPLETED) ].

(** First match wins: the first rule whose condition holds decides; its
    event is produced when [fires] allows it and no event otherwise. *)
Fixpoint first_match
    (fires : OverallProgressState -> OverallProgressEvent -> bool)
    (rules : list Rule) (s : OverallProgressState) (c : OverallProgressContext)
  : option OverallProgressEvent :=
  match rules with
  | [] => None
  | r :: rest =>
      if applies r s c then
        (if fires s (event_of r s) then Some (event_of r s) else None)
      else first_match fires rest s c
  end.

(** "Fires only if it would change the state", read on the transition
    table: sending the event moves the machine. *)
Definition would_change (s : OverallProgressState) (e : OverallProgressEvent)
  : bool :=
  bool_decide (getNextOverallState s e <> s).

(** The state each event aims at (the "precedence targets" of 4.2). *)
Definition target (e : OverallProgressEvent) : OverallProgressState :=
  match e with
  | FILES_ADDED => preparing
  | PREPARATION_STARTED => preparing
  | PREPARATION_COMPLETED => ready
  | UPLOAD_STARTED => uploading
  | UPLOAD_PROGRESS => uploading
  | ALL_COMPLETED => completed
  | SOME_FAILED => partial
  | ALL_FAILED => failed
  | ALL_CANCELED => canceled
  | RESET => idle
  end.

(** The guard the code applies: the machine is not yet in the state the
    event aims at. *)
Definition not_at_target (s : OverallProgressState) (e : OverallProgressEvent)
  : bool :=
  bool_decide (s <> target e).

End OverallProgress.

(* ================================================================== *)
(** ** src/lib/localStorage.ts *)
(* ================================================================== *)

Module LocalStorage.

(** The status union, spelled inline in [SerializableUploadItem] and named
    [UploadStatus] in atoms/uploads.ts. *)
Inductive UploadStatus :=
  | queued | reserving | ready | uploading | success | error | canceled.

#[global] Instance UploadStatus_eq_dec : EqDecision UploadStatus.
Proof. solve_decision. Defined.

Record SerializableUploadItem := mkSerializable {
  s_id : string;
  s_fileName : string;
  s_fileSize : Z;
  s_fileType : string;
  s_fileLastModified : Z;
  s_progress : Z;
  s_status : UploadStatus;
  s_error : option string;
  s_remoteId : option string;
  s_uploadUrl : option string;
  s_method : option Method;
}.

(** [class FileCache]: the private [Map<string, File>] and its methods. The
    singleton [fileCache] is the cache component of the store below. *)
Module FileCache.

Definition set (id : string) (file : File) (cache : gmap string File)
  : gmap string File := <[id := file]> cache.

Definition get (id : string) (cache : gmap string File) : option File :=
  cache !! id.

Definition has (id : string) (cache : gmap string File) : bool :=
  bool_decide (is_Some (cache !! id)).

Definition delete (id : string) (cache : gmap string File)
  : gmap string File := base.delete id cache.

Definition clear (cache : gmap string File) : gmap string File := ∅.

Definition keys (cache : gmap string File) : list string :=
  (map_to_list cache).*1.

Definition size (cache : gmap string File) : nat := base.size cache.

(** The boolean [delete] returns: whether the id was cached. *)
Definition deleted (id : string) (cache : gmap string File) : bool :=
  bool_decide (is_Some (cache !! id)).

End FileCache.

End LocalStorage.

(* ================================================================== *)
(** ** atoms/uploads.ts *)
(* ================================================================== *)

Module Uploads.

Import LocalStorage.
Module SM := UploadStateMachine.

Record UploadItem := mkItem {
  item_id : string;
  item_file : File;
  item_fileSize : Z;
  item_progress : Z;
  item_status : UploadStatus;
  item_error : option string;
  item_remoteId : option string;
  item_uploadUrl : option string;
  item_method : option Method;
  item_controller : option AbortController;
  item_stateMachine : option SM.Machine;
}.

(** [Partial<UploadItem>], the [updates] of [updateUploadAtom]. *)
Record PartialUploadItem := mkPartialItem {
  u_id : option string;
  u_file : option File;
  u_fileSize : option Z;
  u_progress : option Z;
  u_status : option UploadStatus;
  u_error : option (option string);
  u_remoteId : option (option string);
  u_uploadUrl : option (option string);
  u_method : option (option Method);
  u_controller : option (option AbortController);
  u_stateMachine : option (option SM.Machine);
}.

Definition noUpdates : PartialUploadItem :=
  mkPartialItem None None None None None None None None None None None.

(** [{ ...s[id], ...updates }]. *)
Definition mergeItem (u : UploadItem) (p : PartialUploadItem) : UploadItem :=
  {| item_id := spread (item_id u) (u_id p);
     item_file := spread (item_file u) (u_file p);
     item_fileSize := spread (item_fileSize u) (u_fileSize p);
     item_progress := spread (item_progress u) (u_progress p);
     item_status := spread (item_status u) (u_status p);
     item_error := spread (item_error u) (u_error p);
     item_remoteId := spread (item_remoteId u) (u_remoteId p);
     item_uploadUrl := spread (item_uploadUrl u) (u_uploadUrl p);
     item_method := spread (item_method u) (u_method p);
     item_controller := spread (item_controller u) (u_controller p);
     item_stateMachine := spread (item_stateMachine u) (u_stateMachine p) |}.

(** [{ ...upload, status: "canceled", controller: undefined }], built after
    [upload.stateMachine.send("CANCEL")] has run on the machine object the
    record refers to: the copy shares that object, hence sees its new
    state. *)
Definition canceledCopy (upload : UploadItem) : UploadItem :=
  {| item_id := item_id upload;
     item_file := item_file upload;
     item_fileSize := item_fileSize upload;
     item_progress := item_progress upload;
     item_status := canceled;
     item_error := item_error upload;
     item_remoteId := item_remoteId upload;
     item_uploadUrl := item_uploadUrl upload;
     item_method := item_method upload;
     item_controller := None;
     item_stateMachine := SM.send_ SM.CANCEL None <$> item_stateMachine upload |}.

(** [{ ...serializable[id], status: "canceled" }]. *)
Definition canceledEntry (x : SerializableUploadItem) : SerializableUploadItem :=
  {| s_id := s_id x; s_fileName := s_fileName x; s_fileSize := s_fileSize x;
     s_fileType := s_fileType x; s_fileLastModified := s_fileLastModified x;
     s_progress := s_progress x; s_status := canceled; s_error := s_error x;
     s_remoteId := s_remoteId x; s_uploadUrl := s_uploadUrl x;
     s_method := s_method x |}.

(** *** The store

    What the atoms read and write: the value of [serializableUploadsAtom]
    (persisted to localStorage under its key), the [fileCache] singleton,
    and the log of [abort()] calls made on controllers. [uploadsAtom] has
    no storage of its own: it is derived from the first two on every
    read. *)
Record Store := mkStore {
  serializableUploads : gmap string SerializableUploadItem;
  fileCache : gmap string File;
  aborted : list AbortController;
}.

Definition emptyStore : Store := mkStore ∅ ∅ [].

(** [if (upload.controller) upload.controller.abort()]. *)
Definition abortIfPresent (c : option AbortController) (log : list AbortController)
  : list AbortController :=
  match c with Some ctl => log ++ [ctl] | None => log end.

(** The payload of the replayed [RESERVE_SUCCESS]. *)
Definition destinationPayload (item : SerializableUploadItem)
  : SM.PartialUploadContext :=
  {| SM.p_id := None; SM.p_file := None; SM.p_fileSize := None;
     SM.p_progress := None; SM.p_error := None;
     SM.p_remoteId := Some (s_remoteId item);
     SM.p_uploadUrl := Some (s_uploadUrl item);
     SM.p_method := Some (s_method item);
     SM.p_controller := None |}.

(** The payload [{ error: msg }]. *)
Definition errorPayload (msg : option string) : SM.PartialUploadContext :=
  {| SM.p_id := None; SM.p_file := None; SM.p_fileSize := None;
     SM.p_progress := None; SM.p_error := Some msg;
     SM.p_remoteId := None; SM.p_uploadUrl := None; SM.p_method := None;
     SM.p_controller := None |}.

(** The chain of [stateMachine.send] calls that brings a fresh machine to
    the persisted status (the if/else-if chain of the getter). *)
Definition replayStatus (item : SerializableUploadItem) (m : SM.Machine)
  : SM.Machine :=
  match s_status item with
  | queued => SM.send_ SM.ADD_FILE None m
  | reserving =>
      SM.send_ SM.START_RESERVE None (SM.send_ SM.ADD_FILE None m)
  | ready =>
      SM.send_ SM.RESERVE_SUCCESS (Some (destinationPayload item))
        (SM.send_ SM.START_RESERVE None (SM.send_ SM.ADD_FILE None m))
  | uploading =>
      SM.send_ SM.START_UPLOAD None
        (SM.send_ SM.RESERVE_SUCCESS (Some (destinationPayload item))
           (SM.send_ SM.START_RESERVE None (SM.send_ SM.ADD_FILE None m)))
  | success =>
      SM.send_ SM.UPLOAD_SUCCESS None
        (SM.send_ SM.START_UPLOAD None
           (SM.send_ SM.RESERVE_SUCCESS (Some (destinationPayload item))
              (SM.send_ SM.START_RESERVE None (SM.send_ SM.ADD_FILE None m))))
  | error =>
      SM.send_ SM.RESERVE_ERROR (Some (errorPayload (s_error item)))
        (SM.send_ SM.START_RESERVE None (SM.send_ SM.ADD_FILE None m))
  | canceled => SM.send_ SM.CANCEL None (SM.send_ SM.ADD_FILE None m)
  end.

Definition interruptedMessage : string :=
  "Upload was interrupted when the page refreshed. Please re-add this file to continue.".
Definition lostMessage : string :=
  "This file was lost when the page refreshed due to browser security. Please re-add it to upload.".
Definition cannotRetryMessage : string :=
  "Cannot retry - file was lost during page refresh. Please re-add the file.".

(** One turn of the getter's loop: the [UploadItem] built for the persisted
    entry [id -> item]. The spread [...item] also copies [fileName],
    [fileType] and [fileLastModified], which no code reads from an
    [UploadItem]; they are left out. *)
Definition rehydrate (cache : gmap string File) (id : string)
    (item : SerializableUploadItem) : UploadItem :=
  match FileCache.get id cache with
  | Some file =>
      let stateMachine := SM.createUploadStateMachine file id in
      {| item_id := s_id item;
         item_file := file;
         item_fileSize := s_fileSize item;
         item_progress := s_progress item;
         item_status := s_status item;
         item_error := s_error item;
         item_remoteId := s_remoteId item;
         item_uploadUrl := s_uploadUrl item;
         item_method := s_method item;
         item_controller := None;
         item_stateMachine := Some (replayStatus item stateMachine) |}
  | None =>
      let placeholderFile :=
        mkFile (s_fileName item) 0 (s_fileType item) (s_fileLastModified item) in
      let errorMessage :=
        if bool_decide (s_status item = uploading)
           || bool_decide (s_status item = reserving)
        then interruptedMessage else lostMessage in
      let stateMachine := SM.createUploadStateMachine placeholderFile id in
      {| item_id := s_id item;
         item_file := placeholderFile;
         item_fileSize := s_fileSize item;
         item_progress := s_progress item;
         item_status := error;
         item_error := Some errorMessage;
         item_remoteId := s_remoteId item;
         item_uploadUrl := s_uploadUrl item;
         item_method := s_method item;
         item_controller := None;
         item_stateMachine :=
           Some (SM.send_ SM.RESERVE_ERROR (Some (errorPayload (Some errorMessage)))
                   (SM.send_ SM.START_RESERVE None
                      (SM.send_ SM.ADD_FILE None stateMachine))) |}
  end.

(** The getter of [uploadsAtom]:
    [for (const [id, item] of Object.entries(serializable)) uploads[id] = ...]. *)
Definition uploadsAtom_read (serializable : gmap string SerializableUploadItem)
    (cache : gmap string File) : gmap string UploadItem :=
  map_fold (fun id item uploads => <[id := rehydrate cache id item]> uploads)
           ∅ serializable.

(** The serializable projection of one record (the object literal of the
    setter). [fileSize] is taken from the live file. *)
Definition project (upload : UploadItem) : SerializableUploadItem :=
  {| s_id := item_id upload;
     s_fileName := file_name (item_file upload);
     s_fileSize := file_size (item_file upload);
     s_fileType := file_type (item_file upload);
     s_fileLastModified := file_lastModified (item_file upload);
     s_progress := item_progress upload;
     s_status := item_status upload;
     s_error := item_error upload;
     s_remoteId := item_remoteId upload;
     s_uploadUrl := item_uploadUrl upload;
     s_method := item_method upload |}.

(** The setter of [uploadsAtom]: every record's file goes to the cache and
    its projection to a fresh [serializable] object. Returns the cache and
    that object. *)
Definition uploadsAtom_write (newUploads : gmap string UploadItem)
    (cache : gmap string File)
  : gmap string File * gmap string SerializableUploadItem :=
  map_fold (fun id upload acc =>
              (FileCache.set id (item_file upload) acc.1,
               <[id := project upload]> acc.2))
           (cache, ∅) newUploads.

(** [get(uploadsAtom)], [set(uploadsAtom, v)], [set(serializableUploadsAtom, v)]. *)
Definition get_uploadsAtom (st : Store) : gmap string UploadItem :=
  uploadsAtom_read (serializableUploads st) (fileCache st).

Definition set_uploadsAtom (newUploads : gmap string UploadItem) (st : Store)
  : Store :=
  let w := uploadsAtom_write newUploads (fileCache st) in
  mkStore w.2 w.1 (aborted st).

Definition set_serializableUploadsAtom
    (v : gmap string SerializableUploadItem) (st : Store) : Store :=
  mkStore v (fileCache st) (aborted st).

(** [Object.values(obj)]. *)
Definition values {A} (obj : gmap string A) : list A := (map_to_list obj).*2.

(** [uploadsArrayAtom]. *)
Definition uploadsArrayAtom (st : Store) : list UploadItem :=
  values (get_uploadsAtom st).

Definition isPlaceholderFile (upload : UploadItem) : bool :=
  match item_stateMachine upload with
  | Some stateMachine =>
      let state := SM.getState stateMachine in
      let context := SM.getContext stateMachine in
      SM.isPlaceholderState state context
  | None =>
      bool_decide (file_size (item_file upload) = 0)
      && bool_decide (0 < item_fileSize upload)
  end.

(** *** overallProgressAtom *)

(** The reducer of [progressSum]. *)
Definition addProgress (sum : Z) (upload : UploadItem) : Z :=
  if bool_decide (item_status upload = success) then sum + 100
  else if bool_decide (item_status upload = uploading) then
    sum + item_progress upload
  else sum + 0.

(** [Math.round]: the nearest integer, a half rounded up. *)
Definition Math_round (x : Q) : Z := Qfloor (x + (1 # 2))%Q.

Definition count (status : UploadStatus) (uploads : list UploadItem) : Z :=
  Z.of_nat (length (filter (fun u => item_status u = status) uploads)).

(** The [context] object computed from the array of uploads. *)
Definition computeContext (uploads : list UploadItem)
  : OverallProgress.PartialContext :=
  let totalFiles := Z.of_nat (length uploads) in
  let completedFiles := count success uploads in
  let failedFiles := count error uploads in
  let canceledFiles := count canceled uploads in
  let uploadingFiles := count uploading uploads in
  let preparingFiles := count reserving uploads in
  let readyFiles := count ready uploads in
  let progressSum := foldl addProgress 0 uploads in
  let overallProgress :=
    if bool_decide (0 < totalFiles)
    then Math_round (inject_Z progressSum / inject_Z totalFiles)%Q
    else 0 in
  let hasRetryableFiles :=
    existsb (fun u => bool_decide (item_status u = error)
                      && negb (SM.error_mentions_refresh (item_error u)))
            uploads in
  let hasPlaceholderFiles := existsb isPlaceholderFile uploads in
  {| OverallProgress.p_totalFiles := Some totalFiles;
     OverallProgress.p_completedFiles := Some completedFiles;
     OverallProgress.p_failedFiles := Some failedFiles;
     OverallProgress.p_canceledFiles := Some canceledFiles;
     OverallProgress.p_uploadingFiles := Some uploadingFiles;
     OverallProgress.p_preparingFiles := Some preparingFiles;
     OverallProgress.p_readyFiles := Some readyFiles;
     OverallProgress.p_overallProgress := Some overallProgress;
     OverallProgress.p_hasRetryableFiles := Some hasRetryableFiles;
     OverallProgress.p_hasPlaceholderFiles := Some hasPlaceholderFiles |}.

(** The getter of [overallProgressAtom], given the array of uploads and the
    session machine held by [overallProgressStateMachineAtom]: the machine
    after [updateFromUploads], whose [getContext()] the atom returns. *)
Definition overallProgressAtom (uploads : list UploadItem)
    (stateMachine : OverallProgress.Machine) : OverallProgress.Machine :=
  OverallProgress.machine
    (OverallProgress.updateFromUploads stateMachine (computeContext uploads)).

(** Section 4.5 of the specification: what one transfer contributes. *)
Definition contribution (t : UploadItem) : Z :=
  match item_status t with
  | success => 100
  | uploading => item_progress t
  | _ => 0
  end.

(** The sum of section 4.5. *)
Definition total_contribution (transfers : list UploadItem) : Z :=
  foldr Z.add 0 (map contribution transfers).

(** *** The write atoms

    A write atom [(get, set, args) => ...] is a function on the store.
    [crypto.randomUUID()] is an oracle: [randomUUID n] is what its [n]-th
    call in the operation returns. *)

(** The record [addFilesAtom] creates for [file] under [id]. *)
Definition queuedItem (file : File) (id : string) : UploadItem :=
  let stateMachine := SM.createUploadStateMachine file id in
  let stateMachine := SM.send_ SM.ADD_FILE None stateMachine in
  {| item_id := id; item_file := file; item_fileSize := file_size file;
     item_progress := 0; item_status := queued; item_error := None;
     item_remoteId := None; item_uploadUrl := None; item_method := None;
     item_controller := None; item_stateMachine := Some stateMachine |}.

(** The record [prepareUploadsAtom] creates for [file] under [id]. *)
Definition reservingItem (file : File) (id : string) : UploadItem :=
  let stateMachine := SM.createUploadStateMachine file id in
  let stateMachine := SM.send_ SM.ADD_FILE None stateMachine in
  let stateMachine := SM.send_ SM.START_RESERVE None stateMachine in
  {| item_id := id; item_file := file; item_fileSize := file_size file;
     item_progress := 0; item_status := reserving; item_error := None;
     item_remoteId := None; item_uploadUrl := None; item_method := None;
     item_controller := None; item_stateMachine := Some stateMachine |}.

(** [files.forEach(file => { const id = crypto.randomUUID(); next[id] = ... })]. *)
Definition addEach (mk : File -> string -> UploadItem)
    (randomUUID : nat -> string) (files : list File)
    (next : gmap string UploadItem) : gmap string UploadItem :=
  foldl (fun next nf => <[randomUUID nf.1 := mk nf.2 (randomUUID nf.1)]> next)
        next (imap (fun n file => (n, file)) files).

Definition addFilesAtom (randomUUID : nat -> string) (files : list File)
    (st : Store) : Store :=
  let currentUploads := get_uploadsAtom st in
  let uploadValues := values currentUploads in
  let inProgressFiles :=
    length (filter (fun u => item_status u = reserving
                             \/ item_status u = uploading) uploadValues) in
  let successFiles :=
    length (filter (fun u => item_status u = success) uploadValues) in
  let uploadsStarted :=
    bool_decide (0 < inProgressFiles)%nat || bool_decide (0 < successFiles)%nat in
  if uploadsStarted then st
  else
    let next := addEach queuedItem randomUUID files (get_uploadsAtom st) in
    set_uploadsAtom next st.

(** [removeUploadAtom]. The [REMOVE] it sends goes to the machine of a record
    that is deleted next, and is left out. *)
Definition removeUploadAtom (id : string) (st : Store) : Store :=
  let s := get_uploadsAtom st in
  let st1 :=
    match s !! id with
    | Some upload =>
        mkStore (serializableUploads st)
                (FileCache.delete id (fileCache st))
                (abortIfPresent (item_controller upload) (aborted st))
    | None => st
    end in
  let st2 := set_uploadsAtom (delete id s) st1 in
  let serializable := serializableUploads st2 in
  set_serializableUploadsAtom (delete id serializable) st2.

Definition updateUploadAtom (id : string) (updates : PartialUploadItem)
    (st : Store) : Store :=
  let s := get_uploadsAtom st in
  match s !! id with
  | Some current => set_uploadsAtom (<[id := mergeItem current updates]> s) st
  | None => st
  end.

Definition cancelUploadAtom (id : string) (st : Store) : Store :=
  let s := get_uploadsAtom st in
  match s !! id with
  | Some upload =>
      let st1 :=
        mkStore (serializableUploads st) (fileCache st)
                (abortIfPresent (item_controller upload) (aborted st)) in
      let st2 := set_uploadsAtom (<[id := canceledCopy upload]> s) st1 in
      let serializable := serializableUploads st2 in
      match serializable !! id with
      | Some x =>
          set_serializableUploadsAtom (<[id := canceledEntry x]> serializable) st2
      | None => st2
      end
  | None => st
  end.

(** The variables the [forEach] of [cancelAllActiveUploadsAtom] updates. *)
Record CancelAllLoop := mkLoop {
  loop_s : gmap string UploadItem;
  loop_serializable : gmap string SerializableUploadItem;
  loop_hasChanges : bool;
  loop_aborted : list AbortController;
}.

(** The body of that [forEach], for one [upload]. *)
Definition cancelActive (upload : UploadItem) (acc : CancelAllLoop)
  : CancelAllLoop :=
  if bool_decide (item_status upload = uploading)
     || bool_decide (item_status upload = reserving)
  then
    {| loop_aborted := abortIfPresent (item_controller upload) (loop_aborted acc);
       loop_s := <[item_id upload := canceledCopy upload]> (loop_s acc);
       loop_serializable :=
         match loop_serializable acc !! item_id upload with
         | Some x =>
             <[item_id upload := canceledEntry x]> (loop_serializable acc)
         | None => loop_serializable acc
         end;
       loop_hasChanges := true |}
  else acc.

(** [Object.values(s).forEach(...)] over the copies [s] and [serializable]. *)
Definition cancelAllActive_forEach (s : gmap string UploadItem)
    (serializable : gmap string SerializableUploadItem)
    (log : list AbortController) : CancelAllLoop :=
  map_fold (fun _ upload acc => cancelActive upload acc)
           (mkLoop s serializable false log) s.

Definition cancelAllActiveUploadsAtom (st : Store) : Store :=
  let s := get_uploadsAtom st in
  let serializable := serializableUploads st in
  let r := cancelAllActive_forEach s serializable (aborted st) in
  let st1 := mkStore (serializableUploads st) (fileCache st) (loop_aborted r) in
  if loop_hasChanges r then
    set_serializableUploadsAtom (loop_serializable r)
      (set_uploadsAtom (loop_s r) st1)
  else st1.

(** The variables the [forEach] of [clearAllUploadsAtom] updates. *)
Definition clearOne (upload : UploadItem)
    (acc : gmap string File * list AbortController)
  : gmap string File * list AbortController :=
  (FileCache.delete (item_id upload) acc.1,
   if bool_decide (is_Some (item_controller upload))
      && (bool_decide (item_status upload = uploading)
          || bool_decide (item_status upload = reserving))
   then abortIfPresent (item_controller upload) acc.2 else acc.2).

Definition clearAllUploadsAtom (st : Store) : Store :=
  let s := get_uploadsAtom st in
  let r := map_fold (fun _ upload acc => clearOne upload acc)
                    (fileCache st, aborted st) s in
  let st1 := mkStore (serializableUploads st) r.1 r.2 in
  set_serializableUploadsAtom ∅ (set_uploadsAtom ∅ st1).

(** The [next] object [clearRemovableUploadsAtom] builds. *)
Definition keepUploading (s : gmap string UploadItem) : gmap string UploadItem :=
  map_fold (fun _ upload next =>
              if bool_decide (item_status upload = uploading)
              then <[item_id upload := upload]> next else next)
           ∅ s.

Definition clearRemovableUploadsAtom (st : Store) : Store :=
  let s := get_uploadsAtom st in
  let next := keepUploading s in
  set_uploadsAtom next st.

(** [prepareUploadsAtom] up to its first [await]: the guard and the records
    added; returns the store and [newUploadIds]. The reservations that
    follow are asynchronous calls to the backend. *)
Definition prepareUploadsAtom_add (randomUUID : nat -> string)
    (files : list File) (st : Store) : Store * list string :=
  if bool_decide (length files = 0%nat) then (st, [])
  else
    let currentUploads := get_uploadsAtom st in
    let uploadValues := values currentUploads in
    let inProgressFiles :=
      length (filter (fun u => item_status u = reserving
                               \/ item_status u = uploading) uploadValues) in
    let successFiles :=
      length (filter (fun u => item_status u = success) uploadValues) in
    let uploadsStarted :=
      bool_decide (0 < inProgressFiles)%nat
      || bool_decide (0 < successFiles)%nat in
    if uploadsStarted then (st, [])
    else
      let uploads := addEach reservingItem randomUUID files (get_uploadsAtom st) in
      let newUploadIds := imap (fun n _ => randomUUID n) files in
      (set_uploadsAtom uploads st, newUploadIds).

(** [readyUploadsAtom]: the transfers [startUploadsAtom] transmits. The
    truthiness tests of [uploadUrl] and [id] fail on the empty string. *)
Definition truthy (o : option string) : bool :=
  match o with Some s => negb (bool_decide (s = "")) | None => false end.

Definition readyUploadsAtom (st : Store) : list UploadItem :=
  filter (fun upload =>
            truthy (item_uploadUrl upload) && truthy (Some (item_id upload))
            && negb (bool_decide (item_status upload = error))
            && negb (isPlaceholderFile upload) = true)
         (values (get_uploadsAtom st)).

(** [retryUploadAtom] up to its first [await]. It returns without effect,
    or refuses a placeholder with the fixed message, or resets the record
    and calls [performSimpleUpload(upload, set)] with the record it read
    before the reset. It makes no call to the reservation endpoint
    ([/api/upload-url]) on any path: the only [axios] calls of the atom and
    of [performSimpleUpload] are the transfer itself and
    [/api/upload-complete]. *)
Inductive RetryStep :=
  | RetryIgnored (st : Store)
  | RetryRefused (st : Store)
  | RetryTransmit (st : Store) (upload : UploadItem).

Definition cannotRetryUpdate : PartialUploadItem :=
  {| u_id := None; u_file := None; u_fileSize := None; u_progress := None;
     u_status := Some error; u_error := Some (Some cannotRetryMessage);
     u_remoteId := None; u_uploadUrl := None; u_method := None;
     u_controller := None; u_stateMachine := None |}.

Definition resetUpdate : PartialUploadItem :=
  {| u_id := None; u_file := None; u_fileSize := None; u_progress := Some 0;
     u_status := Some ready; u_error := Some None;
     u_remoteId := None; u_uploadUrl := None; u_method := None;
     u_controller := Some None; u_stateMachine := None |}.

Definition retryUploadAtom (id : string) (st : Store) : RetryStep :=
  let uploads := get_uploadsAtom st in
  match uploads !! id with
  | None => RetryIgnored st
  | Some upload =>
      if negb (bool_decide (item_status upload = error)) then RetryIgnored st
      else if isPlaceholderFile upload then
        RetryRefused (updateUploadAtom id cannotRetryUpdate st)
      else
        RetryTransmit (updateUploadAtom id resetUpdate st) upload
  end.

(** The store a [RetryStep] leaves. *)
Definition retryStore (r : RetryStep) : Store :=
  match r with
  | RetryIgnored st | RetryRefused st | RetryTransmit st _ => st
  end.

(** The filter of [retryAllFailedAtom]: the records it retries. *)
Definition retryAllFailed_targets (st : Store) : list (string * UploadItem) :=
  filter (fun e =>
            bool_decide (item_status e.2 = error)
            && negb (SM.error_mentions_refresh (item_error e.2)) = true)
         (map_to_list (get_uploadsAtom st)).

(** [hasPlaceholderFilesAtom]. *)
Definition hasPlaceholderFilesAtom (st : Store) : bool :=
  existsb isPlaceholderFile (values (get_uploadsAtom st)).

(** The [next] object [clearCompletedAtom] builds. *)
Definition dropCompleted (s : gmap string UploadItem) : gmap string UploadItem :=
  map_fold (fun _ u next =>
              if negb (bool_decide (item_status u = success))
                 && negb (bool_decide (item_status u = canceled))
              then <[item_id u := u]> next else next)
           ∅ s.

Definition clearCompletedAtom (st : Store) : Store :=
  let s := get_uploadsAtom st in
  set_uploadsAtom (dropCompleted s) st.

(** *** The steps of a reservation and of a transfer

    [reserveUploadUrl], [performSimpleUpload] and the handlers of
    [startUploadsAtom] run between [await]s on the backend. Each stretch
    between two [await]s is a function on the store as it is when the
    stretch runs; what the backend answered is an argument. *)

(** [reserveUploadUrl] after [axios.post] resolved with [result]: the
    [RESERVE_SUCCESS] goes to a machine that the update discards. *)
Definition reserved (uploadId : string) (resultId resultUploadUrl : option string)
    (st : Store) : Store :=
  updateUploadAtom uploadId
    {| u_id := None; u_file := None; u_fileSize := None; u_progress := None;
       u_status := Some ready; u_error := None;
       u_remoteId := Some resultId; u_uploadUrl := Some resultUploadUrl;
       u_method := Some (Some PUT);
       u_controller := None; u_stateMachine := None |}
    st.

(** [reserveUploadUrl] after [axios.post] rejected; [errorMessage] is
    [error.message] or the default text. *)
Definition reserveFailed (uploadId : string) (errorMessage : string)
    (st : Store) : Store :=
  updateUploadAtom uploadId
    {| u_id := None; u_file := None; u_fileSize := None; u_progress := None;
       u_status := Some error; u_error := Some (Some errorMessage);
       u_remoteId := None; u_uploadUrl := None; u_method := None;
       u_controller := None; u_stateMachine := None |}
    st.

(** [performSimpleUpload] up to the [axios] call. *)
Definition uploadBegun (abortController : AbortController) (upload : UploadItem)
    (st : Store) : Store :=
  updateUploadAtom (item_id upload)
    {| u_id := None; u_file := None; u_fileSize := None; u_progress := None;
       u_status := Some uploading; u_error := None;
       u_remoteId := None; u_uploadUrl := None; u_method := None;
       u_controller := Some (Some abortController); u_stateMachine := None |}
    st.

(** The percentage [onUploadProgress] computes,
    [Math.round((loaded / total) * 100)]: a division and a multiplication
    of doubles, then the nearest integer. *)
Definition percent (loaded total : Z) : Z :=
  Math_round (Binary64.mul (Binary64.div (inject_Z loaded) (inject_Z total))
                           (inject_Z 100)).

(** [onUploadProgress]; [progressEvent.total] may be undefined, and 0 is
    falsy. *)
Definition onUploadProgress (upload : UploadItem) (loaded : Z)
    (total : option Z) (st : Store) : Store :=
  match total with
  | Some t =>
      if bool_decide (t = 0) then st
      else
        updateUploadAtom (item_id upload)
          {| u_id := None; u_file := None; u_fileSize := None;
             u_progress := Some (percent loaded t);
             u_status := None; u_error := None;
             u_remoteId := None; u_uploadUrl := None; u_method := None;
             u_controller := None; u_stateMachine := None |}
          st
  | None => st
  end.

(** [performSimpleUpload] after the transfer resolved (whether or not the
    completion notice was accepted). *)
Definition uploadSucceeded (upload : UploadItem) (st : Store) : Store :=
  updateUploadAtom (item_id upload)
    {| u_id := None; u_file := None; u_fileSize := None;
       u_progress := Some 100; u_status := Some success;
       u_error := Some None;
       u_remoteId := None; u_uploadUrl := None; u_method := None;
       u_controller := Some None; u_stateMachine := None |}
    st.

(** The [catch] of [performSimpleUpload]. *)
Definition uploadThrew (upload : UploadItem) (st : Store) : Store :=
  updateUploadAtom (item_id upload)
    {| u_id := None; u_file := None; u_fileSize := None; u_progress := None;
       u_status := None; u_error := None;
       u_remoteId := None; u_uploadUrl := None; u_method := None;
       u_controller := Some None; u_stateMachine := None |}
    st.

(** The [catch] of [startUploadsAtom] (and of [retryUploadAtom]) for an
    [AbortError]. *)
Definition uploadAborted (upload : UploadItem) (st : Store) : Store :=
  updateUploadAtom (item_id upload)
    {| u_id := None; u_file := None; u_fileSize := None; u_progress := None;
       u_status := Some canceled; u_error := None;
       u_remoteId := None; u_uploadUrl := None; u_method := None;
       u_controller := Some None; u_stateMachine := None |}
    st.

(** The [catch] of [startUploadsAtom] for any other error, after the
    failure notice was sent. *)
Definition uploadFailed (upload : UploadItem) (errorMsg : string) (st : Store)
  : Store :=
  updateUploadAtom (item_id upload)
    {| u_id := None; u_file := None; u_fileSize := None; u_progress := None;
       u_status := Some error; u_error := Some (Some errorMsg);
       u_remoteId := None; u_uploadUrl := None; u_method := None;
       u_controller := Some None; u_stateMachine := None |}
    st.

End Uploads.

(* ================================================================== *)
(** ** src/atoms/upload-stats.ts *)
(* ================================================================== *)

Module UploadStats.

Import LocalStorage Uploads.

Record Stats := mkStats {
  totalFiles : Z;
  inProgressFiles : Z;
  queuedFiles : Z;
  successFiles : Z;
  errorFiles : Z;
  canceledFiles : Z;
  totalBytes : Z;
  loadedBytes : Z;
}.

Definition countIf (P : UploadItem -> Prop) `{!forall u, Decision (P u)}
    (items : list UploadItem) : Z :=
  Z.of_nat (length (filter P items)).

(** The reducer of [loadedBytes];
    [Math.floor(size * (u.progress / 100))] is a division and a
    multiplication of doubles, then the floor. The sums of the two
    [reduce] calls are sums of integers, which doubles add exactly as long
    as they stay below [2^53]. *)
Definition addLoaded (a : Z) (u : UploadItem) : Z :=
  let size := item_fileSize u in
  if bool_decide (item_status u = success) then a + size
  else a + Qfloor (Binary64.mul (inject_Z size)
                     (Binary64.div (inject_Z (item_progress u)) (inject_Z 100))).

(** The object [uploadStatsAtom] returns, computed from [items]. *)
Definition uploadStats (items : list UploadItem) : Stats :=
  {| totalFiles := Z.of_nat (length items);
     inProgressFiles :=
       countIf (fun u => item_status u = reserving \/ item_status u = uploading)
               items;
     queuedFiles :=
       countIf (fun u => item_status u = queued \/ item_status u = ready) items;
     successFiles := countIf (fun u => item_status u = success) items;
     errorFiles := countIf (fun u => item_status u = error) items;
     canceledFiles := countIf (fun u => item_status u = canceled) items;
     totalBytes := foldl (fun a u => a + item_fileSize u) 0 items;
     loadedBytes := foldl addLoaded 0 items |}.

Definition uploadStatsAtom (st : Store) : Stats :=
  uploadStats (values (get_uploadsAtom st)).

Inductive OverallStatus :=
  | s_idle | s_queued | s_uploading | s_mixed | s_success | s_attention.

(** [overallStatusAtom], from the state [overallProgressAtom] reports. *)
Definition overallStatus (state : OverallProgress.OverallProgressState)
  : OverallStatus :=
  match state with
  | OverallProgress.idle => s_idle
  | OverallProgress.preparing | OverallProgress.ready => s_queued
  | OverallProgress.uploading => s_uploading
  | OverallProgress.completed => s_success
  | OverallProgress.partial => s_mixed
  | OverallProgress.failed | OverallProgress.canceled => s_attention
  end.

(** The atoms that read [progress.context] of [overallProgressAtom]. *)
Definition isUploading (c : OverallProgress.OverallProgressContext) : bool :=
  bool_decide (0 < OverallProgress.uploadingFiles c).

Definition isPreparingUploads (c : OverallProgress.OverallProgressContext)
  : bool :=
  bool_decide (0 < OverallProgress.preparingFiles c).

Definition hasErrors (c : OverallProgress.OverallProgressContext) : bool :=
  bool_decide (0 < OverallProgress.failedFiles c).

Definition uploadsStarted (c : OverallProgress.OverallProgressContext) : bool :=
  bool_decide (0 < OverallProgress.uploadingFiles c)
  || bool_decide (0 < OverallProgress.completedFiles c).

(** [uploadsStartedAtom] on a store, the session machine being [m]. *)
Definition uploadsStartedAtom (st : Store) (m : OverallProgress.Machine) : bool :=
  uploadsStarted
    (OverallProgress.context (overallProgressAtom (uploadsArrayAtom st) m)).

End UploadStats.

(* ================================================================== *)
(** ** Vocabulary of the properties and sample data *)
(* ================================================================== *)

Module Registry.

Import LocalStorage Uploads.

(** A transfer [cancelAll] acts on. *)
Definition active (u : UploadItem) : Prop :=
  item_status u = uploading \/ item_status u = reserving.

#[global] Instance active_dec u : Decision (active u).
Proof. unfold active. apply _. Defined.

(** A transfer that makes the session count as started. *)
Definition starts_session (u : UploadItem) : Prop :=
  item_status u = reserving \/ item_status u = uploading
  \/ item_status u = success.

(** Every record sits under its own [id], as every record the atoms create
    does. *)
Definition keyed_by_id (s : gmap string UploadItem) : Prop :=
  forall k u, s !! k = Some u -> item_id u = k.

Definition well_keyed (st : Store) : Prop :=
  forall k item, serializableUploads st !! k = Some item -> s_id item = k.

(** Every persisted record has its payload in the file cache. *)
Definition payloads_present (st : Store) : Prop :=
  forall k item,
    serializableUploads st !! k = Some item -> is_Some (fileCache st !! k).

(** The destination triple of a record. *)
Definition destination (u : UploadItem)
  : option string * option string * option Method :=
  (item_remoteId u, item_uploadUrl u, item_method u).

(** A placeholder as the specification describes it: the live payload has
    size 0, the recorded size is positive, and the error message tells of
    the loss. *)
Definition placeholder_record (u : UploadItem) : Prop :=
  item_status u = error
  /\ file_size (item_file u) = 0
  /\ 0 < item_fileSize u
  /\ SM.error_mentions_refresh (item_error u) = true.

(** The machine state that stands for a status of a record. *)
Definition machineState (status : UploadStatus) : SM.UploadState :=
  match status with
  | queued => SM.queued
  | reserving => SM.reserving
  | ready => SM.ready
  | uploading => SM.uploading
  | success => SM.success
  | error => SM.error
  | canceled => SM.canceled
  end.

(** The destination a machine context carries. *)
Definition contextDestination (c : SM.UploadContext)
  : option string * option string * option Method :=
  (SM.ctx_remoteId c, SM.ctx_uploadUrl c, SM.ctx_method c).

(** A payload that sets neither the file nor the recorded size. *)
Definition keepsPayloadSize (call : SM.UploadEvent * option SM.PartialUploadContext)
  : Prop :=
  match call.2 with
  | Some p => SM.p_file p = None /\ SM.p_fileSize p = None
  | None => True
  end.

(** An update of the session that brings no new counts. *)
Definition sameCounts : OverallProgress.PartialContext :=
  OverallProgress.mkPartialContext None None None None None None None None
                                   None None.

(** Sample data. *)
Definition fileA : File := mkFile "a.txt" 1000 "text/plain" 0.
Definition fileB : File := mkFile "b.txt" 2000 "text/plain" 0.
Definition fileC : File := mkFile "c.txt" 3000 "text/plain" 0.

Definition entry (id : string) (f : File) (progress : Z) (status : UploadStatus)
  : SerializableUploadItem :=
  mkSerializable id (file_name f) (file_size f) (file_type f)
                 (file_lastModified f) progress status None None None None.

Definition record (id : string) (f : File) (progress : Z)
    (status : UploadStatus) (controller : option AbortController)
  : UploadItem :=
  mkItem id f (file_size f) progress status None None None None controller None.

(** One uploading, one reserving and one success transfer, payloads cached. *)
Definition batchStore : Store :=
  mkStore {[ "a" := entry "a" fileA 40 uploading;
             "b" := entry "b" fileB 0 reserving;
             "c" := entry "c" fileC 100 success ]}
          {[ "a" := fileA; "b" := fileB; "c" := fileC ]}
          [].

(** The same batch as records holding cancellation tokens 1 and 2. *)
Definition batchRecords : gmap string UploadItem :=
  {[ "a" := record "a" fileA 40 uploading (Some 1%nat);
     "b" := record "b" fileB 0 reserving (Some 2%nat);
     "c" := record "c" fileC 100 success None ]}.

(** The updates that hand a cancellation token to [updateUploadAtom], as
    [performSimpleUpload] does for a transfer it starts. *)
Definition tokenUpdate (status : UploadStatus) (controller : AbortController)
  : PartialUploadItem :=
  {| u_id := None; u_file := None; u_fileSize := None; u_progress := None;
     u_status := Some status; u_error := None;
     u_remoteId := None; u_uploadUrl := None; u_method := None;
     u_controller := Some (Some controller); u_stateMachine := None |}.

(** The batch after the tokens 1 and 2 were handed over for the uploading
    and the reserving transfer. *)
Definition tokenStore : Store :=
  updateUploadAtom "b" (tokenUpdate reserving 2%nat)
    (updateUploadAtom "a" (tokenUpdate uploading 1%nat) batchStore).

(** One finished transfer. *)
Definition doneStore : Store :=
  mkStore {[ "c" := entry "c" fileC 100 success ]} {[ "c" := fileC ]} [].

(** A registry with a single reserving transfer, payload cached. *)
Definition reservingStore : Store :=
  mkStore {[ "b" := entry "b" fileB 0 reserving ]} {[ "b" := fileB ]} [].

(** A transfer that failed at 90% with a network error, payload cached. *)
Definition failedStore : Store :=
  mkStore {[ "a" := mkSerializable "a" "a.txt" 1000 "text/plain" 0 90 error
                      (Some "Network Error") (Some "r1")
                      (Some "/api/upload/r1") (Some PUT) ]}
          {[ "a" := fileA ]} [].

(** After a restart: a queued transfer was persisted, the cache is empty. *)
Definition restartedStore : Store :=
  mkStore {[ "a" := entry "a" fileA 0 queued ]} ∅ [].

(** The record the registry shows for that transfer. *)
Definition lostRecord : UploadItem :=
  rehydrate (fileCache restartedStore) "a" (entry "a" fileA 0 queued).

Definition sampleUUID (n : nat) : string :=
  match n with O => "u0" | _ => "u1" end.

Definition sampleMachine : SM.Machine := SM.createUploadStateMachine fileA "a".

(** The session machine after [overallProgressAtom] was read twice with one
    queued transfer: [idle], then [preparing], then [ready]. *)
Definition readySession : OverallProgress.Machine :=
  overallProgressAtom [record "a" fileA 0 queued None]
    (overallProgressAtom [record "a" fileA 0 queued None]
       OverallProgress.createOverallProgressStateMachine).

Definition progressPayload : SM.PartialUploadContext :=
  SM.mkPartialContext None None None (Some 50) None None None None None.

End Registry.

(* ================================================================== *)
(** * Properties *)
(* ================================================================== *)

Module SM := UploadStateMachine.
Module OP := OverallProgress.
Module U := Uploads.
Module R := Registry.

(** ** The transfer state machine *)

Lemma canTransition_listed S E :
  SM.canTransition S E = bool_decide (is_Some (SM.listed S E)).
Proof. destruct S, E; reflexivity. Qed.

(** C1. [getNextState] returns the destination the table of section 4.1
    lists for the state and the event, and the state itself when the pair
    is not listed; the rows of uploading and retrying are spelled out. *)
Theorem C1_getNextState_follows_table :
  (forall S E,
     SM.getNextState S E
     = match SM.listed S E with Some D => D | None => S end)
  /\ (SM.getNextState SM.uploading SM.UPLOAD_PROGRESS = SM.uploading
      /\ SM.getNextState SM.uploading SM.UPLOAD_SUCCESS = SM.success
      /\ SM.getNextState SM.uploading SM.UPLOAD_ERROR = SM.error
      /\ SM.getNextState SM.uploading SM.CANCEL = SM.canceled)
  /\ (SM.getNextState SM.retrying SM.START_RESERVE = SM.reserving
      /\ SM.getNextState SM.retrying SM.RESERVE_SUCCESS = SM.ready
      /\ SM.getNextState SM.retrying SM.START_UPLOAD = SM.uploading
      /\ SM.getNextState SM.retrying SM.UPLOAD_SUCCESS = SM.success
      /\ SM.getNextState SM.retrying SM.UPLOAD_ERROR = SM.error
      /\ SM.getNextState SM.retrying SM.CANCEL = SM.canceled
      /\ SM.getNextState SM.retrying SM.REMOVE = SM.idle).
Proof.
  split; [|repeat split].
  intros S E. destruct S, E; reflexivity.
Qed.

Lemma getNextState_unlisted S E :
  SM.listed S E = None -> SM.getNextState S E = S.
Proof.
  destruct S, E; (reflexivity || discriminate).
Qed.

(** C4, as the specification words it, fails: from [idle] the event
    [START_UPLOAD] is not listed, and sent with a payload it leaves the
    state alone and merges the payload, yet [send] returns [true], which
    is its answer for "something was updated", not its no-op answer. *)
Lemma C4_send_with_payload_returns_true :
  SM.listed (SM.state R.sampleMachine) SM.START_UPLOAD = None
  /\ SM.state (SM.machine (SM.send R.sampleMachine SM.START_UPLOAD
                              (Some R.progressPayload))) = SM.idle
  /\ SM.ctx_progress (SM.context (SM.machine
        (SM.send R.sampleMachine SM.START_UPLOAD (Some R.progressPayload)))) = 50
  /\ SM.returned (SM.send R.sampleMachine SM.START_UPLOAD
                    (Some R.progressPayload)) = true.
Proof. repeat split. Qed.

(** C4, amended. For an event the table does not list for the current
    state, [send] leaves the state unchanged and merges the payload if one
    is supplied. It returns [false] (and calls no listener) exactly when no
    payload is supplied; with a payload it returns [true] and calls every
    listener with the unchanged state and the merged context. *)
Theorem C4_unlisted_event_keeps_state_merges_payload :
  forall (m : SM.Machine) (E : SM.UploadEvent)
         (payload : option SM.PartialUploadContext),
    SM.listed (SM.state m) E = None ->
    let r := SM.send m E payload in
    SM.state (SM.machine r) = SM.state m
    /\ SM.listeners (SM.machine r) = SM.listeners m
    /\ match payload with
       | Some p =>
           SM.context (SM.machine r) = SM.mergeContext (SM.context m) p
           /\ SM.returned r = true
           /\ SM.notified r
              = map (fun l => (l, SM.state m, SM.mergeContext (SM.context m) p))
                    (SM.listeners m)
       | None =>
           SM.machine r = m /\ SM.returned r = false /\ SM.notified r = []
       end.
Proof.
  intros m E payload Hun r. subst r. unfold SM.send.
  rewrite (getNextState_unlisted _ _ Hun).
  rewrite bool_decide_eq_true_2 by reflexivity.
  rewrite (bool_decide_eq_false_2 (SM.state m <> SM.state m)) by (intros ?; congruence).
  destruct payload as [p|]; simpl; repeat split; reflexivity.
Qed.

Lemma C4_unlisted_event_witness :
  SM.listed (SM.state R.sampleMachine) SM.START_UPLOAD = None
  /\ SM.state (SM.machine (SM.send R.sampleMachine SM.START_UPLOAD
                              (Some R.progressPayload)))
     = SM.state R.sampleMachine.
Proof.
  split; [reflexivity|].
  exact (proj1 (C4_unlisted_event_keeps_state_merges_payload
                  R.sampleMachine SM.START_UPLOAD (Some R.progressPayload)
                  eq_refl)).
Defined.

(** ** The session state machine *)

(** Every destination in [OVERALL_STATE_TRANSITIONS] is the target of its
    event: the table mirrors the precedence targets. *)
Lemma transition_reaches_target s e s' :
  OP.prop e (OP.OVERALL_STATE_TRANSITIONS s) = Some s' -> s' = OP.target e.
Proof. destruct s, e; simpl; intros H; inversion H; reflexivity. Qed.

Lemma getNextOverallState_cases s e :
  OP.getNextOverallState s e = s \/ OP.getNextOverallState s e = OP.target e.
Proof. destruct s, e; simpl; auto. Qed.

(** C2, as the specification words it, fails on its last clause. With one
    transfer, uploading, and the machine in [preparing], rule 7 is the
    first to match and the code produces [UPLOAD_PROGRESS]; the table has
    no such entry for [preparing], so sending it changes nothing. A rule
    that fired only when the state would change would produce no event.
    The same happens through the atom: a session brought to [ready] by one
    queued transfer, then joined by a reserving one, derives
    [PREPARATION_STARTED], which no state accepts, and stays in [ready]. *)
Lemma C2_event_fired_without_state_change :
  OP.determineEventFromContext
    (OP.mkMachine OP.preparing (OP.mkContext 1 0 0 0 1 0 0 0 false false) [])
  = Some OP.UPLOAD_PROGRESS
  /\ OP.getNextOverallState OP.preparing OP.UPLOAD_PROGRESS = OP.preparing
  /\ OP.state (OP.machine (OP.send
       (OP.mkMachine OP.preparing (OP.mkContext 1 0 0 0 1 0 0 0 false false) [])
       OP.UPLOAD_PROGRESS)) = OP.preparing
  /\ OP.first_match OP.would_change OP.precedence OP.preparing
       (OP.mkContext 1 0 0 0 1 0 0 0 false false) = None
  /\ OP.state R.readySession = OP.ready
  /\ OP.determineEventFromContext
       (OP.mkMachine (OP.state R.readySession)
          (OP.mergeContext (OP.context R.readySession)
             (U.computeContext
                [R.record "a" R.fileA 0 LocalStorage.queued None;
                 R.record "b" R.fileB 0 LocalStorage.reserving None]))
          (OP.listeners R.readySession))
     = Some OP.PREPARATION_STARTED
  /\ OP.state (U.overallProgressAtom
                 [R.record "a" R.fileA 0 LocalStorage.queued None;
                  R.record "b" R.fileB 0 LocalStorage.reserving None]
                 R.readySession) = OP.ready.
Proof. vm_compute. repeat split. Qed.

(** C2, amended. The event derived from the snapshot is the one of the first
    rule of section 4.2 whose condition holds, in the order all-canceled,
    all-completed, all-non-canceled-failed, partial, uploading, preparing,
    all-ready (after the empty and the just-added rules); the rule produces
    its event only when the machine is not already in the state that event
    aims at, and no event otherwise. An event so produced either moves the
    machine to that state or, when the table does not accept it in the
    current state, leaves the state as it is. *)
Theorem C2_event_by_precedence :
  forall m : OP.Machine,
    OP.determineEventFromContext m
    = OP.first_match OP.not_at_target OP.precedence (OP.state m) (OP.context m)
    /\ match OP.determineEventFromContext m with
       | Some e =>
           OP.state m <> OP.target e
           /\ (OP.getNextOverallState (OP.state m) e = OP.target e
               \/ OP.getNextOverallState (OP.state m) e = OP.state m)
       | None => True
       end.
Proof.
  intros [s c l]. split.
  - unfold OP.determineEventFromContext, OP.not_at_target.
    destruct c; destruct s; simpl;
      repeat (case_bool_decide; simpl; try lia; try reflexivity;
              try (exfalso; intuition congruence)).
  - unfold OP.determineEventFromContext.
    destruct c; destruct s; simpl;
      repeat (case_bool_decide; simpl; try lia; try exact I;
              try (split; [discriminate | auto])).
Qed.

(** ** Overall progress *)

Lemma context_after_updateFromUploads m p :
  OP.context (OP.machine (OP.updateFromUploads m p))
  = OP.mergeContext (OP.context m) p.
Proof.
  unfold OP.updateFromUploads.
  destruct (OP.determineEventFromContext _) as [e|]; [|reflexivity].
  unfold OP.send. case_bool_decide; reflexivity.
Qed.

Lemma addProgress_contribution sum upload :
  U.addProgress sum upload = sum + U.contribution upload.
Proof.
  unfold U.addProgress, U.contribution.
  destruct (U.item_status upload); simpl; reflexivity.
Qed.

Lemma progressSum_total uploads : forall sum,
  foldl U.addProgress sum uploads = sum + U.total_contribution uploads.
Proof.
  induction uploads as [|u uploads IH]; intros sum; simpl.
  - unfold U.total_contribution. simpl. lia.
  - rewrite IH, addProgress_contribution.
    unfold U.total_contribution. simpl. lia.
Qed.



Import LocalStorage.

(** ** The registry: reading and writing [uploadsAtom] *)

Lemma uploadsAtom_read_lookup ser cache k :
  U.uploadsAtom_read ser cache !! k = U.rehydrate cache k <$> ser !! k.
Proof.
  unfold U.uploadsAtom_read. revert k.
  apply (map_fold_weak_ind
           (fun r m => forall k, r !! k = U.rehydrate cache k <$> m !! k)).
  - intros k. by rewrite !lookup_empty.
  - intros i x m r Hi IH k. destruct (decide (i = k)) as [->|Hne].
    + by rewrite !lookup_insert_eq.
    + by rewrite !lookup_insert_ne.
Qed.

Lemma uploadsAtom_write_spec (newUploads : gmap string U.UploadItem)
    (cache : gmap string File) :
  U.uploadsAtom_write newUploads cache
  = ((U.item_file <$> newUploads) ∪ cache, U.project <$> newUploads).
Proof.
  unfold U.uploadsAtom_write.
  apply (map_fold_weak_ind
           (fun r m => r = ((U.item_file <$> m) ∪ cache, U.project <$> m))).
  - by rewrite !fmap_empty, (left_id_L ∅ (∪)).
  - intros i x m r Hi ->. simpl. unfold FileCache.set.
    by rewrite !fmap_insert, insert_union_l.
Qed.

Lemma rehydrate_hit cache k item file :
  cache !! k = Some file ->
  U.rehydrate cache k item
  = U.rehydrate {[ k := file ]} k item.
Proof.
  intros H. unfold U.rehydrate, FileCache.get. rewrite H, lookup_singleton_eq.
  reflexivity.
Qed.

Lemma get_set_uploadsAtom newUploads st k :
  U.get_uploadsAtom (U.set_uploadsAtom newUploads st) !! k
  = (fun u => U.rehydrate {[ k := U.item_file u ]} k (U.project u))
      <$> newUploads !! k.
Proof.
  unfold U.get_uploadsAtom, U.set_uploadsAtom. simpl.
  rewrite uploadsAtom_read_lookup, uploadsAtom_write_spec. simpl.
  rewrite lookup_fmap.
  destruct (newUploads !! k) as [u|] eqn:Hk; simpl; [|reflexivity].
  f_equal. apply rehydrate_hit.
  apply lookup_union_Some_l. by rewrite lookup_fmap, Hk.
Qed.

Lemma values_elem_of {A} (m : gmap string A) (x : A) :
  x ∈ U.values m <-> exists k, m !! k = Some x.
Proof.
  unfold U.values. rewrite list_elem_of_fmap. split.
  - intros [[k y] [-> Hin]]. exists k. by apply elem_of_map_to_list.
  - intros [k Hk]. exists (k, x). split; [done|]. by apply elem_of_map_to_list.
Qed.

Lemma filter_length_pos {A} (P : A -> Prop) `{!forall x, Decision (P x)}
    (l : list A) :
  (0 < length (filter P l))%nat <-> exists x, x ∈ l /\ P x.
Proof.
  split.
  - intros Hlen. destruct (filter P l) as [|x l'] eqn:Hf; [simpl in Hlen; lia|].
    exists x. assert (x ∈ filter P l) as Hx by (rewrite Hf; by left).
    apply list_elem_of_filter in Hx. tauto.
  - intros [x [Hin HP]].
    assert (x ∈ filter P l) as Hx by (by apply list_elem_of_filter).
    destruct (filter P l); [inversion Hx | simpl; lia].
Qed.

(** The guard shared by [addFilesAtom] and [prepareUploadsAtom]. *)
Lemma uploadsStarted_iff (s : gmap string U.UploadItem) :
  bool_decide (0 < length (filter (fun u => U.item_status u = reserving
                                            \/ U.item_status u = uploading)
                                  (U.values s)))%nat
  || bool_decide (0 < length (filter (fun u => U.item_status u = success)
                                     (U.values s)))%nat = true
  <-> exists k u, s !! k = Some u /\ R.starts_session u.
Proof.
  rewrite orb_true_iff, !bool_decide_eq_true, !filter_length_pos.
  unfold R.starts_session. split.
  - intros [[u [Hin HP]]|[u [Hin HP]]]; apply values_elem_of in Hin as [k Hk];
      exists k, u; tauto.
  - intros (k & u & Hk & [H|[H|H]]);
      [left | left | right]; exists u; (split; [apply values_elem_of; eauto | tauto]).
Qed.

Lemma addEach_snoc mk uuid files f base :
  U.addEach mk uuid (files ++ [f]) base
  = <[uuid (length files) := mk f (uuid (length files))]>
      (U.addEach mk uuid files base).
Proof.
  unfold U.addEach. rewrite imap_app, foldl_app. simpl.
  by rewrite Nat.add_0_r.
Qed.

Lemma addEach_lookup_other mk uuid files base k :
  (forall n, (n < length files)%nat -> uuid n <> k) ->
  U.addEach mk uuid files base !! k = base !! k.
Proof.
  induction files as [|f files IH] using rev_ind; intros Hk; [reflexivity|].
  rewrite addEach_snoc, lookup_insert_ne.
  - apply IH. intros n Hn. apply Hk. rewrite length_app. simpl. lia.
  - apply Hk. rewrite length_app. simpl. lia.
Qed.

Lemma addEach_lookup_new mk uuid files base n f :
  (forall i j, (i < length files)%nat -> (j < length files)%nat ->
               uuid i = uuid j -> i = j) ->
  files !! n = Some f ->
  U.addEach mk uuid files base !! uuid n = Some (mk f (uuid n)).
Proof.
  revert n f. induction files as [|f' files IH] using rev_ind;
    intros n f Hinj Hn; [by rewrite lookup_nil in Hn|].
  rewrite addEach_snoc.
  assert (Hlen : length (files ++ [f']) = S (length files))
    by (rewrite length_app; simpl; lia).
  destruct (decide (n = length files)) as [->|Hne].
  - rewrite list_lookup_middle in Hn by reflexivity. inversion Hn; subst.
    by rewrite lookup_insert_eq.
  - assert (n < length files)%nat as Hlt.
    { apply lookup_lt_Some in Hn. rewrite Hlen in Hn. lia. }
    rewrite lookup_insert_ne.
    + apply IH.
      * intros i j Hi Hj. apply Hinj; rewrite Hlen; lia.
      * by rewrite lookup_app_l in Hn.
    + intros Heq. apply Hinj in Heq; rewrite ?Hlen; lia.
Qed.

Lemma addEach_size mk uuid files (base : gmap string U.UploadItem) :
  (forall i j, (i < length files)%nat -> (j < length files)%nat ->
               uuid i = uuid j -> i = j) ->
  (forall n, (n < length files)%nat -> base !! uuid n = None) ->
  size (U.addEach mk uuid files base) = (size base + length files)%nat.
Proof.
  induction files as [|f files IH] using rev_ind; intros Hinj Hfresh.
  - simpl. unfold U.addEach. simpl. lia.
  - assert (Hlen : length (files ++ [f]) = S (length files))
      by (rewrite length_app; simpl; lia).
    rewrite addEach_snoc, map_size_insert_None, IH, Hlen; [lia| | |].
    + intros i j Hi Hj. apply Hinj; rewrite Hlen; lia.
    + intros n Hn. apply Hfresh. rewrite Hlen. lia.
    + rewrite addEach_lookup_other.
      * apply Hfresh. rewrite Hlen. lia.
      * intros n Hn Heq. apply Hinj in Heq; rewrite ?Hlen; lia.
Qed.

Lemma keyed_insert_inv (m : gmap string U.UploadItem) i x :
  m !! i = None -> R.keyed_by_id (<[i := x]> m) ->
  U.item_id x = i /\ R.keyed_by_id m.
Proof.
  intros Hi Hk. split.
  - apply Hk. by rewrite lookup_insert_eq.
  - intros k u Hku. apply Hk. rewrite lookup_insert_ne; [done|].
    intros ->. congruence.
Qed.

Lemma get_uploadsAtom_keyed st :
  R.well_keyed st -> R.keyed_by_id (U.get_uploadsAtom st).
Proof.
  intros Hw k u. unfold U.get_uploadsAtom. rewrite uploadsAtom_read_lookup.
  destruct (U.serializableUploads st !! k) as [item|] eqn:Hk; [|discriminate].
  simpl. intros [= <-]. unfold U.rehydrate.
  destruct (FileCache.get k (U.fileCache st)); simpl; by apply Hw.
Qed.

Lemma keepUploading_lookup s k :
  R.keyed_by_id s ->
  U.keepUploading s !! k
  = match s !! k with
    | Some u => if bool_decide (U.item_status u = uploading) then Some u else None
    | None => None
    end.
Proof.
  unfold U.keepUploading. revert k.
  apply (map_fold_weak_ind
    (fun r m => forall k, R.keyed_by_id m ->
       r !! k = match m !! k with
                | Some u => if bool_decide (U.item_status u = uploading)
                            then Some u else None
                | None => None
                end)).
  - intros k _. by rewrite !lookup_empty.
  - intros i x m r Hi IH k Hkeyed.
    destruct (keyed_insert_inv _ _ _ Hi Hkeyed) as [Hid Hm].
    destruct (decide (i = k)) as [->|Hne].
    + rewrite lookup_insert_eq. case_bool_decide.
      * by rewrite Hid, lookup_insert_eq.
      * by rewrite IH, Hi.
    + rewrite (lookup_insert_ne m) by done. case_bool_decide.
      * rewrite Hid, lookup_insert_ne by done. by apply IH.
      * by apply IH.
Qed.

Lemma active_bool u :
  bool_decide (U.item_status u = uploading)
  || bool_decide (U.item_status u = reserving)
  = bool_decide (R.active u).
Proof.
  apply eq_true_iff_eq.
  rewrite orb_true_iff, !bool_decide_eq_true. reflexivity.
Qed.

Lemma abortIfPresent_elem c o log :
  c ∈ U.abortIfPresent o log <-> c ∈ log \/ o = Some c.
Proof.
  destruct o as [c'|]; simpl.
  - rewrite elem_of_app, list_elem_of_singleton.
    split; (intros [?|?]; [by left | right; congruence]).
  - split; [auto | intros [?|?]; [done|discriminate]].
Qed.

(** What the loop of [cancelAllActiveUploadsAtom] computes, for the records
    [m] already visited, from the initial copies [s0] and [ser0]. *)
Lemma cancelAll_loop_spec s0 ser0 log (m : gmap string U.UploadItem) :
  R.keyed_by_id m ->
  let r := map_fold (fun _ upload acc => U.cancelActive upload acc)
                    (U.mkLoop s0 ser0 false log) m in
  (forall k, U.loop_s r !! k
             = match m !! k with
               | Some u => if decide (R.active u) then Some (U.canceledCopy u)
                           else s0 !! k
               | None => s0 !! k
               end)
  /\ (forall k, U.loop_serializable r !! k
                = match m !! k with
                  | Some u => if decide (R.active u)
                              then U.canceledEntry <$> ser0 !! k
                              else ser0 !! k
                  | None => ser0 !! k
                  end)
  /\ (U.loop_hasChanges r = true <-> exists k u, m !! k = Some u /\ R.active u)
  /\ (forall c, c ∈ U.loop_aborted r
                <-> c ∈ log \/ exists k u, m !! k = Some u /\ R.active u
                                           /\ U.item_controller u = Some c).
Proof.
  simpl.
  apply (map_fold_weak_ind
    (fun r m => R.keyed_by_id m ->
      (forall k, U.loop_s r !! k
             = match m !! k with
               | Some u => if decide (R.active u) then Some (U.canceledCopy u)
                           else s0 !! k
               | None => s0 !! k
               end)
      /\ (forall k, U.loop_serializable r !! k
                = match m !! k with
                  | Some u => if decide (R.active u)
                              then U.canceledEntry <$> ser0 !! k
                              else ser0 !! k
                  | None => ser0 !! k
                  end)
      /\ (U.loop_hasChanges r = true <-> exists k u, m !! k = Some u /\ R.active u)
      /\ (forall c, c ∈ U.loop_aborted r
                <-> c ∈ log \/ exists k u, m !! k = Some u /\ R.active u
                                           /\ U.item_controller u = Some c))).
  - intros _. simpl. repeat split.
    + intros [=].
    + intros (k & u & Hk & _). by rewrite lookup_empty in Hk.
    + auto.
    + intros [?|(k & u & Hk & _)]; [done|]. by rewrite lookup_empty in Hk.
  - clear m. intros i x m r Hi IH Hkeyed.
    destruct (keyed_insert_inv _ _ _ Hi Hkeyed) as [Hid Hm].
    destruct (IH Hm) as (IHs & IHser & IHch & IHab). clear IH.
    unfold U.cancelActive. rewrite active_bool, Hid.
    destruct (decide (R.active x)) as [Hact|Hact].
    + rewrite bool_decide_eq_true_2 by done. simpl. repeat split.
      * intros k. destruct (decide (i = k)) as [->|Hne].
        -- rewrite !lookup_insert_eq. by rewrite decide_True.
        -- rewrite !lookup_insert_ne by done. apply IHs.
      * intros k. specialize (IHser i) as Hseri. rewrite Hi in Hseri.
        destruct (decide (i = k)) as [->|Hne].
        -- rewrite lookup_insert_eq, decide_True by done. rewrite Hseri.
           destruct (ser0 !! k); simpl; [by rewrite lookup_insert_eq|].
           by rewrite Hseri.
        -- rewrite (lookup_insert_ne m) by done. rewrite <- IHser.
           destruct (U.loop_serializable r !! i); [|done].
           by rewrite lookup_insert_ne.
      * intros _. exists i, x. by rewrite lookup_insert_eq.
      * intros Hc. apply abortIfPresent_elem in Hc as [Hc| Hc].
        -- apply IHab in Hc as [?|(k & u & Hk & Hu & Hcu)]; [by left|].
           right. exists k, u. rewrite lookup_insert_ne; [done|].
           intros ->. congruence.
        -- right. exists i, x. by rewrite lookup_insert_eq.
      * intros Hc. apply abortIfPresent_elem.
        destruct Hc as [Hc|(k & u & Hk & Hu & Hcu)].
        -- left. apply IHab. by left.
        -- destruct (decide (i = k)) as [->|Hne].
           ++ rewrite lookup_insert_eq in Hk. right. congruence.
           ++ rewrite lookup_insert_ne in Hk by done.
              left. apply IHab. right. eauto.
    + rewrite bool_decide_eq_false_2 by done. repeat split.
      * intros k. destruct (decide (i = k)) as [->|Hne].
        -- rewrite lookup_insert_eq, decide_False by done.
           by rewrite IHs, Hi.
        -- rewrite lookup_insert_ne by done. apply IHs.
      * intros k. destruct (decide (i = k)) as [->|Hne].
        -- rewrite lookup_insert_eq, decide_False by done.
           by rewrite IHser, Hi.
        -- rewrite lookup_insert_ne by done. apply IHser.
      * intros Hc. apply IHch in Hc as (k & u & Hk & Hu).
        exists k, u. rewrite lookup_insert_ne; [done|]. intros ->. congruence.
      * intros (k & u & Hk & Hu). apply IHch.
        destruct (decide (i = k)) as [->|Hne].
        -- rewrite lookup_insert_eq in Hk. by inversion Hk; subst.
        -- rewrite lookup_insert_ne in Hk by done. eauto.
      * intros Hc. apply IHab in Hc as [?|(k & u & Hk & Hu & Hcu)]; [by left|].
        right. exists k, u. rewrite lookup_insert_ne; [done|].
        intros ->. congruence.
      * intros [Hc|(k & u & Hk & Hu & Hcu)]; apply IHab; [by left|].
        destruct (decide (i = k)) as [->|Hne].
        -- rewrite lookup_insert_eq in Hk. by inversion Hk; subst.
        -- rewrite lookup_insert_ne in Hk by done. right. eauto.
Qed.

(** ** Persistence *)

Lemma rehydrate_present cache k item f :
  cache !! k = Some f ->
  U.item_file (U.rehydrate cache k item) = f
  /\ U.item_id (U.rehydrate cache k item) = s_id item
  /\ U.item_fileSize (U.rehydrate cache k item) = s_fileSize item
  /\ U.item_status (U.rehydrate cache k item) = s_status item
  /\ U.item_progress (U.rehydrate cache k item) = s_progress item
  /\ U.item_error (U.rehydrate cache k item) = s_error item
  /\ R.destination (U.rehydrate cache k item)
     = (s_remoteId item, s_uploadUrl item, s_method item)
  /\ U.item_controller (U.rehydrate cache k item) = None.
Proof.
  intros H. unfold U.rehydrate, FileCache.get. rewrite H. by repeat split.
Qed.

Lemma rehydrate_absent cache k item :
  cache !! k = None ->
  U.item_file (U.rehydrate cache k item)
  = mkFile (s_fileName item) 0 (s_fileType item) (s_fileLastModified item)
  /\ U.item_status (U.rehydrate cache k item) = error
  /\ U.item_error (U.rehydrate cache k item)
     = Some (if bool_decide (s_status item = uploading)
                || bool_decide (s_status item = reserving)
             then U.interruptedMessage else U.lostMessage)
  /\ SM.error_mentions_refresh (U.item_error (U.rehydrate cache k item)) = true
  /\ U.item_fileSize (U.rehydrate cache k item) = s_fileSize item.
Proof.
  intros H. unfold U.rehydrate, FileCache.get. rewrite H. simpl.
  repeat split. by destruct (s_status item).
Qed.

(** C5. Writing the registry and reading the projection back with a
    record's payload in the cache returns a record with the same status,
    progress and destination; the setter itself puts every payload in the
    cache, so reading right after writing always does; no record appears
    or disappears. Reading a persisted record whose payload is not in the
    cache returns it with a zero-byte file of the persisted name, type and
    date, status error and a message of the page-refresh loss, whatever
    status was persisted. *)
Theorem C5_persistence_round_trip :
  (forall (uploads : gmap string U.UploadItem) (cache0 cache : gmap string File)
          (id : string) (u : U.UploadItem),
      uploads !! id = Some u ->
      is_Some (cache !! id) ->
      exists u',
        U.uploadsAtom_read (U.uploadsAtom_write uploads cache0).2 cache !! id
        = Some u'
        /\ U.item_status u' = U.item_status u
        /\ U.item_progress u' = U.item_progress u
        /\ R.destination u' = R.destination u)
  /\ (forall (uploads : gmap string U.UploadItem) (st : U.Store)
             (id : string) (u : U.UploadItem),
        uploads !! id = Some u ->
        exists u',
          U.get_uploadsAtom (U.set_uploadsAtom uploads st) !! id = Some u'
          /\ U.item_status u' = U.item_status u
          /\ U.item_progress u' = U.item_progress u
          /\ R.destination u' = R.destination u)
  /\ (forall (uploads : gmap string U.UploadItem) (cache0 cache : gmap string File)
             (id : string),
        uploads !! id = None ->
        U.uploadsAtom_read (U.uploadsAtom_write uploads cache0).2 cache !! id
        = None)
  /\ (forall (serializable : gmap string SerializableUploadItem)
             (cache : gmap string File) (id : string)
             (item : SerializableUploadItem),
        serializable !! id = Some item ->
        cache !! id = None ->
        exists u',
          U.uploadsAtom_read serializable cache !! id = Some u'
          /\ U.item_file u'
             = mkFile (s_fileName item) 0 (s_fileType item)
                      (s_fileLastModified item)
          /\ file_size (U.item_file u') = 0
          /\ U.item_status u' = error
          /\ U.item_error u'
             = Some (if bool_decide (s_status item = uploading)
                        || bool_decide (s_status item = reserving)
                     then U.interruptedMessage else U.lostMessage)
          /\ SM.error_mentions_refresh (U.item_error u') = true).
Proof.
  repeat split.
  - intros uploads cache0 cache id u Hu [f Hf].
    rewrite uploadsAtom_read_lookup, uploadsAtom_write_spec. simpl.
    rewrite lookup_fmap, Hu. simpl. eexists. split; [reflexivity|].
    destruct (rehydrate_present cache id (U.project u) f Hf)
      as (_ & _ & _ & Hs & Hp & _ & Hd & _).
    by rewrite Hs, Hp, Hd.
  - intros uploads st id u Hu.
    rewrite get_set_uploadsAtom, Hu. simpl. eexists. split; [reflexivity|].
    destruct (rehydrate_present {[ id := U.item_file u ]} id (U.project u)
                (U.item_file u) (lookup_singleton_eq _ _))
      as (_ & _ & _ & Hs & Hp & _ & Hd & _).
    by rewrite Hs, Hp, Hd.
  - intros uploads cache0 cache id Hu.
    rewrite uploadsAtom_read_lookup, uploadsAtom_write_spec. simpl.
    by rewrite lookup_fmap, Hu.
  - intros serializable cache id item Hi Hc.
    rewrite uploadsAtom_read_lookup, Hi. simpl. eexists. split; [reflexivity|].
    destruct (rehydrate_absent cache id item Hc) as (Hf & Hs & He & Hm & _).
    rewrite Hf, Hs, He. repeat split. by rewrite <- He.
Qed.

Lemma C5_persistence_round_trip_witness :
  (R.batchRecords !! "a" = Some (R.record "a" R.fileA 40 uploading (Some 1%nat))
   /\ is_Some (U.fileCache R.batchStore !! "a")
   /\ exists u',
        U.uploadsAtom_read (U.uploadsAtom_write R.batchRecords ∅).2
                           (U.fileCache R.batchStore) !! "a" = Some u'
        /\ U.item_status u' = uploading)
  /\ (U.serializableUploads R.restartedStore !! "a"
        = Some (R.entry "a" R.fileA 0 queued)
      /\ U.fileCache R.restartedStore !! "a" = None
      /\ exists u',
           U.uploadsAtom_read (U.serializableUploads R.restartedStore)
                              (U.fileCache R.restartedStore) !! "a" = Some u'
           /\ U.item_status u' = error).
Proof.
  split.
  - assert (H1 : R.batchRecords !! "a"
                 = Some (R.record "a" R.fileA 40 uploading (Some 1%nat)))
      by reflexivity.
    assert (H2 : is_Some (U.fileCache R.batchStore !! "a"))
      by (exists R.fileA; reflexivity).
    split; [exact H1|]. split; [exact H2|].
    destruct (proj1 C5_persistence_round_trip R.batchRecords ∅
                (U.fileCache R.batchStore) "a" _ H1 H2) as (u' & Hr & Hs & _).
    exists u'. split; [exact Hr | exact Hs].
  - assert (H1 : U.serializableUploads R.restartedStore !! "a"
                 = Some (R.entry "a" R.fileA 0 queued)) by reflexivity.
    assert (H2 : U.fileCache R.restartedStore !! "a" = None) by reflexivity.
    split; [exact H1|]. split; [exact H2|].
    destruct (proj2 (proj2 (proj2 C5_persistence_round_trip)) _ _ "a" _ H1 H2)
      as (u' & Hr & _ & _ & Hs & _).
    exists u'. split; [exact Hr | exact Hs].
Defined.

(** ** Adding files *)

(** A queued record survives the write and the read back unchanged: its
    machine is the one the getter replays for the status queued. *)
Lemma reread_queuedItem f id :
  U.rehydrate {[ id := f ]} id (U.project (U.queuedItem f id))
  = U.queuedItem f id.
Proof.
  unfold U.rehydrate, FileCache.get. rewrite lookup_singleton_eq. reflexivity.
Qed.

Lemma get_uploadsAtom_size_after_set newUploads st :
  size (U.get_uploadsAtom (U.set_uploadsAtom newUploads st)) = size newUploads.
Proof.
  rewrite <- !size_dom. f_equal. apply set_eq. intros k.
  rewrite !elem_of_dom, get_set_uploadsAtom.
  destruct (newUploads !! k); simpl; split; intros [? ?]; eauto; discriminate.
Qed.

(** C6. When some transfer is reserving, uploading or in success,
    [addFilesAtom] and the add step of [prepareUploadsAtom] leave the store
    as it is: no record is added, changed or removed. Otherwise
    [addFilesAtom] creates, for each file, under the id the generator
    returned for it, one record in the queued state at progress 0 holding
    that file, and the registry grows by exactly the number of files, the
    generated ids being pairwise distinct and not in use. *)
Theorem C6_addFiles_frozen_once_started :
  (forall (randomUUID : nat -> string) (files : list File) (st : U.Store),
      (exists k u, U.get_uploadsAtom st !! k = Some u /\ R.starts_session u) ->
      U.addFilesAtom randomUUID files st = st
      /\ U.prepareUploadsAtom_add randomUUID files st = (st, []))
  /\ (forall (randomUUID : nat -> string) (files : list File) (st : U.Store),
        (forall k u, U.get_uploadsAtom st !! k = Some u -> ~ R.starts_session u) ->
        (forall i j, (i < length files)%nat -> (j < length files)%nat ->
                     randomUUID i = randomUUID j -> i = j) ->
        (forall n, (n < length files)%nat ->
                   U.get_uploadsAtom st !! randomUUID n = None) ->
        (forall n file,
            files !! n = Some file ->
            U.get_uploadsAtom (U.addFilesAtom randomUUID files st)
              !! randomUUID n
            = Some (U.queuedItem file (randomUUID n))
            /\ U.item_status (U.queuedItem file (randomUUID n)) = queued
            /\ U.item_id (U.queuedItem file (randomUUID n)) = randomUUID n
            /\ U.item_file (U.queuedItem file (randomUUID n)) = file
            /\ U.item_progress (U.queuedItem file (randomUUID n)) = 0)
        /\ size (U.get_uploadsAtom (U.addFilesAtom randomUUID files st))
           = (size (U.get_uploadsAtom st) + length files)%nat).
Proof.
  split.
  - intros randomUUID files st Hstarted.
    apply uploadsStarted_iff in Hstarted.
    unfold U.addFilesAtom, U.prepareUploadsAtom_add.
    rewrite Hstarted. split; [reflexivity|].
    by destruct (bool_decide (length files = 0%nat)).
  - intros randomUUID files st Hnot Hinj Hfresh.
    assert (Hguard :
      bool_decide (0 < length (filter (fun u => U.item_status u = reserving
                                                \/ U.item_status u = uploading)
                                      (U.values (U.get_uploadsAtom st))))%nat
      || bool_decide (0 < length (filter (fun u => U.item_status u = success)
                                         (U.values (U.get_uploadsAtom st))))%nat
      = false).
    { apply not_true_is_false. intros H. apply uploadsStarted_iff in H.
      destruct H as (k & u & Hk & Hu). exact (Hnot k u Hk Hu). }
    unfold U.addFilesAtom. rewrite Hguard. split.
    + intros n file Hn. split; [|by repeat split].
      rewrite get_set_uploadsAtom.
      rewrite (addEach_lookup_new _ _ _ _ n file Hinj Hn). simpl.
      f_equal. apply reread_queuedItem.
    + rewrite get_uploadsAtom_size_after_set. by apply addEach_size.
Qed.

(** The add step of [prepareUploadsAtom], when it is not rejected, creates
    its records in reserving, their machines having passed through queued. *)
Lemma prepareUploadsAtom_add_creates_reserving
    (randomUUID : nat -> string) (files : list File) (st : U.Store) n file :
  (forall k u, U.get_uploadsAtom st !! k = Some u -> ~ R.starts_session u) ->
  (forall i j, (i < length files)%nat -> (j < length files)%nat ->
               randomUUID i = randomUUID j -> i = j) ->
  files !! n = Some file ->
  U.get_uploadsAtom (U.prepareUploadsAtom_add randomUUID files st).1
    !! randomUUID n
  = Some (U.reservingItem file (randomUUID n))
  /\ U.item_status (U.reservingItem file (randomUUID n)) = reserving
  /\ (SM.state <$> U.item_stateMachine (U.reservingItem file (randomUUID n)))
     = Some SM.reserving.
Proof.
  intros Hnot Hinj Hn. split; [|by split].
  unfold U.prepareUploadsAtom_add.
  rewrite bool_decide_eq_false_2
    by (intros Hlen; apply lookup_lt_Some in Hn; lia).
  assert (Hguard :
    bool_decide (0 < length (filter (fun u => U.item_status u = reserving
                                              \/ U.item_status u = uploading)
                                    (U.values (U.get_uploadsAtom st))))%nat
    || bool_decide (0 < length (filter (fun u => U.item_status u = success)
                                       (U.values (U.get_uploadsAtom st))))%nat
    = false).
  { apply not_true_is_false. intros H. apply uploadsStarted_iff in H.
    destruct H as (k & u & Hk & Hu). exact (Hnot k u Hk Hu). }
  rewrite Hguard. simpl.
  rewrite get_set_uploadsAtom.
  rewrite (addEach_lookup_new _ _ _ _ n file Hinj Hn). simpl.
  f_equal. unfold U.rehydrate, FileCache.get.
  rewrite lookup_singleton_eq. reflexivity.
Qed.

Lemma C6_addFiles_witness :
  ((exists k u, U.get_uploadsAtom R.batchStore !! k = Some u
                /\ R.starts_session u)
   /\ U.addFilesAtom R.sampleUUID [R.fileA] R.batchStore = R.batchStore)
  /\ size (U.get_uploadsAtom
             (U.addFilesAtom R.sampleUUID [R.fileA; R.fileB] U.emptyStore))
     = 2%nat.
Proof.
  split.
  - assert (H : exists k u, U.get_uploadsAtom R.batchStore !! k = Some u
                            /\ R.starts_session u).
    { exists "a", (U.rehydrate (U.fileCache R.batchStore) "a"
                     (R.entry "a" R.fileA 40 uploading)).
      split; [reflexivity | right; left; reflexivity]. }
    split; [exact H|].
    exact (proj1 (proj1 C6_addFiles_frozen_once_started
                    R.sampleUUID [R.fileA] R.batchStore H)).
  - assert (H1 : forall k u, U.get_uploadsAtom U.emptyStore !! k = Some u ->
                             ~ R.starts_session u).
    { intros k u. unfold U.get_uploadsAtom.
      rewrite uploadsAtom_read_lookup. simpl. rewrite lookup_empty.
      discriminate. }
    assert (H2 : forall i j, (i < length [R.fileA; R.fileB])%nat ->
                             (j < length [R.fileA; R.fileB])%nat ->
                             R.sampleUUID i = R.sampleUUID j -> i = j).
    { intros [|[|i]] [|[|j]]; simpl; intros; (lia || discriminate). }
    assert (H3 : forall n, (n < length [R.fileA; R.fileB])%nat ->
                           U.get_uploadsAtom U.emptyStore !! R.sampleUUID n = None).
    { intros n _. unfold U.get_uploadsAtom.
      rewrite uploadsAtom_read_lookup. simpl. by rewrite lookup_empty. }
    exact (proj2 (proj2 C6_addFiles_frozen_once_started
                    R.sampleUUID [R.fileA; R.fileB] U.emptyStore H1 H2 H3)).
Defined.

(** ** Cancelling *)

Lemma get_uploadsAtom_lookup st k :
  U.get_uploadsAtom st !! k
  = U.rehydrate (U.fileCache st) k <$> U.serializableUploads st !! k.
Proof. apply uploadsAtom_read_lookup. Qed.

Lemma rehydrate_same_payload cache cache' k item f :
  cache !! k = Some f -> cache' !! k = Some f ->
  U.rehydrate cache' k item = U.rehydrate cache k item.
Proof.
  intros H H'. by rewrite (rehydrate_hit _ _ _ _ H), (rehydrate_hit _ _ _ _ H').
Qed.

Lemma canceledCopy_fields u :
  U.item_status (U.canceledCopy u) = canceled
  /\ U.item_controller (U.canceledCopy u) = None
  /\ U.item_id (U.canceledCopy u) = U.item_id u
  /\ U.item_file (U.canceledCopy u) = U.item_file u
  /\ U.item_fileSize (U.canceledCopy u) = U.item_fileSize u
  /\ U.item_progress (U.canceledCopy u) = U.item_progress u
  /\ U.item_error (U.canceledCopy u) = U.item_error u
  /\ R.destination (U.canceledCopy u) = R.destination u.
Proof. by repeat split. Qed.

(** The atom on a store whose payloads are all cached. *)
Lemma cancelAllActiveUploadsAtom_lookup st k :
  R.well_keyed st -> R.payloads_present st ->
  U.get_uploadsAtom (U.cancelAllActiveUploadsAtom st) !! k
  = match U.serializableUploads st !! k with
    | Some item =>
        if decide (R.active (U.rehydrate (U.fileCache st) k item))
        then Some (U.rehydrate (U.fileCache st) k (U.canceledEntry item))
        else Some (U.rehydrate (U.fileCache st) k item)
    | None => None
    end.
Proof.
  intros Hw Hp.
  pose proof (get_uploadsAtom_keyed st Hw) as Hkeyed.
  destruct (cancelAll_loop_spec (U.get_uploadsAtom st)
              (U.serializableUploads st) (U.aborted st)
              (U.get_uploadsAtom st) Hkeyed) as (Hs & Hser & Hch & _).
  unfold U.cancelAllActiveUploadsAtom, U.cancelAllActive_forEach.
  set (r := map_fold _ _ _) in *.
  destruct (U.loop_hasChanges r) eqn:Hchanged.
  - rewrite get_uploadsAtom_lookup. simpl.
    rewrite uploadsAtom_write_spec. simpl.
    rewrite Hser, get_uploadsAtom_lookup.
    destruct (U.serializableUploads st !! k) as [item|] eqn:Hk; simpl;
      [|reflexivity].
    destruct (Hp k item Hk) as [f Hf].
    assert (Hc : ((U.item_file <$> U.loop_s r) ∪ U.fileCache st) !! k = Some f).
    { apply lookup_union_Some_l. rewrite lookup_fmap, Hs.
      rewrite get_uploadsAtom_lookup, Hk. simpl.
      destruct (rehydrate_present _ k item f Hf) as (Hfile & _).
      destruct (decide _); simpl; by rewrite Hfile. }
    destruct (decide _); simpl; f_equal;
      by apply (rehydrate_same_payload _ _ _ _ f).
  - rewrite get_uploadsAtom_lookup. simpl.
    destruct (U.serializableUploads st !! k) as [item|] eqn:Hk; simpl;
      [|reflexivity].
    destruct (decide _) as [Hact|]; [|reflexivity].
    exfalso. assert (false = true) as Heq; [|discriminate].
    apply Hch. exists k, (U.rehydrate (U.fileCache st) k item).
    split; [|done]. by rewrite get_uploadsAtom_lookup, Hk.
Qed.

(** The store after [cancelAllActiveUploadsAtom], payloads cached: a
    transfer that was uploading or reserving reads as canceled, with its
    other fields as they were; every other transfer reads as before. *)
Lemma cancelAllActiveUploadsAtom_changes_exactly_active st :
  R.well_keyed st -> R.payloads_present st ->
  (forall k u, U.get_uploadsAtom st !! k = Some u -> R.active u ->
      exists u',
        U.get_uploadsAtom (U.cancelAllActiveUploadsAtom st) !! k = Some u'
        /\ U.item_status u' = canceled
        /\ U.item_id u' = U.item_id u
        /\ U.item_file u' = U.item_file u
        /\ U.item_fileSize u' = U.item_fileSize u
        /\ U.item_progress u' = U.item_progress u
        /\ U.item_error u' = U.item_error u
        /\ R.destination u' = R.destination u)
  /\ (forall k u, U.get_uploadsAtom st !! k = Some u -> ~ R.active u ->
        U.get_uploadsAtom (U.cancelAllActiveUploadsAtom st) !! k = Some u)
  /\ (forall k, U.get_uploadsAtom st !! k = None ->
        U.get_uploadsAtom (U.cancelAllActiveUploadsAtom st) !! k = None).
Proof.
  intros Hw Hp. split; [|split].
  - intros k u Hu Hact.
    rewrite cancelAllActiveUploadsAtom_lookup by done.
    rewrite get_uploadsAtom_lookup in Hu.
    destruct (U.serializableUploads st !! k) as [item|] eqn:Hk;
      [|discriminate].
    simpl in Hu. injection Hu as <-. rewrite decide_True by done.
    eexists. split; [reflexivity|].
    destruct (Hp k item Hk) as [f Hf].
    destruct (rehydrate_present _ k item f Hf)
      as (H1 & H2 & H3 & H4 & H5 & H6 & H7 & H8).
    destruct (rehydrate_present _ k (U.canceledEntry item) f Hf)
      as (H1' & H2' & H3' & H4' & H5' & H6' & H7' & H8').
    rewrite H1, H2, H3, H5, H6, H7, H1', H2', H3', H4', H5', H6', H7'.
    by repeat split.
  - intros k u Hu Hact.
    rewrite cancelAllActiveUploadsAtom_lookup by done.
    rewrite get_uploadsAtom_lookup in Hu.
    destruct (U.serializableUploads st !! k) as [item|] eqn:Hk;
      [|discriminate].
    simpl in Hu. injection Hu as <-. by rewrite decide_False.
  - intros k Hk.
    rewrite cancelAllActiveUploadsAtom_lookup by done.
    rewrite get_uploadsAtom_lookup in Hk.
    by destruct (U.serializableUploads st !! k).
Qed.

(** *** The cancellation tokens *)

(** A record read from the registry carries no controller: the setter does
    not keep it. *)
Lemma registry_record_has_no_controller st k u :
  U.get_uploadsAtom st !! k = Some u -> U.item_controller u = None.
Proof.
  rewrite get_uploadsAtom_lookup.
  destruct (U.serializableUploads st !! k) as [item|]; [|discriminate].
  simpl. intros [= <-]. unfold U.rehydrate.
  by destruct (FileCache.get k (U.fileCache st)).
Qed.

(** On records without a controller the loop aborts nothing. *)
Lemma cancelAll_loop_no_controller s0 ser0 log (m : gmap string U.UploadItem) :
  (forall k u, m !! k = Some u -> U.item_controller u = None) ->
  U.loop_aborted (map_fold (fun _ upload acc => U.cancelActive upload acc)
                           (U.mkLoop s0 ser0 false log) m) = log.
Proof.
  apply (map_fold_weak_ind
    (fun r m => (forall k u, m !! k = Some u -> U.item_controller u = None) ->
                U.loop_aborted r = log)).
  - done.
  - intros i x m' r Hi IH H. unfold U.cancelActive.
    assert (Hx : U.item_controller x = None)
      by (apply (H i); by rewrite lookup_insert_eq).
    assert (IH' : U.loop_aborted r = log).
    { apply IH. intros k u Hk. apply (H k). rewrite lookup_insert_ne; [done|].
      intros ->. congruence. }
    destruct (_ || _); simpl; [|done]. by rewrite Hx.
Qed.

Lemma updateUploadAtom_aborted st id updates :
  U.aborted (U.updateUploadAtom id updates st) = U.aborted st.
Proof.
  unfold U.updateUploadAtom. by destruct (U.get_uploadsAtom st !! id).
Qed.

Lemma cancelAllActiveUploadsAtom_aborted st :
  U.aborted (U.cancelAllActiveUploadsAtom st) = U.aborted st.
Proof.
  unfold U.cancelAllActiveUploadsAtom, U.cancelAllActive_forEach.
  pose proof (cancelAll_loop_no_controller (U.get_uploadsAtom st)
                (U.serializableUploads st) (U.aborted st)
                (U.get_uploadsAtom st)
                (registry_record_has_no_controller st)) as H.
  destruct (U.loop_hasChanges _); simpl; exact H.
Qed.

(** With no transfer uploading or reserving, as after a restart, the atom
    leaves the store as it is. *)
Lemma cancelAll_loop_none_active s0 ser0 log (m : gmap string U.UploadItem) :
  (forall k u, m !! k = Some u -> ~ R.active u) ->
  map_fold (fun _ upload acc => U.cancelActive upload acc)
           (U.mkLoop s0 ser0 false log) m
  = U.mkLoop s0 ser0 false log.
Proof.
  apply (map_fold_weak_ind
    (fun r m => (forall k u, m !! k = Some u -> ~ R.active u) ->
                r = U.mkLoop s0 ser0 false log)).
  - done.
  - intros i x m' r Hi IH H. unfold U.cancelActive.
    rewrite active_bool, bool_decide_eq_false_2
      by (apply (H i); by rewrite lookup_insert_eq).
    apply IH. intros k u Hk. apply (H k). rewrite lookup_insert_ne; [done|].
    intros ->. congruence.
Qed.

Lemma cancelAllActiveUploadsAtom_none_active st :
  (forall k u, U.get_uploadsAtom st !! k = Some u -> ~ R.active u) ->
  U.cancelAllActiveUploadsAtom st = st.
Proof.
  intros H. unfold U.cancelAllActiveUploadsAtom, U.cancelAllActive_forEach.
  rewrite (cancelAll_loop_none_active _ _ _ _ H). simpl. by destruct st.
Qed.

(** C8, at the failing input. The batch of the specification: "a" is
    uploading and "b" reserving, their cancellation tokens 1 and 2 were
    handed to [updateUploadAtom], and "c" is in success. After
    [cancelAllActiveUploadsAtom] "a" and "b" read as canceled and "c" reads
    as before, but no token was aborted: the log of aborted tokens is empty.
    The loop of the atom does abort both tokens when it runs over records
    that hold them, but the registry never shows such a record, for any
    store: the setter of [uploadsAtom] does not keep the controller, so the
    atom aborts nothing, whatever the store. The transfer of "a" was not
    interrupted; when it completes, "a" reads as success. *)
Theorem C8_cancelAll_aborts_no_token :
  (U.item_status <$> U.get_uploadsAtom R.tokenStore !! "a" = Some uploading
   /\ U.item_status <$> U.get_uploadsAtom R.tokenStore !! "b" = Some reserving
   /\ U.item_status <$> U.get_uploadsAtom R.tokenStore !! "c" = Some success)
  /\ (U.item_status
        <$> U.get_uploadsAtom (U.cancelAllActiveUploadsAtom R.tokenStore) !! "a"
      = Some canceled
      /\ U.item_status
           <$> U.get_uploadsAtom (U.cancelAllActiveUploadsAtom R.tokenStore) !! "b"
         = Some canceled
      /\ U.get_uploadsAtom (U.cancelAllActiveUploadsAtom R.tokenStore) !! "c"
         = U.get_uploadsAtom R.tokenStore !! "c")
  /\ U.aborted R.tokenStore = []
  /\ U.aborted (U.cancelAllActiveUploadsAtom R.tokenStore) = []
  /\ (1%nat ∈ U.loop_aborted (U.cancelAllActive_forEach R.batchRecords ∅ [])
      /\ 2%nat ∈ U.loop_aborted (U.cancelAllActive_forEach R.batchRecords ∅ []))
  /\ (forall (st : U.Store) (k : string),
        U.get_uploadsAtom st !! k ≫= U.item_controller = None)
  /\ (forall st : U.Store,
        U.aborted (U.cancelAllActiveUploadsAtom st) = U.aborted st)
  /\ U.item_status
       <$> U.get_uploadsAtom
             (U.uploadSucceeded (R.record "a" R.fileA 40 uploading None)
                (U.cancelAllActiveUploadsAtom R.tokenStore)) !! "a"
     = Some success.
Proof.
  split; [by vm_compute|]. split; [by vm_compute|].
  split; [reflexivity|].
  split; [by rewrite cancelAllActiveUploadsAtom_aborted|].
  split.
  - assert (Hk : R.keyed_by_id R.batchRecords).
    { apply (bool_decide_unpack
               (map_Forall (fun k u => U.item_id u = k) R.batchRecords)).
      vm_compute. exact I. }
    destruct (cancelAll_loop_spec R.batchRecords ∅ [] R.batchRecords Hk)
      as (_ & _ & _ & Hab).
    split; apply Hab; right.
    + exists "a", (R.record "a" R.fileA 40 uploading (Some 1%nat)).
      split; [reflexivity|]. split; [by left | reflexivity].
    + exists "b", (R.record "b" R.fileB 0 reserving (Some 2%nat)).
      split; [reflexivity|]. split; [by right | reflexivity].
  - split; [|split].
    + intros st k.
      destruct (U.get_uploadsAtom st !! k) as [u|] eqn:Hu; [|reflexivity].
      simpl. by apply (registry_record_has_no_controller st k).
    + apply cancelAllActiveUploadsAtom_aborted.
    + by vm_compute.
Qed.

Lemma cancelUploadAtom_lookup st id upload :
  U.get_uploadsAtom st !! id = Some upload ->
  U.get_uploadsAtom (U.cancelUploadAtom id st) !! id
  = Some (U.rehydrate {[ id := U.item_file upload ]} id
            (U.canceledEntry (U.project (U.canceledCopy upload))))
  /\ U.aborted (U.cancelUploadAtom id st)
     = U.abortIfPresent (U.item_controller upload) (U.aborted st).
Proof.
  intros Hu. unfold U.cancelUploadAtom. rewrite Hu.
  unfold U.set_uploadsAtom. simpl.
  rewrite !uploadsAtom_write_spec. simpl.
  rewrite lookup_fmap, lookup_insert_eq. simpl. split; [|reflexivity].
  rewrite get_uploadsAtom_lookup. simpl.
  rewrite lookup_insert_eq. simpl. f_equal.
  apply rehydrate_hit. apply lookup_union_Some_l.
  by rewrite lookup_fmap, lookup_insert_eq.
Qed.

(** C10. [cancelUploadAtom] does not look at the status: for any record in
    the registry, whatever its status, the registry afterwards holds under
    the same id a record with status canceled and no controller, with the
    same id, file, progress, error and destination; for an id the registry
    does not hold, the store is left as it is. *)
Theorem C10_cancel_is_unguarded :
  (forall (st : U.Store) (id : string) (u : U.UploadItem),
      U.get_uploadsAtom st !! id = Some u ->
      exists u',
        U.get_uploadsAtom (U.cancelUploadAtom id st) !! id = Some u'
        /\ U.item_status u' = canceled
        /\ U.item_controller u' = None
        /\ U.item_id u' = U.item_id u
        /\ U.item_file u' = U.item_file u
        /\ U.item_progress u' = U.item_progress u
        /\ U.item_error u' = U.item_error u
        /\ R.destination u' = R.destination u)
  /\ (forall (st : U.Store) (id : string),
        U.get_uploadsAtom st !! id = None -> U.cancelUploadAtom id st = st).
Proof.
  split.
  - intros st id u Hu.
    destruct (cancelUploadAtom_lookup st id u Hu) as [-> _].
    eexists. split; [reflexivity|].
    destruct (rehydrate_present {[ id := U.item_file u ]} id
                (U.canceledEntry (U.project (U.canceledCopy u)))
                (U.item_file u) (lookup_singleton_eq _ _))
      as (H1 & H2 & H3 & H4 & H5 & H6 & H7 & H8).
    rewrite H1, H2, H4, H5, H6, H7, H8. by repeat split.
  - intros st id Hn. unfold U.cancelUploadAtom. by rewrite Hn.
Qed.

Lemma C10_cancel_witness :
  (U.get_uploadsAtom R.doneStore !! "c"
     = Some (U.rehydrate (U.fileCache R.doneStore) "c"
               (R.entry "c" R.fileC 100 success))
   /\ exists u',
        U.get_uploadsAtom (U.cancelUploadAtom "c" R.doneStore) !! "c" = Some u'
        /\ U.item_status u' = canceled)
  /\ (U.get_uploadsAtom R.doneStore !! "zz" = None
      /\ U.cancelUploadAtom "zz" R.doneStore = R.doneStore).
Proof.
  split.
  - split; [reflexivity|].
    destruct (proj1 C10_cancel_is_unguarded R.doneStore "c" _ eq_refl)
      as (u' & Hu' & Hs & _).
    exists u'. split; [exact Hu' | exact Hs].
  - split; [reflexivity|].
    exact (proj2 C10_cancel_is_unguarded R.doneStore "zz" eq_refl).
Defined.

(** ** Clearing *)

Lemma clearRemovableUploadsAtom_lookup st k :
  R.well_keyed st ->
  U.get_uploadsAtom (U.clearRemovableUploadsAtom st) !! k
  = match U.get_uploadsAtom st !! k with
    | Some u =>
        if bool_decide (U.item_status u = uploading)
        then Some (U.rehydrate {[ k := U.item_file u ]} k (U.project u))
        else None
    | None => None
    end.
Proof.
  intros Hw. unfold U.clearRemovableUploadsAtom.
  rewrite get_set_uploadsAtom, keepUploading_lookup
    by (by apply get_uploadsAtom_keyed).
  destruct (U.get_uploadsAtom st !! k) as [u|]; [|reflexivity].
  by case_bool_decide.
Qed.

(** [clearRemovableUploadsAtom] deletes nothing from the file cache. *)
Lemma clearRemovableUploadsAtom_keeps_cache st k :
  is_Some (U.fileCache st !! k) ->
  is_Some (U.fileCache (U.clearRemovableUploadsAtom st) !! k).
Proof.
  intros [f Hf]. unfold U.clearRemovableUploadsAtom, U.set_uploadsAtom. simpl.
  rewrite uploadsAtom_write_spec. simpl.
  destruct ((U.item_file <$> U.keepUploading (U.get_uploadsAtom st)) !! k)
    as [g|] eqn:Hg.
  - exists g. by apply lookup_union_Some_l.
  - exists f. rewrite lookup_union_r; done.
Qed.

(** The sibling [removeUploadAtom] does evict the payload of the record it
    removes. *)
Lemma removeUploadAtom_evicts st id :
  is_Some (U.get_uploadsAtom st !! id) ->
  U.fileCache (U.removeUploadAtom id st) !! id = None
  /\ U.get_uploadsAtom (U.removeUploadAtom id st) !! id = None.
Proof.
  intros [u Hu]. unfold U.removeUploadAtom. rewrite Hu.
  unfold U.set_uploadsAtom, U.set_serializableUploadsAtom. simpl.
  rewrite !uploadsAtom_write_spec. simpl. split.
  - apply lookup_union_None. split.
    + by rewrite lookup_fmap, lookup_delete_eq.
    + unfold FileCache.delete. by rewrite lookup_delete_eq.
  - rewrite get_uploadsAtom_lookup. simpl. by rewrite lookup_delete_eq.
Qed.

(** C9, at the failing input. With one uploading, one reserving and one
    success transfer, all cached, [clearRemovableUploadsAtom] retains the
    uploading transfer and removes the other two from the registry, but
    their payloads are still in the file cache afterwards; removing the
    success transfer with [removeUploadAtom] does evict its payload. *)
Theorem C9_clearRemovable_leaves_payloads_cached :
  U.item_status <$> U.get_uploadsAtom (U.clearRemovableUploadsAtom R.batchStore) !! "a"
  = Some uploading
  /\ U.get_uploadsAtom (U.clearRemovableUploadsAtom R.batchStore) !! "b" = None
  /\ U.get_uploadsAtom (U.clearRemovableUploadsAtom R.batchStore) !! "c" = None
  /\ U.fileCache (U.clearRemovableUploadsAtom R.batchStore) !! "b" = Some R.fileB
  /\ U.fileCache (U.clearRemovableUploadsAtom R.batchStore) !! "c" = Some R.fileC
  /\ U.fileCache (U.removeUploadAtom "c" R.batchStore) !! "c" = None.
Proof. vm_compute. repeat split. Qed.

(** ** Retrying *)

Lemma send_keeps_file m e p :
  SM.p_file p = None ->
  SM.ctx_file (SM.context (SM.send_ e (Some p) m)) = SM.ctx_file (SM.context m).
Proof.
  intros Hf. unfold SM.send_, SM.send.
  rewrite andb_false_r. simpl. by rewrite Hf.
Qed.

Lemma send_keeps_fileSize m e p :
  SM.p_fileSize p = None ->
  SM.ctx_fileSize (SM.context (SM.send_ e (Some p) m))
  = SM.ctx_fileSize (SM.context m).
Proof.
  intros Hs. unfold SM.send_, SM.send.
  rewrite andb_false_r. simpl. by rewrite Hs.
Qed.

Lemma send_no_payload_keeps_context m e :
  SM.context (SM.send_ e None m) = SM.context m.
Proof.
  unfold SM.send_, SM.send. by destruct (_ && _).
Qed.

(** The machine the getter builds has the size of the file it was created
    from as its [fileSize], whatever is replayed: the two never differ. *)
Lemma rehydrate_machine_sizes cache k item :
  exists m,
    U.item_stateMachine (U.rehydrate cache k item) = Some m
    /\ SM.ctx_fileSize (SM.context m) = file_size (SM.ctx_file (SM.context m)).
Proof.
  unfold U.rehydrate.
  destruct (FileCache.get k cache) as [file|]; simpl;
    eexists; (split; [reflexivity|]).
  - unfold U.replayStatus. destruct (s_status item);
      repeat first
        [ rewrite send_no_payload_keeps_context
        | rewrite send_keeps_file by reflexivity
        | rewrite send_keeps_fileSize by reflexivity ];
      reflexivity.
  - rewrite send_keeps_file, send_keeps_fileSize by reflexivity.
    rewrite !send_no_payload_keeps_context. reflexivity.
Qed.

(** No record read from the registry is a placeholder for
    [isPlaceholderFile]. *)
Lemma registry_record_never_placeholder st k u :
  U.get_uploadsAtom st !! k = Some u -> U.isPlaceholderFile u = false.
Proof.
  rewrite get_uploadsAtom_lookup.
  destruct (U.serializableUploads st !! k) as [item|]; [|discriminate].
  simpl. intros [= <-].
  destruct (rehydrate_machine_sizes (U.fileCache st) k item) as (m & Hm & Hsz).
  unfold U.isPlaceholderFile. rewrite Hm.
  unfold SM.isPlaceholderState, SM.getContext. rewrite Hsz.
  repeat case_bool_decide; simpl; try reflexivity; lia.
Qed.

(** Hence [retryUploadAtom] never takes its refusal branch. *)
Lemma retry_never_refuses st id :
  match U.retryUploadAtom id st with
  | U.RetryRefused _ => False
  | _ => True
  end.
Proof.
  unfold U.retryUploadAtom.
  destruct (U.get_uploadsAtom st !! id) as [u|] eqn:Hu; [|exact I].
  destruct (negb _); [exact I|].
  by rewrite (registry_record_never_placeholder st id u Hu).
Qed.

(** C7, at the failing input. After a restart the registry shows the
    persisted transfer as a placeholder in the specification's sense: status
    error, a live payload of size 0, a recorded size of 1000 and the
    page-refresh message. [isPlaceholderFile] answers [false] for it, and
    [retryUploadAtom] resets it to ready at progress 0 with no error and
    goes on to transmit, instead of refusing with the fixed message. *)
Theorem C7_retry_resets_a_placeholder :
  U.get_uploadsAtom R.restartedStore !! "a" = Some R.lostRecord
  /\ R.placeholder_record R.lostRecord
  /\ U.isPlaceholderFile R.lostRecord = false
  /\ U.retryUploadAtom "a" R.restartedStore
     = U.RetryTransmit (U.updateUploadAtom "a" U.resetUpdate R.restartedStore)
                       R.lostRecord
  /\ U.item_status
       <$> U.get_uploadsAtom (U.retryStore (U.retryUploadAtom "a" R.restartedStore))
             !! "a"
     = Some ready
  /\ U.item_error
       <$> U.get_uploadsAtom (U.retryStore (U.retryUploadAtom "a" R.restartedStore))
             !! "a"
     = Some None
  /\ U.item_progress
       <$> U.get_uploadsAtom (U.retryStore (U.retryUploadAtom "a" R.restartedStore))
             !! "a"
     = Some 0.
Proof.
  split; [reflexivity|]. split; [by vm_compute|].
  split; [reflexivity|]. split; [reflexivity|].
  vm_compute. repeat split.
Qed.

(** The guard of [retryUploadAtom] and its reset, for the record. *)
Lemma retry_guard st id :
  (U.get_uploadsAtom st !! id = None
   \/ exists u, U.get_uploadsAtom st !! id = Some u /\ U.item_status u <> error) ->
  U.retryUploadAtom id st = U.RetryIgnored st.
Proof.
  unfold U.retryUploadAtom. intros [->|(u & -> & Hs)]; [reflexivity|].
  by rewrite bool_decide_eq_false_2.
Qed.

Lemma retry_of_error_record_resets st id u :
  U.get_uploadsAtom st !! id = Some u -> U.item_status u = error ->
  U.retryUploadAtom id st
  = U.RetryTransmit (U.updateUploadAtom id U.resetUpdate st) u
  /\ exists u',
       U.get_uploadsAtom (U.updateUploadAtom id U.resetUpdate st) !! id = Some u'
       /\ U.item_status u' = ready /\ U.item_progress u' = 0
       /\ U.item_error u' = None /\ U.item_controller u' = None.
Proof.
  intros Hu Hs. split.
  - unfold U.retryUploadAtom. rewrite Hu.
    rewrite bool_decide_eq_true_2 by done. simpl.
    by rewrite (registry_record_never_placeholder st id u Hu).
  - unfold U.updateUploadAtom. rewrite Hu.
    rewrite get_set_uploadsAtom, lookup_insert_eq. simpl.
    eexists. split; [reflexivity|].
    unfold U.rehydrate, FileCache.get. rewrite lookup_singleton_eq.
    by repeat split.
Qed.

(** * Further properties *)

(** ** uploadStateMachine.ts *)

(** X1. What the predicates of a transfer machine allow: retry exactly from
    error and canceled; removal from every state but idle and uploading;
    cancelling from every state that is not final and not idle. A final
    state can be removed and cannot be cancelled, an active one can be
    cancelled. *)
Theorem X1_machine_predicates :
  forall m : SM.Machine,
    SM.canRetry m
    = bool_decide (SM.state m = SM.error \/ SM.state m = SM.canceled)
    /\ SM.canRemove m
       = bool_decide (SM.state m <> SM.idle /\ SM.state m <> SM.uploading)
    /\ SM.canCancel m
       = negb (SM.isFinal m) && negb (bool_decide (SM.state m = SM.idle))
    /\ (if SM.isFinal m
        then SM.canRemove m = true /\ SM.canCancel m = false
                                   /\ SM.isActive m = false
        else True)
    /\ (if SM.isActive m then SM.canCancel m = true else True).
Proof.
  intros [s c l]. unfold SM.canRetry, SM.canRemove, SM.canCancel, SM.isFinal,
    SM.isActive. simpl.
  destruct s; simpl; repeat split;
    try (symmetry; apply bool_decide_eq_true_2; intuition congruence);
    try (symmetry; apply bool_decide_eq_false_2; intuition congruence).
Qed.

(** The run of a list of events, without payloads, on states. *)
Lemma sendAll_state events m :
  SM.state (SM.sendAll (map (fun e => (e, None)) events) m)
  = foldl SM.getNextState (SM.state m) events.
Proof.
  revert m. induction events as [|e events IH]; intros m; [reflexivity|].
  simpl. unfold SM.sendAll in *. simpl. rewrite IH. f_equal.
  unfold SM.send_, SM.send. simpl. rewrite andb_true_r.
  case_bool_decide as H; simpl; [by rewrite H|].
  by rewrite bool_decide_eq_true_2.
Qed.

(** X2. The machine has no dead end and no unreachable state: from every
    state at most two events bring it back to idle, and every state is
    reached from idle by at most five events. *)
Theorem X2_machine_connected :
  forall (m : SM.Machine) (s : SM.UploadState),
    (exists events,
        (length events <= 2)%nat
        /\ SM.state (SM.sendAll (map (fun e => (e, None)) events) m) = SM.idle)
    /\ (SM.state m = SM.idle ->
        exists events,
          (length events <= 5)%nat
          /\ SM.state (SM.sendAll (map (fun e => (e, None)) events) m) = s).
Proof.
  intros m s. split.
  - destruct (SM.state m) eqn:Hs;
      first [ by (exists []; rewrite sendAll_state, Hs; split; [simpl; lia|])
            | by (exists [SM.REMOVE]; rewrite sendAll_state, Hs; split; [simpl; lia|])
            | by (exists [SM.CANCEL; SM.REMOVE]; rewrite sendAll_state, Hs;
                  split; [simpl; lia|]) ].
  - intros Hs.
    destruct s;
      [ exists []
      | exists [SM.ADD_FILE]
      | exists [SM.ADD_FILE; SM.START_RESERVE]
      | exists [SM.ADD_FILE; SM.START_RESERVE; SM.RESERVE_SUCCESS]
      | exists [SM.ADD_FILE; SM.START_RESERVE; SM.RESERVE_SUCCESS; SM.START_UPLOAD]
      | exists [SM.ADD_FILE; SM.START_RESERVE; SM.RESERVE_SUCCESS; SM.START_UPLOAD;
                SM.UPLOAD_SUCCESS]
      | exists [SM.ADD_FILE; SM.START_RESERVE; SM.RESERVE_ERROR]
      | exists [SM.ADD_FILE; SM.CANCEL]
      | exists [SM.ADD_FILE; SM.CANCEL; SM.RETRY] ];
      rewrite sendAll_state, Hs; (split; [simpl; lia | reflexivity]).
Qed.

Lemma X2_machine_connected_witness :
  SM.state R.sampleMachine = SM.idle
  /\ exists events,
       (length events <= 5)%nat
       /\ SM.state (SM.sendAll (map (fun e => (e, None)) events) R.sampleMachine)
          = SM.success.
Proof.
  split; [reflexivity|].
  exact (proj2 (X2_machine_connected R.sampleMachine SM.success) eq_refl).
Defined.

Lemma spliceFirst_absent l ls : l ∉ ls -> SM.spliceFirst l ls = ls.
Proof.
  induction ls as [|x ls IH]; intros Hl; [reflexivity|]. simpl.
  rewrite not_elem_of_cons in Hl. destruct Hl as [Hne Hl].
  rewrite decide_False by congruence. by rewrite IH.
Qed.

Lemma spliceFirst_snoc_absent l ls :
  l ∉ ls -> SM.spliceFirst l (ls ++ [l]) = ls.
Proof.
  induction ls as [|x ls IH]; intros Hl; simpl.
  - by rewrite decide_True.
  - rewrite not_elem_of_cons in Hl. destruct Hl as [Hne Hl].
    rewrite decide_False by congruence. by rewrite IH.
Qed.

Lemma spliceFirst_snoc_perm l ls : SM.spliceFirst l (ls ++ [l]) ≡ₚ ls.
Proof.
  induction ls as [|x ls IH]; simpl.
  - by rewrite decide_True.
  - destruct (decide (x = l)) as [->|Hne].
    + symmetry. apply Permutation_cons_append.
    + by rewrite IH.
Qed.

(** X3. Subscribing and unsubscribing. The function [subscribe] returns
    removes one occurrence of the listener, the first: on a machine that
    did not have the listener it restores the machine exactly, and in
    general it restores the listeners up to order; unsubscribing a listener
    that is not subscribed changes nothing. A listener subscribed once is
    called exactly once, with the state and context the machine ends in, by
    a [send] that returns [true], and not at all by one that returns
    [false]. *)
Theorem X3_subscribe_unsubscribe :
  forall (m : SM.Machine) (l : SM.Listener),
    SM.listeners (SM.unsubscribe (SM.subscribe m l) l) ≡ₚ SM.listeners m
    /\ (if decide (l ∈ SM.listeners m) then True
        else SM.unsubscribe (SM.subscribe m l) l = m
             /\ SM.unsubscribe m l = m
             /\ forall e payload,
                  filter (fun n => n.1.1 = l)
                         (SM.notified (SM.send (SM.subscribe m l) e payload))
                  = if SM.returned (SM.send (SM.subscribe m l) e payload)
                    then [(l,
                           SM.state (SM.machine (SM.send (SM.subscribe m l) e payload)),
                           SM.context (SM.machine (SM.send (SM.subscribe m l) e payload)))]
                    else []).
Proof.
  intros [s c ls] l. split.
  - simpl. apply spliceFirst_snoc_perm.
  - destruct (decide _) as [|Hl]; [exact I|]. simpl in Hl.
    split; [|split].
    + unfold SM.unsubscribe, SM.subscribe. simpl.
      by rewrite spliceFirst_snoc_absent.
    + unfold SM.unsubscribe. simpl. by rewrite spliceFirst_absent.
    + intros e payload. unfold SM.send, SM.subscribe. simpl.
      destruct (_ && _); simpl; [reflexivity|].
      rewrite map_app, filter_app. simpl.
      rewrite filter_cons, decide_True by reflexivity.
      match goal with |- ?a ++ _ = _ => assert (a = []) as -> end; [|reflexivity].
      clear -Hl. induction ls as [|x ls IH]; [reflexivity|]. simpl.
      rewrite not_elem_of_cons in Hl. destruct Hl as [Hne Hl].
      rewrite filter_cons. simpl. rewrite decide_False by congruence.
      by apply IH.
Qed.

Lemma sendAll_keeps_payload_size calls : forall m,
  Forall R.keepsPayloadSize calls ->
  SM.ctx_file (SM.context (SM.sendAll calls m)) = SM.ctx_file (SM.context m)
  /\ SM.ctx_fileSize (SM.context (SM.sendAll calls m))
     = SM.ctx_fileSize (SM.context m).
Proof.
  induction calls as [|[e p] calls IH]; intros m Hall; [by split|].
  inversion Hall as [|? ? Hcall Hrest]; subst.
  unfold SM.sendAll in *. simpl.
  destruct (IH (SM.send_ e p m) Hrest) as [-> ->].
  destruct p as [p|].
  - destruct Hcall as [Hf Hs].
    by rewrite send_keeps_file, send_keeps_fileSize.
  - by rewrite send_no_payload_keeps_context.
Qed.

(** X4. A machine made by [createUploadStateMachine] records the size of
    the file it was made from, so [isPlaceholderState] is false for it
    after any sequence of [send] calls whose payloads set neither [file]
    nor [fileSize]: the two sizes it compares never differ. *)
Theorem X4_created_machine_never_placeholder :
  forall (file : File) (id : string)
         (calls : list (SM.UploadEvent * option SM.PartialUploadContext)),
    Forall R.keepsPayloadSize calls ->
    SM.isPlaceholderState
      (SM.getState (SM.sendAll calls (SM.createUploadStateMachine file id)))
      (SM.getContext (SM.sendAll calls (SM.createUploadStateMachine file id)))
    = false.
Proof.
  intros file id calls Hall.
  destruct (sendAll_keeps_payload_size calls
              (SM.createUploadStateMachine file id) Hall) as [Hf Hs].
  unfold SM.isPlaceholderState, SM.getContext. rewrite Hf, Hs. simpl.
  repeat case_bool_decide; simpl; try reflexivity; lia.
Qed.

Lemma X4_created_machine_witness :
  Forall R.keepsPayloadSize
    [(SM.ADD_FILE, None); (SM.START_RESERVE, None);
     (SM.RESERVE_ERROR, Some (U.errorPayload (Some U.lostMessage)))]
  /\ SM.isPlaceholderState
       (SM.getState (SM.sendAll
          [(SM.ADD_FILE, None); (SM.START_RESERVE, None);
           (SM.RESERVE_ERROR, Some (U.errorPayload (Some U.lostMessage)))]
          (SM.createUploadStateMachine (mkFile "a.txt" 0 "text/plain" 0) "a")))
       (SM.getContext (SM.sendAll
          [(SM.ADD_FILE, None); (SM.START_RESERVE, None);
           (SM.RESERVE_ERROR, Some (U.errorPayload (Some U.lostMessage)))]
          (SM.createUploadStateMachine (mkFile "a.txt" 0 "text/plain" 0) "a")))
     = false.
Proof.
  assert (H : Forall R.keepsPayloadSize
    [(SM.ADD_FILE, None); (SM.START_RESERVE, None);
     (SM.RESERVE_ERROR, Some (U.errorPayload (Some U.lostMessage)))]).
  { repeat constructor. }
  split; [exact H|].
  exact (X4_created_machine_never_placeholder _ _ _ H).
Defined.

(** X5. The machine the getter attaches to a record agrees with the
    record: its state is the one that stands for the record's status (error
    when the payload is lost), its file is the record's file, it carries
    the record's destination when the status is ready, uploading or
    success, and the record's error message when the status is error. *)
Theorem X5_rehydrated_machine_agrees :
  forall (cache : gmap string File) (k : string) (item : SerializableUploadItem),
    exists m,
      U.item_stateMachine (U.rehydrate cache k item) = Some m
      /\ SM.state m = R.machineState (U.item_status (U.rehydrate cache k item))
      /\ SM.ctx_file (SM.context m) = U.item_file (U.rehydrate cache k item)
      /\ SM.ctx_id (SM.context m) = k
      /\ match U.item_status (U.rehydrate cache k item) with
         | ready | uploading | success =>
             R.contextDestination (SM.context m)
             = R.destination (U.rehydrate cache k item)
         | error =>
             SM.ctx_error (SM.context m) = U.item_error (U.rehydrate cache k item)
         | _ => True
         end.
Proof.
  intros cache k item. unfold U.rehydrate.
  destruct (FileCache.get k cache) as [file|]; simpl.
  - eexists. split; [reflexivity|].
    unfold U.replayStatus. destruct (s_status item); repeat split.
  - eexists. split; [reflexivity|]. repeat split.
Qed.

(** ** overallProgressStateMachine.ts *)

(** X6. The predicates of the session machine against its table: files can
    be added exactly where [FILES_ADDED] is accepted, [RESET] is accepted
    everywhere but in idle, [UPLOAD_STARTED] is accepted wherever uploads
    can be started, and no state is both final and active. *)
Theorem X6_session_predicates :
  forall m : OP.Machine,
    OP.canAddFiles m = OP.canTransitionOverall (OP.state m) OP.FILES_ADDED
    /\ OP.canTransitionOverall (OP.state m) OP.RESET
       = negb (bool_decide (OP.state m = OP.idle))
    /\ (if OP.canStartUploads m
        then OP.canTransitionOverall (OP.state m) OP.UPLOAD_STARTED = true
        else True)
    /\ OP.isFinal m && OP.isActive m = false.
Proof.
  intros [s c l]. unfold OP.canAddFiles, OP.canStartUploads, OP.isFinal,
    OP.isActive. simpl. destruct s; simpl; repeat split.
Qed.

Lemma updateFromUploads_state m p :
  OP.state (OP.machine (OP.updateFromUploads m p))
  = match OP.determineEventFromContext
            (OP.mkMachine (OP.state m) (OP.mergeContext (OP.context m) p)
                          (OP.listeners m)) with
    | Some e => OP.getNextOverallState (OP.state m) e
    | None => OP.state m
    end.
Proof.
  unfold OP.updateFromUploads.
  destruct (OP.determineEventFromContext _) as [e|]; [|reflexivity].
  unfold OP.send. simpl. case_bool_decide as H; simpl; [by rewrite H|done].
Qed.

(** X7. How [updateFromUploads] can move the session. It enters preparing
    only from idle, and uploading only from ready, partial or failed: the
    [PREPARATION_STARTED] and [UPLOAD_PROGRESS] it derives in other states
    are never accepted. With no files it always ends in idle, and from
    idle with files it always goes to preparing. *)
Theorem X7_session_moves :
  forall (m : OP.Machine) (p : OP.PartialContext),
    (OP.state (OP.machine (OP.updateFromUploads m p)) = OP.preparing ->
     OP.state m = OP.idle \/ OP.state m = OP.preparing)
    /\ (OP.state (OP.machine (OP.updateFromUploads m p)) = OP.uploading ->
        OP.state m = OP.ready \/ OP.state m = OP.partial
        \/ OP.state m = OP.failed \/ OP.state m = OP.uploading)
    /\ (OP.totalFiles (OP.context (OP.machine (OP.updateFromUploads m p))) = 0 ->
        OP.state (OP.machine (OP.updateFromUploads m p)) = OP.idle)
    /\ (OP.state m = OP.idle ->
        0 < OP.totalFiles (OP.context (OP.machine (OP.updateFromUploads m p))) ->
        OP.state (OP.machine (OP.updateFromUploads m p)) = OP.preparing).
Proof.
  intros [s c l] p. rewrite context_after_updateFromUploads.
  rewrite updateFromUploads_state. cbn [OP.state OP.context OP.listeners].
  generalize (OP.mergeContext c p). intros c'.
  unfold OP.determineEventFromContext. simpl.
  destruct c'; simpl.
  destruct s; repeat split; intros;
    repeat (case_bool_decide; simpl in *; try lia; try congruence;
            try (intuition congruence)).
  all: simpl in *; first [discriminate | lia | by auto | intuition congruence].
Qed.

Lemma X7_session_moves_witness :
  (OP.state OP.createOverallProgressStateMachine = OP.idle
   /\ 0 < OP.totalFiles (OP.context (OP.machine (OP.updateFromUploads
            OP.createOverallProgressStateMachine
            (U.computeContext [R.record "a" R.fileA 0 queued None]))))
   /\ OP.state (OP.machine (OP.updateFromUploads
            OP.createOverallProgressStateMachine
            (U.computeContext [R.record "a" R.fileA 0 queued None])))
      = OP.preparing)
  /\ (OP.state (OP.machine (OP.updateFromUploads R.readySession
            (U.computeContext [R.record "a" R.fileA 10 uploading None])))
      = OP.uploading
      /\ (OP.state R.readySession = OP.ready
          \/ OP.state R.readySession = OP.partial
          \/ OP.state R.readySession = OP.failed
          \/ OP.state R.readySession = OP.uploading))
  /\ (OP.totalFiles (OP.context (OP.machine (OP.updateFromUploads R.readySession
            (U.computeContext [])))) = 0
      /\ OP.state (OP.machine (OP.updateFromUploads R.readySession
            (U.computeContext []))) = OP.idle).
Proof.
  split; [|split].
  - split; [reflexivity|]. split; [reflexivity|].
    exact (proj2 (proj2 (proj2 (X7_session_moves
             OP.createOverallProgressStateMachine
             (U.computeContext [R.record "a" R.fileA 0 queued None]))))
             eq_refl eq_refl).
  - split; [reflexivity|].
    exact (proj1 (proj2 (X7_session_moves R.readySession
             (U.computeContext [R.record "a" R.fileA 10 uploading None])))
             eq_refl).
  - split; [reflexivity|].
    exact (proj1 (proj2 (proj2 (X7_session_moves R.readySession
             (U.computeContext [])))) eq_refl).
Defined.

Lemma update_sameCounts_shape s c l :
  OP.machine (OP.updateFromUploads (OP.mkMachine s c l) R.sameCounts)
  = OP.mkMachine
      (OP.state (OP.machine (OP.updateFromUploads (OP.mkMachine s c l)
                                                  R.sameCounts)))
      c l.
Proof.
  unfold OP.updateFromUploads, OP.send. destruct c. simpl.
  destruct (OP.determineEventFromContext _); [|reflexivity].
  by case_bool_decide.
Qed.

(** The count conditions of [determineEventFromContext] as opaque booleans;
    what remains is decided by running the machine. *)
Ltac abstract_counts :=
  repeat match goal with
    | |- context [@bool_decide ?P ?d] =>
        lazymatch P with
        | @eq Z _ _ => generalize (@bool_decide P d); intros ?
        | Z.lt _ _ => generalize (@bool_decide P d); intros ?
        end
    end.

Ltac run_machine :=
  repeat (simpl;
          match goal with
          | |- context [if ?b then _ else _] => is_var b; destruct b
          | |- context [?b && _] => is_var b; destruct b
          | |- context [?b || _] => is_var b; destruct b
          end);
  simpl; try reflexivity; try congruence.

Lemma session_settles_once c s l l' :
  s <> OP.idle ->
  OP.state (OP.machine (OP.updateFromUploads
     (OP.mkMachine
        (OP.state (OP.machine (OP.updateFromUploads (OP.mkMachine s c l)
                                                    R.sameCounts)))
        c l')
     R.sameCounts))
  = OP.state (OP.machine (OP.updateFromUploads (OP.mkMachine s c l)
                                               R.sameCounts)).
Proof.
  intros Hs. rewrite !updateFromUploads_state. destruct c.
  unfold OP.determineEventFromContext.
  cbn [OP.state OP.context OP.listeners OP.mergeContext spread R.sameCounts
       OP.p_totalFiles OP.p_completedFiles OP.p_failedFiles OP.p_canceledFiles
       OP.p_uploadingFiles OP.p_preparingFiles OP.p_readyFiles
       OP.p_overallProgress OP.p_hasRetryableFiles OP.p_hasPlaceholderFiles
       OP.totalFiles OP.completedFiles OP.failedFiles OP.canceledFiles
       OP.uploadingFiles OP.preparingFiles].
  abstract_counts.
  destruct s; try congruence; run_machine.
Qed.

Lemma session_leaves_idle c l :
  OP.state (OP.machine (OP.updateFromUploads (OP.mkMachine OP.idle c l)
                                             R.sameCounts)) = OP.idle
  /\ OP.totalFiles c <= 0
  \/ OP.state (OP.machine (OP.updateFromUploads (OP.mkMachine OP.idle c l)
                                                R.sameCounts)) = OP.preparing.
Proof.
  rewrite !updateFromUploads_state. destruct c.
  unfold OP.determineEventFromContext. simpl.
  repeat (case_bool_decide; simpl in *; try lia; auto).
  all: try (left; split; [reflexivity|lia]).
  all: try (exfalso; lia).
Qed.

Lemma overallProgressAtom_shape uploads m :
  U.overallProgressAtom uploads m
  = OP.mkMachine
      (OP.state (OP.machine (OP.updateFromUploads
         (OP.mkMachine (OP.state m)
            (OP.mergeContext (OP.context m) (U.computeContext uploads))
            (OP.listeners m))
         R.sameCounts)))
      (OP.mergeContext (OP.context m) (U.computeContext uploads))
      (OP.listeners m).
Proof.
  rewrite <- update_sameCounts_shape. unfold U.overallProgressAtom.
  unfold OP.updateFromUploads. simpl. reflexivity.
Qed.

(** X8. Reading [overallProgressAtom] again over the same uploads settles:
    the context is the same from the first read on, the state from the
    second read on, and already from the first read when the session was
    not idle. *)
Theorem X8_session_settles :
  forall (uploads : list U.UploadItem) (m : OP.Machine),
    OP.context (U.overallProgressAtom uploads (U.overallProgressAtom uploads m))
    = OP.context (U.overallProgressAtom uploads m)
    /\ OP.state (U.overallProgressAtom uploads
                   (U.overallProgressAtom uploads
                      (U.overallProgressAtom uploads m)))
       = OP.state (U.overallProgressAtom uploads (U.overallProgressAtom uploads m))
    /\ (if decide (OP.state m = OP.idle) then True
        else OP.state (U.overallProgressAtom uploads
                         (U.overallProgressAtom uploads m))
             = OP.state (U.overallProgressAtom uploads m)).
Proof.
  intros uploads [s c l].
  assert (Hctx : forall c',
    OP.mergeContext c' (U.computeContext uploads)
    = OP.mergeContext c (U.computeContext uploads)) by reflexivity.
  assert (Hstep : forall s',
    U.overallProgressAtom uploads
      (OP.mkMachine s' (OP.mergeContext c (U.computeContext uploads)) l)
    = OP.mkMachine
        (OP.state (OP.machine (OP.updateFromUploads
           (OP.mkMachine s' (OP.mergeContext c (U.computeContext uploads)) l)
           R.sameCounts)))
        (OP.mergeContext c (U.computeContext uploads)) l).
  { intros s'. rewrite overallProgressAtom_shape.
    cbn [OP.state OP.context OP.listeners]. by rewrite Hctx. }
  rewrite (overallProgressAtom_shape uploads (OP.mkMachine s c l)).
  cbn [OP.state OP.context OP.listeners].
  generalize dependent (OP.mergeContext c (U.computeContext uploads)).
  intros C _ Hstep. rewrite !Hstep. cbn [OP.state OP.context].
  split; [reflexivity|]. split.
  - destruct (decide (s = OP.idle)) as [->|Hs].
    + destruct (session_leaves_idle C l) as [[Hi _]|Hp].
      * by rewrite !Hi.
      * rewrite !Hp. by apply session_settles_once.
    + rewrite (session_settles_once C s l l Hs).
      by rewrite (session_settles_once C s l l Hs).
  - destruct (decide _) as [|Hs]; [exact I|].
    by apply session_settles_once.
Qed.

(** ** Percentages and counters *)

(** [Math.round] of a quotient of integers, in integers. *)
Lemma Math_round_quotient a b :
  0 < b ->
  U.Math_round (inject_Z a / inject_Z b)%Q = (2 * a + b) / (2 * b).
Proof.
  intros Hb. destruct b as [|p|p]; try lia.
  unfold U.Math_round, Qfloor, Qdiv, Qmult, Qinv, Qplus, inject_Z. simpl.
  f_equal; lia.
Qed.

(** ** Binary64 *)

Section Binary64Facts.

Local Open Scope Q_scope.

Lemma pow2_pos e : 0 < 2 ^ e.
Proof. by apply Qpower_0_lt. Qed.

Lemma pow2_add a b : 2 ^ (a + b) == 2 ^ a * 2 ^ b.
Proof. by apply Qpower_plus. Qed.

Lemma pow2_le a b : (a <= b)%Z -> 2 ^ a <= 2 ^ b.
Proof. intros H. by apply Qpower_le_compat_l. Qed.

Lemma pow2_Z n : (0 <= n)%Z -> inject_Z (2 ^ n) == 2 ^ n.
Proof. intros H. by rewrite Zpower_Qpower. Qed.

Lemma Qabs_of_pos q : 0 < q -> Qabs q = q.
Proof.
  destruct q as [[|n|n] d]; unfold Qlt; simpl; intros H; try lia. reflexivity.
Qed.

Lemma inject_Z_pos z : (0 < z)%Z -> 0 < inject_Z z.
Proof. intros H. change 0 with (inject_Z 0). by rewrite <- Zlt_Qlt. Qed.

Lemma inject_Z_nonneg z : (0 <= z)%Z -> 0 <= inject_Z z.
Proof. intros H. change 0 with (inject_Z 0). by rewrite <- Zle_Qle. Qed.

Lemma Qpos_of_nonneg q : 0 <= q -> ~ q == 0 -> 0 < q.
Proof.
  intros H E. apply Qle_lteq in H as [H|H]; [exact H|]. by symmetry in H.
Qed.

Lemma Qpos_nonzero q : 0 < q -> ~ q == 0.
Proof. intros H E. rewrite E in H. by apply Qlt_irrefl in H. Qed.

(** [ilog2] is the binary exponent of a positive rational. *)
Lemma ilog2_spec q :
  0 < q -> 2 ^ Binary64.ilog2 q <= q /\ q < 2 ^ (Binary64.ilog2 q + 1).
Proof.
  intros Hq. unfold Binary64.ilog2.
  destruct q as [n d]. cbn [Qnum Qden].
  assert (Hn : (0 < n)%Z) by (unfold Qlt in Hq; simpl in Hq; lia).
  set (ln := Z.log2 n). set (ld := Z.log2 (Z.pos d)).
  assert (Hln : (2 ^ ln <= n < 2 ^ (ln + 1))%Z).
  { pose proof (Z.log2_spec n Hn) as H. fold ln in H.
    by rewrite <- Z.add_1_r in H. }
  assert (Hld : (2 ^ ld <= Z.pos d < 2 ^ (ld + 1))%Z).
  { pose proof (Z.log2_spec (Z.pos d) eq_refl) as H. fold ld in H.
    by rewrite <- Z.add_1_r in H. }
  assert (H0n : (0 <= ln)%Z) by apply Z.log2_nonneg.
  assert (H0d : (0 <= ld)%Z) by apply Z.log2_nonneg.
  assert (Hq' : n # d == inject_Z n / inject_Z (Z.pos d)) by apply Qmake_Qdiv.
  assert (Hdpos : 0 < inject_Z (Z.pos d)) by (by apply inject_Z_pos).
  destruct (Qle_bool (2 ^ (ln - ld)) (n # d)) eqn:Hc.
  - apply Qle_bool_iff in Hc. split; [exact Hc|].
    replace (ln - ld + 1)%Z with ((ln + 1) + - ld)%Z by lia.
    rewrite pow2_add, Qpower_opp, <- !pow2_Z, Hq' by lia.
    apply Qlt_shift_div_r; [exact Hdpos|].
    assert (Hp : 0 < inject_Z (2 ^ ld)) by (apply inject_Z_pos; lia).
    apply (Qmult_lt_r _ _ (inject_Z (2 ^ ld))); [exact Hp|].
    rewrite <- (Qmult_assoc _ (/ _)), (Qmult_comm (/ _)), (Qmult_assoc _ _ (/ _)).
    rewrite <- (Qmult_assoc _ _ (inject_Z (2 ^ ld))).
    rewrite (Qmult_comm (/ _)), Qmult_inv_r, Qmult_1_r
      by (by apply Qpos_nonzero).
    rewrite <- !inject_Z_mult, <- Zlt_Qlt. nia.
  - assert (Hlt : n # d < 2 ^ (ln - ld)).
    { apply Qnot_le_lt. intros H. apply Qle_bool_iff in H. congruence. }
    split.
    + replace (ln - ld - 1)%Z with (ln + - (ld + 1))%Z by lia.
      rewrite pow2_add, Qpower_opp, <- !pow2_Z, Hq' by lia.
      assert (Hp : 0 < inject_Z (2 ^ (ld + 1))) by (apply inject_Z_pos; lia).
      apply Qle_shift_div_l; [exact Hdpos|].
      apply (Qmult_le_r _ _ (inject_Z (2 ^ (ld + 1)))); [exact Hp|].
      rewrite <- (Qmult_assoc _ (/ _)), (Qmult_comm (/ _)), (Qmult_assoc _ _ (/ _)).
      rewrite <- (Qmult_assoc _ _ (inject_Z (2 ^ (ld + 1)))).
      rewrite (Qmult_comm (/ _)), Qmult_inv_r, Qmult_1_r
        by (by apply Qpos_nonzero).
      rewrite <- !inject_Z_mult, <- Zle_Qle. nia.
    + eapply Qlt_le_trans; [exact Hlt|]. apply pow2_le. lia.
Qed.

(** [nearest_even] never crosses an integer, and is at most a half away. *)
Lemma nearest_even_le x k :
  x <= inject_Z k -> (Binary64.nearest_even x <= k)%Z.
Proof.
  intros H. unfold Binary64.nearest_even.
  pose proof (Qfloor_le x) as Hf.
  assert (Hfk : (Qfloor x <= k)%Z).
  { rewrite Zle_Qle. by eapply Qle_trans. }
  assert (Hup : 1 # 2 <= x - inject_Z (Qfloor x) -> (Qfloor x + 1 <= k)%Z).
  { intros Hh. enough (Qfloor x < k)%Z by lia.
    rewrite Zlt_Qlt. eapply Qlt_le_trans; [|exact H].
    apply (Qplus_lt_l _ _ (- inject_Z (Qfloor x))).
    rewrite Qplus_opp_r. eapply Qlt_le_trans; [|exact Hh]. reflexivity. }
  destruct (Qcompare_spec (x - inject_Z (Qfloor x)) (1 # 2)) as [E|E|E].
  - destruct (Z.even _); [exact Hfk|]. apply Hup. rewrite E. apply Qle_refl.
  - exact Hfk.
  - apply Hup. by apply Qlt_le_weak.
Qed.

Lemma nearest_even_ge x k :
  inject_Z k <= x -> (k <= Binary64.nearest_even x)%Z.
Proof.
  intros H. unfold Binary64.nearest_even.
  assert (Hfk : (k <= Qfloor x)%Z).
  { rewrite <- (Qfloor_Z k). by apply Qfloor_resp_le. }
  destruct (_ ?= _); [destruct (Z.even _)| |]; lia.
Qed.

Lemma nearest_even_error x :
  x - (1 # 2) <= inject_Z (Binary64.nearest_even x) <= x + (1 # 2).
Proof.
  unfold Binary64.nearest_even.
  pose proof (Qfloor_le x) as Hlo. pose proof (Qlt_floor x) as Hhi.
  rewrite inject_Z_plus in Hhi. change (inject_Z 1) with 1 in Hhi.
  destruct (Qcompare_spec (x - inject_Z (Qfloor x)) (1 # 2)) as [E|E|E].
  - destruct (Z.even _); [|rewrite inject_Z_plus; change (inject_Z 1) with 1];
      lra.
  - lra.
  - rewrite inject_Z_plus. change (inject_Z 1) with 1. lra.
Qed.

Lemma exponent_pos q :
  0 < q ->
  Binary64.exponent q = Z.max (Binary64.ilog2 q - 52) Binary64.emin.
Proof. intros H. unfold Binary64.exponent. by rewrite Qabs_of_pos. Qed.

Lemma round_nonzero q :
  ~ q == 0 ->
  Binary64.round q
  = inject_Z (Binary64.nearest_even (q / 2 ^ Binary64.exponent q))
    * 2 ^ Binary64.exponent q.
Proof.
  intros H. unfold Binary64.round.
  destruct (Qeq_bool q 0) eqn:E; [|reflexivity].
  by apply Qeq_bool_iff in E.
Qed.

Lemma round_zero q : q == 0 -> Binary64.round q = 0.
Proof.
  intros H. unfold Binary64.round. by rewrite (proj2 (Qeq_bool_iff q 0) H).
Qed.

Lemma scaled_integer m e e' :
  (e' <= e)%Z -> inject_Z m * 2 ^ e / 2 ^ e' == inject_Z (m * 2 ^ (e - e')).
Proof.
  intros H. rewrite inject_Z_mult, pow2_Z by lia.
  unfold Zminus. rewrite pow2_add, Qpower_opp. unfold Qdiv.
  by rewrite Qmult_assoc.
Qed.

(** Rounding does not cross a double: a double above [q] is above the
    rounding of [q] ... *)
Lemma round_le q b :
  0 < q -> q <= b -> Binary64.representable b -> Binary64.round q <= b.
Proof.
  intros Hq Hqb (m & e & Hm & He & Hb). unfold Binary64.prec in Hm.
  rewrite round_nonzero by (by apply Qpos_nonzero).
  rewrite (exponent_pos q Hq).
  set (e' := Z.max (Binary64.ilog2 q - 52) Binary64.emin).
  pose proof (pow2_pos e') as Hp.
  destruct (Z_le_gt_dec e' e) as [Hee|Hee].
  - apply (Qmult_le_r _ _ (/ 2 ^ e')); [by apply Qinv_lt_0_compat|].
    rewrite <- Qmult_assoc, Qmult_inv_r, Qmult_1_r by (by apply Qpos_nonzero).
    fold (Qdiv b (2 ^ e')). rewrite Hb, scaled_integer by done.
    rewrite <- Zle_Qle. apply nearest_even_le.
    rewrite <- scaled_integer, <- Hb by done.
    apply Qmult_le_r; [by apply Qinv_lt_0_compat | exact Hqb].
  - exfalso.
    assert (He' : e' = (Binary64.ilog2 q - 52)%Z)
      by (unfold e', Binary64.emin in *; lia).
    destruct (ilog2_spec q Hq) as [Hlo _].
    assert (Hlt : b < 2 ^ Binary64.ilog2 q).
    { rewrite Hb. apply Qlt_le_trans with (2 ^ 53 * 2 ^ e).
      - apply Qmult_lt_r; [apply pow2_pos|].
        rewrite <- (pow2_Z 53) by lia. rewrite <- Zlt_Qlt. lia.
      - rewrite <- pow2_add. apply pow2_le. lia. }
    apply (Qlt_irrefl b). eapply Qlt_le_trans; [exact Hlt|].
    by eapply Qle_trans.
Qed.

(** ... and a double below [q] is below it. *)
Lemma round_ge q b :
  0 < q -> b <= q -> Binary64.representable b -> b <= Binary64.round q.
Proof.
  intros Hq Hqb (m & e & Hm & He & Hb). unfold Binary64.prec in Hm.
  rewrite round_nonzero by (by apply Qpos_nonzero).
  rewrite (exponent_pos q Hq).
  set (e' := Z.max (Binary64.ilog2 q - 52) Binary64.emin).
  pose proof (pow2_pos e') as Hp.
  assert (Hinv : forall x y,
             x / 2 ^ e' <= inject_Z y -> x <= inject_Z y * 2 ^ e').
  { intros x y H.
    apply (Qmult_le_r _ _ (/ 2 ^ e')); [by apply Qinv_lt_0_compat|].
    rewrite <- (Qmult_assoc (inject_Z y)), Qmult_inv_r, Qmult_1_r
      by (by apply Qpos_nonzero).
    exact H. }
  destruct (Z_le_gt_dec e' e) as [Hee|Hee].
  - apply Hinv. rewrite Hb, scaled_integer by done.
    rewrite <- Zle_Qle. apply nearest_even_ge.
    rewrite <- scaled_integer, <- Hb by done.
    apply Qmult_le_r; [by apply Qinv_lt_0_compat | exact Hqb].
  - assert (He' : e' = (Binary64.ilog2 q - 52)%Z)
      by (unfold e', Binary64.emin in *; lia).
    destruct (ilog2_spec q Hq) as [Hlo _].
    apply Qle_trans with (inject_Z (2 ^ 52) * 2 ^ e').
    + rewrite Hb. apply Qle_trans with (2 ^ 53 * 2 ^ e).
      * apply Qmult_le_r; [apply pow2_pos|].
        rewrite <- (pow2_Z 53) by lia. rewrite <- Zle_Qle. lia.
      * rewrite pow2_Z, <- !pow2_add by lia. apply pow2_le. lia.
    + apply Qmult_le_r; [exact Hp|]. rewrite <- Zle_Qle.
      apply nearest_even_ge. rewrite pow2_Z by lia.
      apply Qle_shift_div_l; [exact Hp|]. rewrite <- pow2_add.
      eapply Qle_trans; [|exact Hlo]. apply pow2_le. lia.
Qed.

(** An integer below [2^53] is a double. *)
Lemma representable_Z z :
  (Z.abs z < 2 ^ 53)%Z -> Binary64.representable (inject_Z z).
Proof.
  intros H. exists z, 0%Z. split; [exact H|].
  split; [by unfold Binary64.emin|]. by rewrite Qmult_1_r.
Qed.

Lemma representable_eq x y :
  x == y -> Binary64.representable y -> Binary64.representable x.
Proof.
  intros E (m & e & H1 & H2 & H3). exists m, e.
  split; [exact H1|]. split; [exact H2|]. by rewrite E.
Qed.

Lemma round_nonneg q : 0 <= q -> 0 <= Binary64.round q.
Proof.
  intros H. destruct (Qeq_dec q 0) as [E|E].
  - rewrite (round_zero q E). apply Qle_refl.
  - apply round_ge; [by apply Qpos_of_nonneg|exact H|].
    by apply (representable_Z 0).
Qed.

Lemma round_le_nonneg q b :
  0 <= q -> q <= b -> Binary64.representable b -> Binary64.round q <= b.
Proof.
  intros H Hb Hr. destruct (Qeq_dec q 0) as [E|E].
  - rewrite (round_zero q E). by rewrite <- E.
  - apply round_le; [by apply Qpos_of_nonneg|exact Hb|exact Hr].
Qed.

(** A double is its own rounding. *)
Lemma round_exact q :
  0 < q -> Binary64.representable q -> Binary64.round q == q.
Proof.
  intros Hq Hr. apply Qle_antisym.
  - apply round_le; [exact Hq|apply Qle_refl|exact Hr].
  - apply round_ge; [exact Hq|apply Qle_refl|exact Hr].
Qed.

Lemma round_exact_eq q z :
  (0 < z < 2 ^ 53)%Z -> q == inject_Z z -> Binary64.round q == inject_Z z.
Proof.
  intros Hz E. transitivity q; [|exact E].
  apply round_exact.
  - rewrite E. apply inject_Z_pos. lia.
  - apply (representable_eq _ _ E), representable_Z. lia.
Qed.

(** The rounding error is half a unit in the last place. *)
Lemma round_error q :
  0 < q ->
  q - (1 # 2) * 2 ^ Binary64.exponent q <= Binary64.round q
  <= q + (1 # 2) * 2 ^ Binary64.exponent q.
Proof.
  intros Hq. rewrite round_nonzero by (by apply Qpos_nonzero).
  pose proof (pow2_pos (Binary64.exponent q)) as Hp.
  set (p := 2 ^ Binary64.exponent q) in *.
  pose proof (nearest_even_error (q / p)) as [H1 H2].
  set (n := inject_Z (Binary64.nearest_even (q / p))) in *.
  assert (E : q / p * p == q).
  { unfold Qdiv.
    rewrite <- Qmult_assoc, (Qmult_comm (/ p)), Qmult_inv_r, Qmult_1_r;
      [reflexivity|by apply Qpos_nonzero]. }
  split.
  - apply Qle_trans with ((q / p - (1 # 2)) * p).
    + rewrite <- E at 1. lra.
    + apply Qmult_le_r; [exact Hp | exact H1].
  - apply Qle_trans with ((q / p + (1 # 2)) * p).
    + apply Qmult_le_r; [exact Hp | exact H2].
    + rewrite <- E at 2. lra.
Qed.

Lemma exponent_below q k :
  0 < q -> q < 2 ^ (k + 1) -> (Binary64.emin <= k - 52)%Z ->
  (Binary64.exponent q <= k - 52)%Z.
Proof.
  intros Hq Hk He. rewrite (exponent_pos q Hq).
  destruct (ilog2_spec q Hq) as [Hlo _].
  assert (Binary64.ilog2 q < k + 1)%Z; [|lia].
  apply (Qpower_lt_compat_l_inv 2); [|reflexivity].
  by eapply Qle_lt_trans.
Qed.

Lemma round_error_below q k :
  0 <= q -> q < 2 ^ (k + 1) -> (Binary64.emin <= k - 52)%Z ->
  q - (1 # 2) * 2 ^ (k - 52) <= Binary64.round q
  <= q + (1 # 2) * 2 ^ (k - 52).
Proof.
  intros Hq Hk He.
  pose proof (pow2_pos (k - 52)) as Hp.
  destruct (Qeq_dec q 0) as [E|E].
  - rewrite (round_zero q E), E. lra.
  - assert (Hq' : 0 < q) by (by apply Qpos_of_nonneg).
    pose proof (round_error q Hq') as [H1 H2].
    pose proof (pow2_le _ _ (exponent_below q k Hq' Hk He)) as Hle.
    lra.
Qed.

(** [round] against the Standard Library's specification of IEEE 754: the
    quotient, the quotient times 100 and a size times the quotient are the
    same doubles there, for every fraction [a / b] with [0 <= a <= b <= 40],
    and so is a size times [p / 100] for every percentage [p]. *)
Lemma round_agrees_with_SpecFloat :
  forallb
    (fun '(a, b) =>
       Qeq_bool (Binary64.div (inject_Z a) (inject_Z b))
                (Binary64.SpecFloat_div a b)
       && Qeq_bool (Binary64.mul (Binary64.div (inject_Z a) (inject_Z b))
                                 (inject_Z 100))
                   (Binary64.SpecFloat_div_mul a b 100)
       && Qeq_bool (Binary64.mul (inject_Z (1000003 * b))
                                 (Binary64.div (inject_Z a) (inject_Z b)))
                   (Binary64.SpecFloat_mul_div (1000003 * b) a b))
    (Binary64.fractions 40)
  && forallb
       (fun p =>
          Qeq_bool (Binary64.mul (inject_Z 100)
                                 (Binary64.div (inject_Z p) (inject_Z 100)))
                   (Binary64.SpecFloat_mul_div 100 p 100)
          && Qeq_bool (Binary64.mul (inject_Z 123456789)
                                    (Binary64.div (inject_Z p) (inject_Z 100)))
                      (Binary64.SpecFloat_mul_div 123456789 p 100))
       (map Z.of_nat (seq 0 101))
  = true.
Proof. vm_compute. reflexivity. Qed.

(** A part over the whole is a double between 0 and 1. *)
Lemma div_unit a b :
  (0 <= a <= b)%Z -> (0 < b)%Z ->
  0 <= inject_Z a / inject_Z b <= 1
  /\ 0 <= Binary64.div (inject_Z a) (inject_Z b) <= 1.
Proof.
  intros Ha Hb. unfold Binary64.div.
  assert (Hbq : 0 < inject_Z b) by (by apply inject_Z_pos).
  assert (H0 : 0 <= inject_Z a / inject_Z b).
  { apply Qle_shift_div_l; [exact Hbq|]. rewrite Qmult_0_l.
    apply inject_Z_nonneg. lia. }
  assert (H1 : inject_Z a / inject_Z b <= 1).
  { apply Qle_shift_div_r; [exact Hbq|]. rewrite Qmult_1_l.
    rewrite <- Zle_Qle. lia. }
  split; [by split|]. split; [by apply round_nonneg|].
  apply round_le_nonneg; [exact H0|exact H1|by apply (representable_Z 1)].
Qed.

Lemma Math_round_bounds x n :
  0 <= x -> x <= inject_Z n -> (0 <= U.Math_round x <= n)%Z.
Proof.
  intros H0 Hn. unfold U.Math_round. split.
  - rewrite <- (Qfloor_Z 0). apply Qfloor_resp_le.
    change (inject_Z 0) with 0. lra.
  - enough (Qfloor (x + (1 # 2)) < n + 1)%Z by lia.
    rewrite Zlt_Qlt. eapply Qle_lt_trans; [apply Qfloor_le|].
    rewrite inject_Z_plus. change (inject_Z 1) with 1. lra.
Qed.

(** [Math.round] of the exact percentage, in integers. *)
Lemma Math_round_exact_percent a b :
  (0 < b)%Z ->
  U.Math_round (inject_Z a / inject_Z b * 100)
  = ((200 * a + b) / (2 * b))%Z.
Proof.
  intros Hb. destruct b as [|p|p]; try lia.
  unfold U.Math_round, Qfloor, Qdiv, Qmult, Qinv, Qplus, inject_Z. simpl.
  f_equal; lia.
Qed.

(** The percentage of [onUploadProgress]. *)
Lemma percent_bounds a b :
  (0 <= a <= b)%Z -> (0 < b)%Z -> (0 <= U.percent a b <= 100)%Z.
Proof.
  intros Ha Hb. destruct (div_unit a b Ha Hb) as [_ [H0 H1]].
  unfold U.percent, Binary64.mul.
  set (d := Binary64.div (inject_Z a) (inject_Z b)) in *.
  apply Math_round_bounds; change (inject_Z 100) with 100.
  - apply round_nonneg. nra.
  - apply round_le_nonneg; [nra|nra|by apply (representable_Z 100)].
Qed.

Lemma percent_zero b : (0 < b)%Z -> U.percent 0 b = 0%Z.
Proof.
  intros Hb. unfold U.percent, Binary64.mul, Binary64.div.
  assert (E : inject_Z 0 / inject_Z b == 0).
  { unfold Qdiv. by rewrite Qmult_0_l. }
  rewrite (round_zero _ E). reflexivity.
Qed.

Lemma percent_full b : (0 < b)%Z -> U.percent b b = 100%Z.
Proof.
  intros Hb. unfold U.percent, Binary64.mul, Binary64.div.
  assert (E : inject_Z b / inject_Z b == inject_Z 1).
  { apply Qmult_inv_r, Qpos_nonzero. by apply inject_Z_pos. }
  pose proof (round_exact_eq _ 1 ltac:(lia) E) as E1.
  assert (Ep : Binary64.round (inject_Z b / inject_Z b) * inject_Z 100
               == inject_Z 100) by (by rewrite E1).
  pose proof (round_exact_eq _ 100 ltac:(lia) Ep) as E100.
  unfold U.Math_round. rewrite E100. reflexivity.
Qed.

(** Computed in doubles, the percentage is the exactly rounded one or its
    neighbour. *)
Lemma percent_near_exact a b :
  (0 <= a <= b)%Z -> (0 < b)%Z ->
  (Z.abs (U.percent a b - (200 * a + b) / (2 * b)) <= 1)%Z.
Proof.
  intros Ha Hb. rewrite <- Math_round_exact_percent by done.
  destruct (div_unit a b Ha Hb) as [[Hq0 Hq1] _].
  unfold U.percent, Binary64.mul, Binary64.div.
  set (q := inject_Z a / inject_Z b) in *.
  assert (Hd : q - (1 # 2) * 2 ^ (0 - 52) <= Binary64.round q
               <= q + (1 # 2) * 2 ^ (0 - 52)).
  { apply round_error_below; [exact Hq0| |by unfold Binary64.emin].
    eapply Qle_lt_trans; [exact Hq1|]. reflexivity. }
  set (d := Binary64.round q) in *.
  change (inject_Z 100) with 100.
  assert (Hd01 : 0 <= d <= 1).
  { split; [by apply round_nonneg|].
    apply round_le_nonneg; [exact Hq0|exact Hq1|by apply (representable_Z 1)]. }
  assert (Hy : d * 100 - (1 # 2) * 2 ^ (6 - 52) <= Binary64.round (d * 100)
               <= d * 100 + (1 # 2) * 2 ^ (6 - 52)).
  { apply round_error_below; [nra| |by unfold Binary64.emin].
    apply Qle_lt_trans with 100; [nra|reflexivity]. }
  set (y := Binary64.round (d * 100)) in *.
  assert (E52 : 2 ^ (0 - 52) == 1 # 4503599627370496) by reflexivity.
  assert (E46 : 2 ^ (6 - 52) == 1 # 70368744177664) by reflexivity.
  rewrite E52 in Hd. rewrite E46 in Hy.
  unfold U.Math_round.
  pose proof (Qfloor_le (y + (1 # 2))) as Ly.
  pose proof (Qlt_floor (y + (1 # 2))) as Uy.
  pose proof (Qfloor_le (q * 100 + (1 # 2))) as Lq.
  pose proof (Qlt_floor (q * 100 + (1 # 2))) as Uq.
  rewrite inject_Z_plus in Uy, Uq. change (inject_Z 1) with 1 in Uy, Uq.
  set (fy := Qfloor (y + (1 # 2))) in *.
  set (fq := Qfloor (q * 100 + (1 # 2))) in *.
  assert (Hlt1 : inject_Z fy < inject_Z (fq + 2)).
  { rewrite inject_Z_plus. change (inject_Z 2) with 2. lra. }
  assert (Hlt2 : inject_Z fq < inject_Z (fy + 2)).
  { rewrite inject_Z_plus. change (inject_Z 2) with 2. lra. }
  rewrite <- Zlt_Qlt in Hlt1, Hlt2. lia.
Qed.

(** The two do differ: 29 of 200 is 14.5 exactly, which [Math.round] takes
    to 15; the doubles give 14.499999999999998, hence 14. *)
Lemma percent_samples :
  U.percent 29 200 = 14%Z /\ ((200 * 29 + 200) / (2 * 200) = 15)%Z
  /\ U.percent 23 40 = 57%Z /\ ((200 * 23 + 40) / (2 * 40) = 58)%Z
  /\ U.percent 1 2 = 50%Z /\ U.percent 333 1000 = 33%Z.
Proof. vm_compute. repeat split. Qed.

(** The byte share of [uploadStatsAtom]. *)
Lemma share_bounds size progress :
  (0 <= size < 2 ^ 53)%Z -> (0 <= progress <= 100)%Z ->
  (0 <= Qfloor (Binary64.mul (inject_Z size)
                  (Binary64.div (inject_Z progress) (inject_Z 100)))
   <= size)%Z.
Proof.
  intros Hs Hp. destruct (div_unit progress 100 Hp eq_refl) as [_ [H0 H1]].
  unfold Binary64.mul.
  set (d := Binary64.div (inject_Z progress) (inject_Z 100)) in *.
  assert (Hsq : 0 <= inject_Z size) by (apply inject_Z_nonneg; lia).
  split.
  - rewrite <- (Qfloor_Z 0). apply Qfloor_resp_le.
    apply round_nonneg. nra.
  - rewrite <- (Qfloor_Z size) at 2. apply Qfloor_resp_le.
    apply round_le_nonneg; [nra|nra|]. apply representable_Z. lia.
Qed.

Lemma share_all size :
  (0 <= size < 2 ^ 53)%Z ->
  Qfloor (Binary64.mul (inject_Z size)
            (Binary64.div (inject_Z 100) (inject_Z 100))) = size.
Proof.
  intros Hs. unfold Binary64.mul, Binary64.div.
  assert (E1 : Binary64.round (inject_Z 100 / inject_Z 100) == 1)
    by reflexivity.
  destruct (Z.eq_dec size 0) as [->|Hne].
  - assert (E' : inject_Z 0 * Binary64.round (inject_Z 100 / inject_Z 100) == 0)
      by apply Qmult_0_l.
    by rewrite (round_zero _ E').
  - assert (Ep : inject_Z size * Binary64.round (inject_Z 100 / inject_Z 100)
                 == inject_Z size) by (rewrite E1; apply Qmult_1_r).
    rewrite (round_exact_eq _ size ltac:(lia) Ep). apply Qfloor_Z.
Qed.

End Binary64Facts.

Lemma total_contribution_bounds uploads :
  (forall u, u ∈ uploads -> U.item_status u = uploading ->
             0 <= U.item_progress u <= 100) ->
  0 <= U.total_contribution uploads <= 100 * Z.of_nat (length uploads).
Proof.
  induction uploads as [|u uploads IH]; intros H.
  - unfold U.total_contribution. simpl. lia.
  - assert (Hc : 0 <= U.contribution u <= 100).
    { unfold U.contribution.
      destruct (U.item_status u) eqn:Hs; try lia.
      apply H; [by left | done]. }
    assert (IH' : 0 <= U.total_contribution uploads
                  <= 100 * Z.of_nat (length uploads)).
    { apply IH. intros v Hv. apply H. by right. }
    unfold U.total_contribution in *. simpl length. simpl. lia.
Qed.

Lemma overallProgress_value uploads m :
  OP.overallProgress (OP.context (U.overallProgressAtom uploads m))
  = if bool_decide (0 < Z.of_nat (length uploads))
    then (2 * U.total_contribution uploads + Z.of_nat (length uploads))
         / (2 * Z.of_nat (length uploads))
    else 0.
Proof.
  unfold U.overallProgressAtom. rewrite context_after_updateFromUploads. simpl.
  case_bool_decide as Hn; [|reflexivity].
  rewrite progressSum_total, Math_round_quotient by done. f_equal.
Qed.

(** X9. The overall progress is a percentage: with every uploading transfer
    at a progress between 0 and 100 it lies between 0 and 100; it is 0 for
    an empty registry and 100 when there are transfers and all are in
    success. *)
Theorem X9_overall_progress_bounds :
  forall (uploads : list U.UploadItem) (m : OP.Machine),
    (forall u, u ∈ uploads -> U.item_status u = uploading ->
               0 <= U.item_progress u <= 100) ->
    0 <= OP.overallProgress (OP.context (U.overallProgressAtom uploads m)) <= 100
    /\ (uploads = [] ->
        OP.overallProgress (OP.context (U.overallProgressAtom uploads m)) = 0)
    /\ (uploads <> [] ->
        (forall u, u ∈ uploads -> U.item_status u = success) ->
        OP.overallProgress (OP.context (U.overallProgressAtom uploads m)) = 100).
Proof.
  intros uploads m H. rewrite overallProgress_value.
  pose proof (total_contribution_bounds uploads H) as Hb.
  split; [|split].
  - case_bool_decide as Hn; [|lia]. split.
    + apply Z.div_pos; lia.
    + enough ((2 * U.total_contribution uploads + Z.of_nat (length uploads))
              / (2 * Z.of_nat (length uploads)) < 101) by lia.
      apply Z.div_lt_upper_bound; lia.
  - intros ->. reflexivity.
  - intros Hne Hall.
    rewrite bool_decide_eq_true_2 by (destruct uploads; [done | simpl; lia]).
    assert (Hsum : U.total_contribution uploads
                   = 100 * Z.of_nat (length uploads)).
    { clear -Hall. induction uploads as [|u uploads IH].
      - reflexivity.
      - unfold U.total_contribution in *. simpl length. simpl.
        unfold U.contribution at 1. rewrite (Hall u) by (by left).
        rewrite IH; [lia|]. intros v Hv. apply Hall. by right. }
    rewrite Hsum.
    assert (0 < Z.of_nat (length uploads)) by (destruct uploads; [done | simpl; lia]).
    symmetry. apply Z.div_unique with (r := Z.of_nat (length uploads)); lia.
Qed.

Lemma X9_overall_progress_witness :
  (forall u, u ∈ [R.record "a" R.fileA 40 uploading None;
                  R.record "c" R.fileC 100 success None] ->
             U.item_status u = uploading -> 0 <= U.item_progress u <= 100)
  /\ 0 <= OP.overallProgress (OP.context (U.overallProgressAtom
            [R.record "a" R.fileA 40 uploading None;
             R.record "c" R.fileC 100 success None]
            OP.createOverallProgressStateMachine)) <= 100
  /\ OP.overallProgress (OP.context (U.overallProgressAtom
            [R.record "c" R.fileC 100 success None]
            OP.createOverallProgressStateMachine)) = 100.
Proof.
  assert (H : forall u, u ∈ [R.record "a" R.fileA 40 uploading None;
                             R.record "c" R.fileC 100 success None] ->
                        U.item_status u = uploading ->
                        0 <= U.item_progress u <= 100).
  { intros u Hu _. apply elem_of_cons in Hu as [->|Hu]; [simpl; lia|].
    apply elem_of_cons in Hu as [->|Hu]; [simpl; lia|].
    by apply elem_of_nil in Hu. }
  assert (H' : forall u, u ∈ [R.record "c" R.fileC 100 success None] ->
                         U.item_status u = uploading ->
                         0 <= U.item_progress u <= 100).
  { intros u Hu _. apply elem_of_cons in Hu as [->|Hu]; [simpl; lia|].
    by apply elem_of_nil in Hu. }
  split; [exact H|]. split.
  - exact (proj1 (X9_overall_progress_bounds _
                    OP.createOverallProgressStateMachine H)).
  - refine (proj2 (proj2 (X9_overall_progress_bounds _
                    OP.createOverallProgressStateMachine H')) _ _).
    + discriminate.
    + intros u Hu. apply elem_of_cons in Hu as [->|Hu]; [reflexivity|].
      by apply elem_of_nil in Hu.
Defined.

(** The statuses split any list of records. *)
Lemma count_split uploads :
  Z.of_nat (length uploads)
  = U.count queued uploads + U.count reserving uploads + U.count ready uploads
    + U.count uploading uploads + U.count success uploads
    + U.count error uploads + U.count canceled uploads.
Proof.
  unfold U.count. induction uploads as [|u uploads IH]; [reflexivity|].
  rewrite !filter_cons. simpl length.
  destruct (U.item_status u) eqn:Hs;
    repeat (first [rewrite decide_True by congruence
                  | rewrite decide_False by congruence]);
    simpl length; lia.
Qed.

(** X10. The counters of the snapshot split the registry: with the queued
    transfers, which have no counter of their own, they add up to
    [totalFiles]. Hence the "all ready" rule of the session machine, which
    subtracts the five others from the total, counts the queued transfers
    as ready. *)
Theorem X10_snapshot_counters_split :
  forall (uploads : list U.UploadItem) (m : OP.Machine),
    OP.totalFiles (OP.context (U.overallProgressAtom uploads m))
    = Z.of_nat (length uploads)
    /\ OP.totalFiles (OP.context (U.overallProgressAtom uploads m))
       = OP.completedFiles (OP.context (U.overallProgressAtom uploads m))
         + OP.failedFiles (OP.context (U.overallProgressAtom uploads m))
         + OP.canceledFiles (OP.context (U.overallProgressAtom uploads m))
         + OP.uploadingFiles (OP.context (U.overallProgressAtom uploads m))
         + OP.preparingFiles (OP.context (U.overallProgressAtom uploads m))
         + OP.readyFiles (OP.context (U.overallProgressAtom uploads m))
         + U.count queued uploads
    /\ OP.totalFiles (OP.context (U.overallProgressAtom uploads m))
       - OP.completedFiles (OP.context (U.overallProgressAtom uploads m))
       - OP.failedFiles (OP.context (U.overallProgressAtom uploads m))
       - OP.canceledFiles (OP.context (U.overallProgressAtom uploads m))
       - OP.uploadingFiles (OP.context (U.overallProgressAtom uploads m))
       - OP.preparingFiles (OP.context (U.overallProgressAtom uploads m))
       = U.count ready uploads + U.count queued uploads.
Proof.
  intros uploads m. unfold U.overallProgressAtom.
  rewrite context_after_updateFromUploads. simpl.
  pose proof (count_split uploads). repeat split; lia.
Qed.

(** ** upload-stats.ts *)

Module US := UploadStats.

Lemma foldl_add_from {A} (g : A -> Z) (l : list A) : forall a,
  foldl (fun a u => a + g u) a l = a + foldl (fun a u => a + g u) 0 l.
Proof.
  induction l as [|x l IH]; intros a; simpl; [lia|].
  rewrite IH, (IH (0 + g x)). lia.
Qed.

Lemma addLoaded_from a u : US.addLoaded a u = a + US.addLoaded 0 u.
Proof. unfold US.addLoaded. case_bool_decide; lia. Qed.

Lemma loadedBytes_from l : forall a,
  foldl US.addLoaded a l = a + foldl US.addLoaded 0 l.
Proof.
  induction l as [|x l IH]; intros a; simpl; [lia|].
  rewrite IH, (IH (US.addLoaded 0 x)), (addLoaded_from a). lia.
Qed.

Lemma addLoaded_bounds u :
  0 <= U.item_fileSize u < 2 ^ 53 -> 0 <= U.item_progress u <= 100 ->
  0 <= US.addLoaded 0 u <= U.item_fileSize u.
Proof.
  intros Hs Hp. unfold US.addLoaded. case_bool_decide; [lia|].
  pose proof (share_bounds _ _ Hs Hp). lia.
Qed.

Lemma addLoaded_whole u :
  0 <= U.item_fileSize u < 2 ^ 53 ->
  U.item_status u = success \/ U.item_progress u = 100 ->
  US.addLoaded 0 u = U.item_fileSize u.
Proof.
  intros Hs Hw. unfold US.addLoaded. case_bool_decide as Hc; [lia|].
  destruct Hw as [?|Hp]; [done|]. rewrite Hp, (share_all _ Hs). lia.
Qed.

Lemma totalBytes_nonneg (items : list U.UploadItem) :
  (forall u, u ∈ items -> 0 <= U.item_fileSize u) ->
  0 <= foldl (fun a u => a + U.item_fileSize u) 0 items.
Proof.
  induction items as [|u items IH]; intros H; simpl; [lia|].
  rewrite (foldl_add_from U.item_fileSize).
  pose proof (H u ltac:(by left)).
  pose proof (IH (fun v Hv => H v ltac:(by right))). lia.
Qed.

(** X11. The five counters of [uploadStatsAtom] split the registry: in
    progress, queued (which here includes ready), success, error and
    canceled add up to [totalFiles]. *)
Theorem X11_stats_counters_split :
  forall items : list U.UploadItem,
    US.totalFiles (US.uploadStats items)
    = US.inProgressFiles (US.uploadStats items)
      + US.queuedFiles (US.uploadStats items)
      + US.successFiles (US.uploadStats items)
      + US.errorFiles (US.uploadStats items)
      + US.canceledFiles (US.uploadStats items).
Proof.
  intros items. unfold US.uploadStats, US.countIf. simpl.
  induction items as [|u items IH]; [reflexivity|].
  rewrite !filter_cons. simpl length.
  destruct (U.item_status u) eqn:Hs;
    repeat (first [rewrite decide_True by (rewrite Hs; auto)
                  | rewrite decide_False by (rewrite Hs; intuition congruence)]);
    simpl length; lia.
Qed.

(** X12. The byte counters of [uploadStatsAtom], the shares computed in
    doubles: with sizes that are not negative and add up to less than
    [2^53], and every progress between 0 and 100, [loadedBytes] lies
    between 0 and [totalBytes]; the two are equal when every transfer is in
    success or at progress 100. *)
Theorem X12_loaded_bytes_bounds :
  forall items : list U.UploadItem,
    (forall u, u ∈ items ->
               0 <= U.item_fileSize u /\ 0 <= U.item_progress u <= 100) ->
    US.totalBytes (US.uploadStats items) < 2 ^ 53 ->
    0 <= US.loadedBytes (US.uploadStats items)
      <= US.totalBytes (US.uploadStats items)
    /\ ((forall u, u ∈ items ->
                   U.item_status u = success \/ U.item_progress u = 100) ->
        US.loadedBytes (US.uploadStats items)
        = US.totalBytes (US.uploadStats items)).
Proof.
  unfold US.uploadStats. simpl.
  induction items as [|u items IH]; intros H Htot; [simpl; split; [lia|done]|].
  simpl in *.
  rewrite loadedBytes_from. rewrite (foldl_add_from U.item_fileSize) in *.
  destruct (H u) as [Hsz Hp]; [by left|].
  pose proof (totalBytes_nonneg items
                (fun v Hv => proj1 (H v ltac:(by right)))) as Hrest.
  destruct IH as [IHb IHe]; [intros v Hv; apply H; by right|lia|].
  assert (Hs : 0 <= U.item_fileSize u < 2 ^ 53) by lia.
  pose proof (addLoaded_bounds u Hs Hp) as Hshare.
  split; [lia|].
  intros Hall. rewrite IHe by (intros v Hv; apply Hall; by right).
  rewrite (addLoaded_whole u Hs) by (apply Hall; by left). lia.
Qed.

Lemma X12_loaded_bytes_witness :
  (forall u, u ∈ [R.record "a" R.fileA 57 uploading None] ->
             0 <= U.item_fileSize u /\ 0 <= U.item_progress u <= 100)
  /\ US.totalBytes (US.uploadStats [R.record "a" R.fileA 57 uploading None])
     < 2 ^ 53
  /\ 0 <= US.loadedBytes (US.uploadStats [R.record "a" R.fileA 57 uploading None])
       <= US.totalBytes (US.uploadStats [R.record "a" R.fileA 57 uploading None]).
Proof.
  assert (H : forall u, u ∈ [R.record "a" R.fileA 57 uploading None] ->
                        0 <= U.item_fileSize u /\ 0 <= U.item_progress u <= 100).
  { intros u Hu. apply elem_of_cons in Hu as [->|Hu]; [simpl; lia|].
    by apply elem_of_nil in Hu. }
  assert (Ht : US.totalBytes (US.uploadStats [R.record "a" R.fileA 57 uploading None])
               < 2 ^ 53) by reflexivity.
  split; [exact H|]. split; [exact Ht|].
  exact (proj1 (X12_loaded_bytes_bounds _ H Ht)).
Defined.

(** ** The registry under updates *)

(** What a record written by the setter reads back as. *)
Lemma reread_fields k v :
  U.item_id (U.rehydrate {[ k := U.item_file v ]} k (U.project v)) = U.item_id v
  /\ U.item_file (U.rehydrate {[ k := U.item_file v ]} k (U.project v))
     = U.item_file v
  /\ U.item_fileSize (U.rehydrate {[ k := U.item_file v ]} k (U.project v))
     = file_size (U.item_file v)
  /\ U.item_status (U.rehydrate {[ k := U.item_file v ]} k (U.project v))
     = U.item_status v
  /\ U.item_progress (U.rehydrate {[ k := U.item_file v ]} k (U.project v))
     = U.item_progress v
  /\ U.item_error (U.rehydrate {[ k := U.item_file v ]} k (U.project v))
     = U.item_error v
  /\ R.destination (U.rehydrate {[ k := U.item_file v ]} k (U.project v))
     = R.destination v
  /\ U.item_controller (U.rehydrate {[ k := U.item_file v ]} k (U.project v))
     = None.
Proof.
  unfold U.rehydrate, FileCache.get. rewrite lookup_singleton_eq.
  by repeat split.
Qed.

Lemma updateUploadAtom_unknown st id updates :
  U.get_uploadsAtom st !! id = None -> U.updateUploadAtom id updates st = st.
Proof. intros H. unfold U.updateUploadAtom. by rewrite H. Qed.

Lemma updateUploadAtom_lookup st id updates u k :
  U.get_uploadsAtom st !! id = Some u ->
  U.get_uploadsAtom (U.updateUploadAtom id updates st) !! k
  = if decide (k = id)
    then Some (U.rehydrate {[ k := U.item_file (U.mergeItem u updates) ]} k
                 (U.project (U.mergeItem u updates)))
    else (fun v => U.rehydrate {[ k := U.item_file v ]} k (U.project v))
           <$> U.get_uploadsAtom st !! k.
Proof.
  intros H. unfold U.updateUploadAtom. rewrite H, get_set_uploadsAtom.
  destruct (decide (k = id)) as [->|Hne].
  - by rewrite lookup_insert_eq.
  - by rewrite lookup_insert_ne.
Qed.

(** X13. [updateUploadAtom]. For an id the registry does not hold it leaves
    the store as it is. Otherwise the record read back has the status,
    progress, error, destination, id and file of the merge of the old
    record with the updates, but never a controller, whatever the updates
    say; every other record keeps its status, progress, error, destination,
    id and file, and none appears or disappears. *)
Theorem X13_updateUploadAtom_merges :
  forall (st : U.Store) (id : string) (updates : U.PartialUploadItem),
    (U.get_uploadsAtom st !! id = None ->
     U.updateUploadAtom id updates st = st)
    /\ (forall u, U.get_uploadsAtom st !! id = Some u ->
          exists u',
            U.get_uploadsAtom (U.updateUploadAtom id updates st) !! id = Some u'
            /\ U.item_status u' = spread (U.item_status u) (U.u_status updates)
            /\ U.item_progress u' = spread (U.item_progress u) (U.u_progress updates)
            /\ U.item_error u' = spread (U.item_error u) (U.u_error updates)
            /\ R.destination u'
               = (spread (U.item_remoteId u) (U.u_remoteId updates),
                  spread (U.item_uploadUrl u) (U.u_uploadUrl updates),
                  spread (U.item_method u) (U.u_method updates))
            /\ U.item_id u' = spread (U.item_id u) (U.u_id updates)
            /\ U.item_file u' = spread (U.item_file u) (U.u_file updates)
            /\ U.item_controller u' = None)
    /\ (forall k, k <> id ->
          match U.get_uploadsAtom st !! k with
          | Some v =>
              exists v',
                U.get_uploadsAtom (U.updateUploadAtom id updates st) !! k = Some v'
                /\ U.item_status v' = U.item_status v
                /\ U.item_progress v' = U.item_progress v
                /\ U.item_error v' = U.item_error v
                /\ R.destination v' = R.destination v
                /\ U.item_id v' = U.item_id v
                /\ U.item_file v' = U.item_file v
          | None =>
              U.get_uploadsAtom (U.updateUploadAtom id updates st) !! k = None
          end).
Proof.
  intros st id updates. split; [apply updateUploadAtom_unknown|]. split.
  - intros u Hu. rewrite (updateUploadAtom_lookup st id updates u id Hu).
    rewrite decide_True by done. eexists. split; [reflexivity|].
    destruct (reread_fields id (U.mergeItem u updates))
      as (H1 & H2 & _ & H4 & H5 & H6 & H7 & H8).
    rewrite H1, H2, H4, H5, H6, H7, H8. by repeat split.
  - intros k Hk.
    destruct (U.get_uploadsAtom st !! id) as [u|] eqn:Hu.
    + rewrite (updateUploadAtom_lookup st id updates u k Hu).
      rewrite decide_False by done.
      destruct (U.get_uploadsAtom st !! k) as [v|]; simpl; [|reflexivity].
      eexists. split; [reflexivity|].
      destruct (reread_fields k v) as (H1 & H2 & _ & H4 & H5 & H6 & H7 & _).
      rewrite H1, H2, H4, H5, H6, H7. by repeat split.
    + rewrite updateUploadAtom_unknown by done.
      destruct (U.get_uploadsAtom st !! k) as [v|] eqn:Hv; [|reflexivity].
      exists v. by repeat split.
Qed.

Lemma X13_updateUploadAtom_witness :
  (U.get_uploadsAtom R.doneStore !! "zz" = None
   /\ U.updateUploadAtom "zz" U.resetUpdate R.doneStore = R.doneStore)
  /\ (U.get_uploadsAtom R.batchStore !! "a"
      = Some (U.rehydrate (U.fileCache R.batchStore) "a"
                (R.entry "a" R.fileA 40 uploading))
      /\ exists u',
           U.get_uploadsAtom (U.updateUploadAtom "a" U.resetUpdate R.batchStore)
             !! "a" = Some u'
           /\ U.item_status u' = ready)
  /\ ("c" <> "a"
      /\ exists v',
           U.get_uploadsAtom (U.updateUploadAtom "a" U.resetUpdate R.batchStore)
             !! "c" = Some v'
           /\ U.item_status v' = success).
Proof.
  split; [|split].
  - split; [reflexivity|].
    exact (proj1 (X13_updateUploadAtom_merges R.doneStore "zz" U.resetUpdate)
             eq_refl).
  - split; [reflexivity|].
    destruct (proj1 (proj2 (X13_updateUploadAtom_merges R.batchStore "a"
                              U.resetUpdate)) _ eq_refl)
      as (u' & Hu' & Hs & _).
    exists u'. split; [exact Hu' | exact Hs].
  - assert (Hne : "c" <> "a") by discriminate.
    split; [exact Hne|].
    pose proof (proj2 (proj2 (X13_updateUploadAtom_merges R.batchStore "a"
                                U.resetUpdate)) "c" Hne) as H.
    change (U.get_uploadsAtom R.batchStore !! "c")
      with (Some (U.rehydrate (U.fileCache R.batchStore) "c"
                    (R.entry "c" R.fileC 100 success))) in H.
    destruct H as (v' & Hv' & Hs & _).
    exists v'. split; [exact Hv' | exact Hs].
Defined.

(** ** The steps of a transfer *)

(** X14. [onUploadProgress] stores a percentage, computed in doubles: for
    [0 <= loaded <= total] and a positive total the progress read back is
    a whole number between 0 and 100, 0 when nothing is loaded and 100 when
    all is, and it is the exactly rounded percentage
    [floor ((200 * loaded + total) / (2 * total))] or differs from it by
    one; the status is untouched. An undefined or zero total leaves the
    store as it is. *)
Theorem X14_progress_is_a_percentage :
  forall (st : U.Store) (upload u : U.UploadItem) (loaded total : Z),
    (U.onUploadProgress upload loaded None st = st
     /\ U.onUploadProgress upload loaded (Some 0) st = st)
    /\ (U.get_uploadsAtom st !! U.item_id upload = Some u ->
        0 <= loaded <= total -> 0 < total ->
        exists u',
          U.get_uploadsAtom (U.onUploadProgress upload loaded (Some total) st)
            !! U.item_id upload = Some u'
          /\ U.item_progress u' = U.percent loaded total
          /\ 0 <= U.item_progress u' <= 100
          /\ (loaded = 0 -> U.item_progress u' = 0)
          /\ (loaded = total -> U.item_progress u' = 100)
          /\ Z.abs (U.item_progress u' - (200 * loaded + total) / (2 * total))
             <= 1
          /\ U.item_status u' = U.item_status u).
Proof.
  intros st upload u loaded total. split; [by split|].
  intros Hu Hl Ht. unfold U.onUploadProgress.
  rewrite bool_decide_eq_false_2 by lia.
  rewrite (updateUploadAtom_lookup st _ _ u _ Hu), decide_True by done.
  eexists. split; [reflexivity|].
  match goal with |- context [U.rehydrate _ _ (U.project ?v)] =>
    destruct (reread_fields (U.item_id upload) v)
      as (_ & _ & _ & H4 & H5 & _) end.
  rewrite H4, H5. simpl. split; [reflexivity|].
  split; [by apply percent_bounds|].
  split; [intros ->; by apply percent_zero|].
  split; [intros ->; by apply percent_full|].
  split; [by apply percent_near_exact | reflexivity].
Qed.

Lemma X14_progress_witness :
  U.get_uploadsAtom R.batchStore !! U.item_id (R.record "a" R.fileA 40 uploading None)
  = Some (U.rehydrate (U.fileCache R.batchStore) "a"
            (R.entry "a" R.fileA 40 uploading))
  /\ 0 <= 29 <= 200 /\ 0 < 200
  /\ exists u',
       U.get_uploadsAtom
         (U.onUploadProgress (R.record "a" R.fileA 40 uploading None)
            29 (Some 200) R.batchStore)
         !! U.item_id (R.record "a" R.fileA 40 uploading None) = Some u'
       /\ U.item_progress u' = 14.
Proof.
  split; [reflexivity|]. split; [lia|]. split; [lia|].
  destruct (proj2 (X14_progress_is_a_percentage R.batchStore
                     (R.record "a" R.fileA 40 uploading None) _ 29 200)
              eq_refl ltac:(lia) ltac:(lia)) as (u' & Hu' & Hp & _).
  exists u'. split; [exact Hu'|]. rewrite Hp. reflexivity.
Defined.

Lemma removeUploadAtom_gone st id :
  U.get_uploadsAtom (U.removeUploadAtom id st) !! id = None.
Proof.
  unfold U.removeUploadAtom. rewrite get_uploadsAtom_lookup.
  unfold U.set_serializableUploadsAtom. simpl. by rewrite lookup_delete_eq.
Qed.

(** X15. A transfer that was removed is not brought back by what its
    reservation or its transfer reports later: after [removeUploadAtom],
    each of the steps of [reserveUploadUrl], [performSimpleUpload] and the
    handlers of [startUploadsAtom] for that id leaves the store as it is. *)
Theorem X15_late_steps_are_dropped :
  forall (st : U.Store) (upload : U.UploadItem) (c : AbortController)
         (rid url : option string) (msg : string) (loaded : Z) (total : option Z),
    let st' := U.removeUploadAtom (U.item_id upload) st in
    U.reserved (U.item_id upload) rid url st' = st'
    /\ U.reserveFailed (U.item_id upload) msg st' = st'
    /\ U.uploadBegun c upload st' = st'
    /\ U.onUploadProgress upload loaded total st' = st'
    /\ U.uploadSucceeded upload st' = st'
    /\ U.uploadThrew upload st' = st'
    /\ U.uploadAborted upload st' = st'
    /\ U.uploadFailed upload msg st' = st'.
Proof.
  intros st upload c rid url msg loaded total st'.
  pose proof (removeUploadAtom_gone st (U.item_id upload)) as Hgone.
  fold st' in Hgone.
  unfold U.reserved, U.reserveFailed, U.uploadBegun, U.onUploadProgress,
    U.uploadSucceeded, U.uploadThrew, U.uploadAborted, U.uploadFailed.
  repeat split; try (by apply updateUploadAtom_unknown).
  destruct total as [t|]; [|reflexivity].
  case_bool_decide; [reflexivity | by apply updateUploadAtom_unknown].
Qed.

Lemma clearAll_loop_no_controller cache log (m : gmap string U.UploadItem) :
  (forall k u, m !! k = Some u -> U.item_controller u = None) ->
  (map_fold (fun _ upload acc => U.clearOne upload acc) (cache, log) m).2 = log.
Proof.
  apply (map_fold_weak_ind
    (fun r m => (forall k u, m !! k = Some u -> U.item_controller u = None) ->
                r.2 = log)).
  - done.
  - intros i x m' r Hi IH H. unfold U.clearOne. simpl.
    assert (Hx : U.item_controller x = None)
      by (apply (H i); by rewrite lookup_insert_eq).
    assert (IH' : r.2 = log).
    { apply IH. intros k u Hk. apply (H k). rewrite lookup_insert_ne; [done|].
      intros ->. congruence. }
    rewrite Hx. simpl. exact IH'.
Qed.

(** X16. No write atom ever aborts a controller. A record read from the
    registry has no controller, so the guarded [controller.abort()] of
    [cancelUploadAtom], [cancelAllActiveUploadsAtom], [removeUploadAtom]
    and [clearAllUploadsAtom] never runs: the log of aborted controllers is
    the same before and after, also for the controller [performSimpleUpload]
    has just handed to [updateUploadAtom]. *)
Theorem X16_no_controller_is_aborted :
  forall (st : U.Store) (id : string) (c : AbortController)
         (upload : U.UploadItem),
    U.aborted (U.cancelUploadAtom id st) = U.aborted st
    /\ U.aborted (U.cancelAllActiveUploadsAtom st) = U.aborted st
    /\ U.aborted (U.removeUploadAtom id st) = U.aborted st
    /\ U.aborted (U.clearAllUploadsAtom st) = U.aborted st
    /\ U.aborted (U.cancelUploadAtom (U.item_id upload)
                    (U.uploadBegun c upload st)) = U.aborted st
    /\ U.aborted (U.cancelAllActiveUploadsAtom (U.uploadBegun c upload st))
       = U.aborted st.
Proof.
  assert (Hcancel : forall st id,
            U.aborted (U.cancelUploadAtom id st) = U.aborted st).
  { intros st id.
    destruct (U.get_uploadsAtom st !! id) as [u|] eqn:Hu.
    - destruct (cancelUploadAtom_lookup st id u Hu) as [_ ->].
      by rewrite (registry_record_has_no_controller st id u Hu).
    - unfold U.cancelUploadAtom. by rewrite Hu. }
  assert (Hall : forall st,
            U.aborted (U.cancelAllActiveUploadsAtom st) = U.aborted st).
  { intros st. unfold U.cancelAllActiveUploadsAtom, U.cancelAllActive_forEach.
    pose proof (cancelAll_loop_no_controller (U.get_uploadsAtom st)
                  (U.serializableUploads st) (U.aborted st)
                  (U.get_uploadsAtom st)
                  (registry_record_has_no_controller st)) as H.
    destruct (U.loop_hasChanges _); simpl; exact H. }
  intros st id c upload. split; [apply Hcancel|]. split; [apply Hall|].
  split; [|split; [|split]].
  - unfold U.removeUploadAtom.
    destruct (U.get_uploadsAtom st !! id) as [u|] eqn:Hu; [|reflexivity].
    simpl. by rewrite (registry_record_has_no_controller st id u Hu).
  - unfold U.clearAllUploadsAtom. simpl.
    apply clearAll_loop_no_controller, registry_record_has_no_controller.
  - rewrite Hcancel. apply updateUploadAtom_aborted.
  - rewrite Hall. apply updateUploadAtom_aborted.
Qed.

(** X17. A transfer that completes after it was cancelled ends in success:
    [cancelUploadAtom] marks the record canceled, and the completion step
    of [performSimpleUpload], which does not look at the status, then marks
    it success at progress 100 with no error. *)
Theorem X17_completion_overrides_cancel :
  forall (st : U.Store) (upload u : U.UploadItem),
    U.get_uploadsAtom st !! U.item_id upload = Some u ->
    (exists u1,
        U.get_uploadsAtom (U.cancelUploadAtom (U.item_id upload) st)
          !! U.item_id upload = Some u1
        /\ U.item_status u1 = canceled)
    /\ exists u2,
         U.get_uploadsAtom
           (U.uploadSucceeded upload (U.cancelUploadAtom (U.item_id upload) st))
           !! U.item_id upload = Some u2
         /\ U.item_status u2 = success
         /\ U.item_progress u2 = 100
         /\ U.item_error u2 = None.
Proof.
  intros st upload u Hu.
  destruct (cancelUploadAtom_lookup st _ u Hu) as [Hc _].
  split.
  - eexists. split; [exact Hc|].
    by destruct (rehydrate_present {[ U.item_id upload := U.item_file u ]}
                   (U.item_id upload)
                   (U.canceledEntry (U.project (U.canceledCopy u)))
                   (U.item_file u) (lookup_singleton_eq _ _))
      as (_ & _ & _ & -> & _).
  - unfold U.uploadSucceeded.
    rewrite (updateUploadAtom_lookup _ _ _ _ _ Hc), decide_True by done.
    eexists. split; [reflexivity|].
    match goal with |- context [U.rehydrate _ _ (U.project ?v)] =>
      destruct (reread_fields (U.item_id upload) v)
        as (_ & _ & _ & H4 & H5 & H6 & _) end.
    rewrite H4, H5, H6. by repeat split.
Qed.

Lemma X17_completion_witness :
  U.get_uploadsAtom R.batchStore !! U.item_id (R.record "a" R.fileA 40 uploading None)
  = Some (U.rehydrate (U.fileCache R.batchStore) "a"
            (R.entry "a" R.fileA 40 uploading))
  /\ exists u2,
       U.get_uploadsAtom
         (U.uploadSucceeded (R.record "a" R.fileA 40 uploading None)
            (U.cancelUploadAtom
               (U.item_id (R.record "a" R.fileA 40 uploading None)) R.batchStore))
         !! U.item_id (R.record "a" R.fileA 40 uploading None) = Some u2
       /\ U.item_status u2 = success.
Proof.
  split; [reflexivity|].
  destruct (proj2 (X17_completion_overrides_cancel R.batchStore
                     (R.record "a" R.fileA 40 uploading None) _ eq_refl))
    as (u2 & Hu2 & Hs & _).
  exists u2. split; [exact Hu2 | exact Hs].
Defined.

(** ** Removing and clearing *)

Lemma removeUploadAtom_lookup_other st id k :
  k <> id ->
  U.get_uploadsAtom (U.removeUploadAtom id st) !! k
  = (fun v => U.rehydrate {[ k := U.item_file v ]} k (U.project v))
      <$> U.get_uploadsAtom st !! k.
Proof.
  intros Hk. unfold U.removeUploadAtom.
  set (st1 := match U.get_uploadsAtom st !! id with
              | Some _ => _ | None => st end).
  rewrite (get_uploadsAtom_lookup (U.set_serializableUploadsAtom _ _)).
  unfold U.set_serializableUploadsAtom, U.set_uploadsAtom. simpl.
  rewrite !uploadsAtom_write_spec. simpl.
  rewrite lookup_delete_ne, lookup_fmap, lookup_delete_ne by done.
  destruct (U.get_uploadsAtom st !! k) as [v|] eqn:Hv; simpl; [|reflexivity].
  f_equal. apply rehydrate_hit. apply lookup_union_Some_l.
  by rewrite lookup_fmap, lookup_delete_ne, Hv.
Qed.

(** X18. [removeUploadAtom] removes one record: afterwards the id is absent
    from the registry and from the persisted store, its payload is evicted
    from the file cache when the registry held it, and every other record
    keeps its status, progress, error, destination, id and file. *)
Theorem X18_remove_removes_one :
  forall (st : U.Store) (id : string),
    U.get_uploadsAtom (U.removeUploadAtom id st) !! id = None
    /\ U.serializableUploads (U.removeUploadAtom id st) !! id = None
    /\ (is_Some (U.get_uploadsAtom st !! id) ->
        U.fileCache (U.removeUploadAtom id st) !! id = None)
    /\ (forall k, k <> id ->
          match U.get_uploadsAtom st !! k with
          | Some v =>
              exists v',
                U.get_uploadsAtom (U.removeUploadAtom id st) !! k = Some v'
                /\ U.item_status v' = U.item_status v
                /\ U.item_progress v' = U.item_progress v
                /\ U.item_error v' = U.item_error v
                /\ R.destination v' = R.destination v
                /\ U.item_id v' = U.item_id v
                /\ U.item_file v' = U.item_file v
          | None => U.get_uploadsAtom (U.removeUploadAtom id st) !! k = None
          end).
Proof.
  intros st id. split; [apply removeUploadAtom_gone|]. split; [|split].
  - unfold U.removeUploadAtom, U.set_serializableUploadsAtom. simpl.
    by rewrite lookup_delete_eq.
  - intros H. by apply removeUploadAtom_evicts.
  - intros k Hk.
    rewrite (removeUploadAtom_lookup_other st id k Hk).
    destruct (U.get_uploadsAtom st !! k) as [v|] eqn:Hv; simpl; [|reflexivity].
    eexists. split; [reflexivity|].
    destruct (reread_fields k v) as (H1 & H2 & _ & H4 & H5 & H6 & H7 & _).
    rewrite H1, H2, H4, H5, H6, H7. by repeat split.
Qed.

Lemma X18_remove_witness :
  (is_Some (U.get_uploadsAtom R.batchStore !! "c")
   /\ U.fileCache (U.removeUploadAtom "c" R.batchStore) !! "c" = None)
  /\ ("a" <> "c"
      /\ exists v',
           U.get_uploadsAtom (U.removeUploadAtom "c" R.batchStore) !! "a"
           = Some v'
           /\ U.item_status v' = uploading).
Proof.
  split.
  - assert (H : is_Some (U.get_uploadsAtom R.batchStore !! "c"))
      by (eexists; reflexivity).
    split; [exact H|].
    exact (proj1 (proj2 (proj2 (X18_remove_removes_one R.batchStore "c"))) H).
  - assert (Hne : "a" <> "c") by discriminate.
    split; [exact Hne|].
    pose proof (proj2 (proj2 (proj2 (X18_remove_removes_one R.batchStore "c")))
                  "a" Hne) as H.
    change (U.get_uploadsAtom R.batchStore !! "a")
      with (Some (U.rehydrate (U.fileCache R.batchStore) "a"
                    (R.entry "a" R.fileA 40 uploading))) in H.
    destruct H as (v' & Hv' & Hs & _).
    exists v'. split; [exact Hv' | exact Hs].
Defined.

Lemma clearAll_loop_cache cache log (m : gmap string U.UploadItem) k :
  R.keyed_by_id m ->
  (map_fold (fun _ upload acc => U.clearOne upload acc) (cache, log) m).1 !! k
  = match m !! k with Some _ => None | None => cache !! k end.
Proof.
  revert k.
  apply (map_fold_weak_ind
    (fun r m => forall k, R.keyed_by_id m ->
       r.1 !! k = match m !! k with Some _ => None | None => cache !! k end)).
  - intros k _. by rewrite lookup_empty.
  - intros i x m' r Hi IH k Hkeyed.
    destruct (keyed_insert_inv _ _ _ Hi Hkeyed) as [Hid Hm].
    unfold U.clearOne, FileCache.delete. simpl. rewrite Hid.
    destruct (decide (i = k)) as [->|Hne].
    + by rewrite lookup_delete_eq, lookup_insert_eq.
    + rewrite lookup_delete_ne, lookup_insert_ne by done. by apply IH.
Qed.

(** X19. [clearAllUploadsAtom] empties the registry and the persisted
    store, and, every record sitting under its id, evicts from the file
    cache the payload of every record the registry held; a cache entry
    under an id the registry did not hold stays. *)
Theorem X19_clearAll_empties :
  forall (st : U.Store) (k : string),
    U.get_uploadsAtom (U.clearAllUploadsAtom st) !! k = None
    /\ U.serializableUploads (U.clearAllUploadsAtom st) = ∅
    /\ (R.well_keyed st ->
        U.fileCache (U.clearAllUploadsAtom st) !! k
        = match U.get_uploadsAtom st !! k with
          | Some _ => None
          | None => U.fileCache st !! k
          end).
Proof.
  intros st k. split; [|split].
  - rewrite get_uploadsAtom_lookup. unfold U.clearAllUploadsAtom. simpl.
    by rewrite lookup_empty.
  - reflexivity.
  - intros Hw. unfold U.clearAllUploadsAtom, U.set_uploadsAtom. simpl.
    rewrite uploadsAtom_write_spec. simpl.
    rewrite fmap_empty, (left_id_L ∅ (∪)).
    apply clearAll_loop_cache. by apply get_uploadsAtom_keyed.
Qed.

Lemma X19_clearAll_witness :
  R.well_keyed R.batchStore
  /\ U.fileCache (U.clearAllUploadsAtom R.batchStore) !! "a" = None.
Proof.
  assert (Hw : R.well_keyed R.batchStore).
  { apply (bool_decide_unpack
             (map_Forall (fun k item => s_id item = k)
                         (U.serializableUploads R.batchStore))).
    vm_compute. exact I. }
  split; [exact Hw|].
  exact (proj2 (proj2 (X19_clearAll_empties R.batchStore "a")) Hw).
Defined.

Lemma dropCompleted_lookup s k :
  R.keyed_by_id s ->
  U.dropCompleted s !! k
  = match s !! k with
    | Some u =>
        if negb (bool_decide (U.item_status u = success))
           && negb (bool_decide (U.item_status u = canceled))
        then Some u else None
    | None => None
    end.
Proof.
  unfold U.dropCompleted. revert k.
  apply (map_fold_weak_ind
    (fun r m => forall k, R.keyed_by_id m ->
       r !! k = match m !! k with
                | Some u =>
                    if negb (bool_decide (U.item_status u = success))
                       && negb (bool_decide (U.item_status u = canceled))
                    then Some u else None
                | None => None
                end)).
  - intros k _. by rewrite !lookup_empty.
  - intros i x m r Hi IH k Hkeyed.
    destruct (keyed_insert_inv _ _ _ Hi Hkeyed) as [Hid Hm].
    destruct (decide (i = k)) as [->|Hne].
    + rewrite lookup_insert_eq. destruct (_ && _).
      * by rewrite Hid, lookup_insert_eq.
      * by rewrite IH, Hi.
    + rewrite (lookup_insert_ne m) by done. destruct (_ && _).
      * rewrite Hid, lookup_insert_ne by done. by apply IH.
      * by apply IH.
Qed.

(** X20. [clearCompletedAtom], every record sitting under its id: the
    records in success or canceled leave the registry, every other record
    stays with its status, progress, error, destination, id and file, and
    no record in success or canceled is left. Like
    [clearRemovableUploadsAtom] it evicts nothing from the file cache. *)
Theorem X20_clearCompleted_drops_finished :
  forall (st : U.Store),
    R.well_keyed st ->
    (forall k u, U.get_uploadsAtom st !! k = Some u ->
        if bool_decide (U.item_status u = success \/ U.item_status u = canceled)
        then U.get_uploadsAtom (U.clearCompletedAtom st) !! k = None
        else exists u',
               U.get_uploadsAtom (U.clearCompletedAtom st) !! k = Some u'
               /\ U.item_status u' = U.item_status u
               /\ U.item_progress u' = U.item_progress u
               /\ U.item_error u' = U.item_error u
               /\ R.destination u' = R.destination u
               /\ U.item_id u' = U.item_id u
               /\ U.item_file u' = U.item_file u)
    /\ (forall k u', U.get_uploadsAtom (U.clearCompletedAtom st) !! k = Some u' ->
          U.item_status u' <> success /\ U.item_status u' <> canceled)
    /\ (forall k, is_Some (U.fileCache st !! k) ->
          is_Some (U.fileCache (U.clearCompletedAtom st) !! k)).
Proof.
  intros st Hw.
  pose proof (get_uploadsAtom_keyed st Hw) as Hkeyed.
  assert (Hlook : forall k,
    U.get_uploadsAtom (U.clearCompletedAtom st) !! k
    = match U.get_uploadsAtom st !! k with
      | Some u =>
          if negb (bool_decide (U.item_status u = success))
             && negb (bool_decide (U.item_status u = canceled))
          then Some (U.rehydrate {[ k := U.item_file u ]} k (U.project u))
          else None
      | None => None
      end).
  { intros k. unfold U.clearCompletedAtom.
    rewrite get_set_uploadsAtom, dropCompleted_lookup by done.
    destruct (U.get_uploadsAtom st !! k) as [u|]; [|reflexivity].
    by destruct (_ && _). }
  split; [|split].
  - intros k u Hu. rewrite Hlook, Hu.
    destruct (reread_fields k u) as (H1 & H2 & _ & H4 & H5 & H6 & H7 & _).
    repeat case_bool_decide; simpl; try (exfalso; tauto); try reflexivity.
    eexists. split; [reflexivity|].
    rewrite H1, H2, H4, H5, H6, H7. by repeat split.
  - intros k u'. rewrite Hlook.
    destruct (U.get_uploadsAtom st !! k) as [u|]; [|discriminate].
    destruct (reread_fields k u) as (_ & _ & _ & H4 & _).
    repeat case_bool_decide; simpl; try discriminate.
    intros [= <-]. rewrite H4. by split.
  - intros k [f Hf]. unfold U.clearCompletedAtom, U.set_uploadsAtom. simpl.
    rewrite uploadsAtom_write_spec. simpl.
    destruct ((U.item_file <$> U.dropCompleted (U.get_uploadsAtom st)) !! k)
      as [g|] eqn:Hg.
    + exists g. by apply lookup_union_Some_l.
    + exists f. rewrite lookup_union_r; done.
Qed.

Lemma X20_clearCompleted_witness :
  R.well_keyed R.batchStore
  /\ U.get_uploadsAtom R.batchStore !! "c"
     = Some (U.rehydrate (U.fileCache R.batchStore) "c"
               (R.entry "c" R.fileC 100 success))
  /\ U.get_uploadsAtom (U.clearCompletedAtom R.batchStore) !! "c" = None
  /\ is_Some (U.fileCache R.batchStore !! "c")
  /\ is_Some (U.fileCache (U.clearCompletedAtom R.batchStore) !! "c").
Proof.
  assert (Hw : R.well_keyed R.batchStore).
  { apply (bool_decide_unpack
             (map_Forall (fun k item => s_id item = k)
                         (U.serializableUploads R.batchStore))).
    vm_compute. exact I. }
  assert (Hc : is_Some (U.fileCache R.batchStore !! "c"))
    by (eexists; reflexivity).
  split; [exact Hw|]. split; [reflexivity|]. split.
  - exact (proj1 (X20_clearCompleted_drops_finished R.batchStore Hw)
             "c" _ eq_refl).
  - split; [exact Hc|].
    exact (proj2 (proj2 (X20_clearCompleted_drops_finished R.batchStore Hw))
             "c" Hc).
Defined.

(** ** Who is transmitted, who is retried *)

(** X21. The transfers [startUploadsAtom] transmits are exactly the records
    of the registry with a non-empty upload URL, a non-empty id and a
    status other than error: the placeholder test excludes no record, and
    a record already uploading, in success or canceled is transmitted
    again when it has a URL. *)
Theorem X21_ready_uploads :
  forall (st : U.Store) (u : U.UploadItem),
    u ∈ U.readyUploadsAtom st
    <-> (exists k, U.get_uploadsAtom st !! k = Some u)
        /\ (exists url, U.item_uploadUrl u = Some url /\ url <> "")
        /\ U.item_id u <> ""
        /\ U.item_status u <> error.
Proof.
  intros st u. unfold U.readyUploadsAtom.
  rewrite list_elem_of_filter, values_elem_of. split.
  - intros [Hf [k Hk]].
    rewrite (registry_record_never_placeholder st k u Hk) in Hf.
    simpl in Hf. rewrite andb_true_r in Hf.
    apply andb_true_iff in Hf as [Hf Hs].
    apply andb_true_iff in Hf as [Hurl Hid].
    split; [eauto|]. repeat split.
    + unfold U.truthy in Hurl. destruct (U.item_uploadUrl u) as [url|];
        [|discriminate].
      exists url. split; [reflexivity|].
      apply negb_true_iff, bool_decide_eq_false in Hurl. exact Hurl.
    + simpl in Hid. apply negb_true_iff, bool_decide_eq_false in Hid. exact Hid.
    + apply negb_true_iff, bool_decide_eq_false in Hs. exact Hs.
  - intros ([k Hk] & (url & Hurl & Hne) & Hid & Hs). split; [|eauto].
    rewrite (registry_record_never_placeholder st k u Hk).
    rewrite Hurl. simpl.
    rewrite !bool_decide_eq_false_2 by done. reflexivity.
Qed.

Lemma X21_ready_uploads_witness :
  ((exists k, U.get_uploadsAtom
                (U.reserved "c" (Some "r1") (Some "/api/upload/r1") R.doneStore)
                !! k
              = Some (U.rehydrate {[ "c" := R.fileC ]} "c"
                        (mkSerializable "c" "c.txt" 3000 "text/plain" 0 100 ready
                           None (Some "r1") (Some "/api/upload/r1") (Some PUT))))
   /\ U.rehydrate {[ "c" := R.fileC ]} "c"
        (mkSerializable "c" "c.txt" 3000 "text/plain" 0 100 ready
           None (Some "r1") (Some "/api/upload/r1") (Some PUT))
      ∈ U.readyUploadsAtom
          (U.reserved "c" (Some "r1") (Some "/api/upload/r1") R.doneStore)).
Proof.
  assert (H : exists k,
    U.get_uploadsAtom
      (U.reserved "c" (Some "r1") (Some "/api/upload/r1") R.doneStore) !! k
    = Some (U.rehydrate {[ "c" := R.fileC ]} "c"
              (mkSerializable "c" "c.txt" 3000 "text/plain" 0 100 ready
                 None (Some "r1") (Some "/api/upload/r1") (Some PUT))))
    by (exists "c"; reflexivity).
  split; [exact H|].
  apply (proj2 (X21_ready_uploads _ _)).
  split; [exact H|]. split; [|split].
  - exists "/api/upload/r1". split; [reflexivity | discriminate].
  - discriminate.
  - discriminate.
Defined.

(** X22. [retryAllFailedAtom] retries exactly the records in error whose
    message does not mention a page refresh. A record whose payload is not
    in the cache is never among them, and [retryUploadAtom] resets each of
    them to ready and goes on to transmit. *)
Theorem X22_retryAllFailed_targets :
  forall (st : U.Store) (k : string) (u : U.UploadItem),
    ((k, u) ∈ U.retryAllFailed_targets st
     <-> U.get_uploadsAtom st !! k = Some u
         /\ U.item_status u = error
         /\ SM.error_mentions_refresh (U.item_error u) = false)
    /\ (U.fileCache st !! k = None -> (k, u) ∉ U.retryAllFailed_targets st)
    /\ ((k, u) ∈ U.retryAllFailed_targets st ->
        U.retryUploadAtom k st
        = U.RetryTransmit (U.updateUploadAtom k U.resetUpdate st) u).
Proof.
  intros st k u.
  assert (Hiff : (k, u) ∈ U.retryAllFailed_targets st
     <-> U.get_uploadsAtom st !! k = Some u
         /\ U.item_status u = error
         /\ SM.error_mentions_refresh (U.item_error u) = false).
  { unfold U.retryAllFailed_targets.
    rewrite list_elem_of_filter, elem_of_map_to_list. simpl.
    rewrite andb_true_iff, bool_decide_eq_true, negb_true_iff. tauto. }
  split; [exact Hiff|]. split.
  - intros Hc Hin. apply Hiff in Hin as (Hu & Hs & He).
    rewrite get_uploadsAtom_lookup in Hu.
    destruct (U.serializableUploads st !! k) as [item|]; [|discriminate].
    simpl in Hu. injection Hu as <-.
    destruct (rehydrate_absent _ k item Hc) as (_ & _ & _ & Hm & _).
    congruence.
  - intros Hin. apply Hiff in Hin as (Hu & Hs & _).
    exact (proj1 (retry_of_error_record_resets st k u Hu Hs)).
Qed.

Lemma X22_retryAllFailed_witness :
  (U.get_uploadsAtom R.failedStore !! "a"
   = Some (U.rehydrate (U.fileCache R.failedStore) "a"
             (mkSerializable "a" "a.txt" 1000 "text/plain" 0 90 error
                (Some "Network Error") (Some "r1")
                (Some "/api/upload/r1") (Some PUT)))
   /\ ("a", U.rehydrate (U.fileCache R.failedStore) "a"
              (mkSerializable "a" "a.txt" 1000 "text/plain" 0 90 error
                 (Some "Network Error") (Some "r1")
                 (Some "/api/upload/r1") (Some PUT)))
      ∈ U.retryAllFailed_targets R.failedStore
   /\ U.retryUploadAtom "a" R.failedStore
      = U.RetryTransmit (U.updateUploadAtom "a" U.resetUpdate R.failedStore)
          (U.rehydrate (U.fileCache R.failedStore) "a"
             (mkSerializable "a" "a.txt" 1000 "text/plain" 0 90 error
                (Some "Network Error") (Some "r1")
                (Some "/api/upload/r1") (Some PUT))))
  /\ (U.fileCache R.restartedStore !! "a" = None
      /\ ("a", R.lostRecord) ∉ U.retryAllFailed_targets R.restartedStore).
Proof.
  split.
  - assert (Hin : ("a", U.rehydrate (U.fileCache R.failedStore) "a"
              (mkSerializable "a" "a.txt" 1000 "text/plain" 0 90 error
                 (Some "Network Error") (Some "r1")
                 (Some "/api/upload/r1") (Some PUT)))
      ∈ U.retryAllFailed_targets R.failedStore).
    { apply (proj2 (proj1 (X22_retryAllFailed_targets R.failedStore "a" _))).
      repeat split. }
    split; [reflexivity|]. split; [exact Hin|].
    exact (proj2 (proj2 (X22_retryAllFailed_targets R.failedStore "a" _)) Hin).
  - split; [reflexivity|].
    exact (proj1 (proj2 (X22_retryAllFailed_targets R.restartedStore "a"
                           R.lostRecord)) eq_refl).
Defined.

Lemma existsb_false_forall {A} (f : A -> bool) (l : list A) :
  (forall x, x ∈ l -> f x = false) -> existsb f l = false.
Proof.
  induction l as [|x l IH]; intros H; [reflexivity|]. simpl.
  rewrite (H x) by (by left). simpl. apply IH. intros y Hy. apply H. by right.
Qed.

(** X23. No registry is ever reported to hold placeholder files:
    [hasPlaceholderFilesAtom] is false for every store, and so is the
    [hasPlaceholderFiles] flag of the session context, also right after a
    restart that lost every payload. *)
Theorem X23_no_placeholder_reported :
  forall (st : U.Store) (m : OP.Machine),
    U.hasPlaceholderFilesAtom st = false
    /\ OP.hasPlaceholderFiles
         (OP.context (U.overallProgressAtom (U.uploadsArrayAtom st) m)) = false.
Proof.
  intros st m.
  assert (H : existsb U.isPlaceholderFile (U.values (U.get_uploadsAtom st))
              = false).
  { apply existsb_false_forall. intros u Hu.
    apply values_elem_of in Hu as [k Hk].
    exact (registry_record_never_placeholder st k u Hk). }
  split; [exact H|].
  unfold U.overallProgressAtom. rewrite context_after_updateFromUploads.
  exact H.
Qed.

(** ** The file cache *)

(** X24. [FileCache]: a file that was set is the one got back, under that
    id only; [delete] answers whether the id was cached, removes it and
    nothing else; the size goes up by one for a new id, stays for a known
    one, and goes down by one when [delete] answers true. *)
Theorem X24_file_cache :
  forall (cache : gmap string File) (id id' : string) (file : File),
    FileCache.get id (FileCache.set id file cache) = Some file
    /\ FileCache.has id (FileCache.set id file cache) = true
    /\ FileCache.has id (FileCache.delete id cache) = false
    /\ FileCache.deleted id cache = FileCache.has id cache
    /\ (if decide (id' = id) then True
        else FileCache.get id' (FileCache.set id file cache)
             = FileCache.get id' cache
             /\ FileCache.get id' (FileCache.delete id cache)
                = FileCache.get id' cache)
    /\ FileCache.size (FileCache.set id file cache)
       = (if FileCache.has id cache then FileCache.size cache
          else S (FileCache.size cache))
    /\ FileCache.size cache
       = (if FileCache.deleted id cache
          then S (FileCache.size (FileCache.delete id cache))
          else FileCache.size (FileCache.delete id cache))
    /\ FileCache.size (FileCache.clear cache) = 0%nat.
Proof.
  intros cache id id' file.
  unfold FileCache.get, FileCache.set, FileCache.has, FileCache.delete,
    FileCache.deleted, FileCache.size, FileCache.clear.
  repeat split.
  - by rewrite lookup_insert_eq.
  - apply bool_decide_eq_true_2. rewrite lookup_insert_eq. eauto.
  - apply bool_decide_eq_false_2. rewrite lookup_delete_eq. by intros [? ?].
  - destruct (decide _) as [|Hne]; [exact I|].
    by rewrite lookup_insert_ne, lookup_delete_ne.
  - case_bool_decide as H.
    + destruct H as [f Hf]. rewrite <- (insert_delete_id cache id f) at 2 by done.
      rewrite <- insert_delete_eq.
      by rewrite !map_size_insert_None by apply lookup_delete_eq.
    + apply map_size_insert_None. by apply eq_None_not_Some.
  - case_bool_decide as H.
    + destruct H as [f Hf]. rewrite <- (insert_delete_id cache id f) at 1 by done.
      by rewrite map_size_insert_None by apply lookup_delete_eq.
    + by rewrite delete_id by (by apply eq_None_not_Some).
Qed.

(** ** The started session *)

Lemma started_registry_rejects randomUUID files st :
  (exists k u, U.get_uploadsAtom st !! k = Some u /\ R.starts_session u) ->
  U.addFilesAtom randomUUID files st = st
  /\ U.prepareUploadsAtom_add randomUUID files st = (st, []).
Proof.
  intros Hstarted. apply uploadsStarted_iff in Hstarted.
  unfold U.addFilesAtom, U.prepareUploadsAtom_add.
  rewrite Hstarted. split; [reflexivity|].
  by destruct (bool_decide (length files = 0%nat)).
Qed.

Lemma count_pos status uploads :
  0 < U.count status uploads ->
  exists u, u ∈ uploads /\ U.item_status u = status.
Proof.
  unfold U.count. intros H.
  apply (proj1 (filter_length_pos (fun u => U.item_status u = status) uploads)).
  lia.
Qed.

Lemma count_zero status uploads :
  (forall u, u ∈ uploads -> U.item_status u <> status) ->
  U.count status uploads = 0.
Proof.
  intros H. unfold U.count.
  destruct (filter _ uploads) as [|x l] eqn:Hf; [reflexivity|].
  assert (Hx : x ∈ filter (fun u => U.item_status u = status) uploads)
    by (rewrite Hf; by left).
  apply list_elem_of_filter in Hx as [Hs Hin]. by destruct (H x Hin).
Qed.

(** X25. The flag [uploadsStartedAtom] and the guard of the atoms. When the
    flag is set, [addFilesAtom] and the add step of [prepareUploadsAtom]
    reject the files. The converse fails: with transfers that are all
    reserving the flag is not set, and the files are rejected all the
    same. *)
Theorem X25_uploadsStarted_flag_and_guard :
  forall (st : U.Store) (m : OP.Machine) (randomUUID : nat -> string)
         (files : list File),
    (UploadStats.uploadsStartedAtom st m = true ->
     U.addFilesAtom randomUUID files st = st
     /\ U.prepareUploadsAtom_add randomUUID files st = (st, []))
    /\ ((exists k u, U.get_uploadsAtom st !! k = Some u) ->
        (forall k u, U.get_uploadsAtom st !! k = Some u ->
                     U.item_status u = reserving) ->
        UploadStats.uploadsStartedAtom st m = false
        /\ U.addFilesAtom randomUUID files st = st).
Proof.
  intros st m randomUUID files. split.
  - intros Hflag. apply started_registry_rejects.
    unfold UploadStats.uploadsStartedAtom, UploadStats.uploadsStarted,
      U.overallProgressAtom in Hflag.
    rewrite context_after_updateFromUploads in Hflag. simpl in Hflag.
    apply orb_true_iff in Hflag as [H|H]; apply bool_decide_eq_true in H;
      apply count_pos in H as (u & Hin & Hs);
      apply values_elem_of in Hin as [k Hk];
      exists k, u; (split; [done|]); unfold R.starts_session; auto.
  - intros (k & u & Hk) Hall. split.
    + unfold UploadStats.uploadsStartedAtom, UploadStats.uploadsStarted,
        U.overallProgressAtom.
      rewrite context_after_updateFromUploads. simpl.
      rewrite !count_zero; [reflexivity| |];
        intros v Hv; apply values_elem_of in Hv as [j Hj];
        rewrite (Hall j v Hj); discriminate.
    + apply started_registry_rejects. exists k, u. split; [done|].
      left. by apply (Hall k).
Qed.

Lemma X25_uploadsStarted_witness :
  (UploadStats.uploadsStartedAtom R.batchStore
     OP.createOverallProgressStateMachine = true
   /\ U.addFilesAtom R.sampleUUID [R.fileA] R.batchStore = R.batchStore)
  /\ ((exists k u, U.get_uploadsAtom R.reservingStore !! k = Some u)
      /\ (forall k u, U.get_uploadsAtom R.reservingStore !! k = Some u ->
                      U.item_status u = reserving)
      /\ UploadStats.uploadsStartedAtom R.reservingStore
           OP.createOverallProgressStateMachine = false
      /\ U.addFilesAtom R.sampleUUID [R.fileA] R.reservingStore
         = R.reservingStore).
Proof.
  split.
  - split; [reflexivity|].
    exact (proj1 (proj1 (X25_uploadsStarted_flag_and_guard R.batchStore
             OP.createOverallProgressStateMachine R.sampleUUID [R.fileA])
             eq_refl)).
  - assert (H1 : exists k u, U.get_uploadsAtom R.reservingStore !! k = Some u)
      by (exists "b"; eexists; reflexivity).
    assert (H2 : forall k u, U.get_uploadsAtom R.reservingStore !! k = Some u ->
                             U.item_status u = reserving).
    { intros k u. rewrite get_uploadsAtom_lookup. simpl.
      destruct (decide (k = "b")) as [->|Hne].
      - rewrite lookup_singleton_eq. simpl. by intros [= <-].
      - rewrite lookup_singleton_ne by done. discriminate. }
    split; [exact H1|]. split; [exact H2|].
    exact (proj2 (X25_uploadsStarted_flag_and_guard R.reservingStore
             OP.createOverallProgressStateMachine R.sampleUUID [R.fileA])
             H1 H2).
Defined.

(** ** Cancelling again *)

(** X26. [cancelAllActiveUploadsAtom] is idempotent on a store whose
    records sit under their ids and whose payloads are cached: after it no
    transfer is uploading or reserving, and running it again changes
    nothing. *)
Theorem X26_cancelAll_idempotent :
  forall (st : U.Store),
    R.well_keyed st -> R.payloads_present st ->
    (forall k u,
        U.get_uploadsAtom (U.cancelAllActiveUploadsAtom st) !! k = Some u ->
        ~ R.active u)
    /\ U.cancelAllActiveUploadsAtom (U.cancelAllActiveUploadsAtom st)
       = U.cancelAllActiveUploadsAtom st.
Proof.
  intros st Hw Hp.
  assert (Hrec : forall k u,
    U.get_uploadsAtom (U.cancelAllActiveUploadsAtom st) !! k = Some u ->
    ~ R.active u /\ U.item_id u = k).
  { intros k u. rewrite cancelAllActiveUploadsAtom_lookup by done.
    destruct (U.serializableUploads st !! k) as [item|] eqn:Hk; [|discriminate].
    destruct (Hp k item Hk) as [f Hf].
    destruct (rehydrate_present _ k item f Hf) as (_ & Hid & _).
    destruct (rehydrate_present _ k (U.canceledEntry item) f Hf)
      as (_ & Hid' & _ & Hs' & _).
    destruct (decide _) as [Hact|Hact]; intros [= <-].
    - split.
      + unfold R.active. rewrite Hs'. simpl. intros [?|?]; discriminate.
      + rewrite Hid'. simpl. by apply Hw.
    - split; [done|]. rewrite Hid. by apply Hw. }
  split; [intros k u Hu; by apply (Hrec k u)|].
  set (st' := U.cancelAllActiveUploadsAtom st) in *.
  assert (Hkeyed : R.keyed_by_id (U.get_uploadsAtom st'))
    by (intros k u Hu; by apply (Hrec k u)).
  destruct (cancelAll_loop_spec (U.get_uploadsAtom st')
              (U.serializableUploads st') (U.aborted st')
              (U.get_uploadsAtom st') Hkeyed) as (_ & _ & Hch & _).
  pose proof (cancelAll_loop_no_controller (U.get_uploadsAtom st')
                (U.serializableUploads st') (U.aborted st')
                (U.get_uploadsAtom st')
                (registry_record_has_no_controller st')) as Hlog.
  unfold U.cancelAllActiveUploadsAtom at 1. unfold U.cancelAllActive_forEach.
  destruct (U.loop_hasChanges _) eqn:Hchanged.
  - exfalso. destruct (proj1 Hch eq_refl) as (k & u & Hu & Hact).
    by destruct (Hrec k u Hu).
  - rewrite Hlog. by destruct st'.
Qed.

Lemma X26_cancelAll_idempotent_witness :
  R.well_keyed R.batchStore /\ R.payloads_present R.batchStore
  /\ U.cancelAllActiveUploadsAtom (U.cancelAllActiveUploadsAtom R.batchStore)
     = U.cancelAllActiveUploadsAtom R.batchStore.
Proof.
  assert (Hw : R.well_keyed R.batchStore).
  { apply (bool_decide_unpack
             (map_Forall (fun k item => s_id item = k)
                         (U.serializableUploads R.batchStore))).
    vm_compute. exact I. }
  assert (Hp : R.payloads_present R.batchStore).
  { apply (bool_decide_unpack
             (map_Forall (fun k (_ : SerializableUploadItem) =>
                            is_Some (U.fileCache R.batchStore !! k))
                         (U.serializableUploads R.batchStore))).
    vm_compute. exact I. }
  split; [exact Hw|]. split; [exact Hp|].
  exact (proj2 (X26_cancelAll_idempotent R.batchStore Hw Hp)).
Defined.

(** ** One transfer from intake to success *)

Lemma get_uploadsAtom_emptyStore : U.get_uploadsAtom U.emptyStore = ∅.
Proof.
  apply map_eq. intros k. rewrite get_uploadsAtom_lookup. simpl.
  by rewrite !lookup_empty.
Qed.

Lemma values_singleton {A} (k : string) (x : A) : U.values {[ k := x ]} = [x].
Proof. unfold U.values. by rewrite map_to_list_singleton. Qed.

Lemma updateUploadAtom_singleton st id x updates :
  U.get_uploadsAtom st = {[ id := x ]} ->
  U.get_uploadsAtom (U.updateUploadAtom id updates st)
  = {[ id := U.rehydrate {[ id := U.item_file (U.mergeItem x updates) ]} id
                (U.project (U.mergeItem x updates)) ]}.
Proof.
  intros H. apply map_eq. intros k.
  assert (Hx : U.get_uploadsAtom st !! id = Some x)
    by (by rewrite H, lookup_singleton_eq).
  rewrite (updateUploadAtom_lookup st id updates x k Hx), H.
  destruct (decide (k = id)) as [->|Hne].
  - by rewrite lookup_singleton_eq.
  - by rewrite !lookup_singleton_ne.
Qed.

Lemma prepared_single randomUUID file :
  U.get_uploadsAtom (U.prepareUploadsAtom_add randomUUID [file] U.emptyStore).1
  = {[ randomUUID 0%nat := U.reservingItem file (randomUUID 0%nat) ]}.
Proof.
  unfold U.prepareUploadsAtom_add. simpl.
  rewrite get_uploadsAtom_emptyStore. unfold U.values.
  rewrite map_to_list_empty. simpl.
  apply map_eq. intros k. rewrite get_set_uploadsAtom.
  unfold U.addEach. simpl.
  destruct (decide (k = randomUUID 0%nat)) as [->|Hne].
  - rewrite !lookup_insert_eq. simpl. f_equal.
    unfold U.rehydrate, FileCache.get. by rewrite !lookup_singleton_eq.
  - rewrite lookup_insert_ne, lookup_empty by done.
    by rewrite lookup_singleton_ne.
Qed.

(** X27. One file, from an empty store: [prepareUploadsAtom] adds it, the
    reservation answers with a non-empty URL, [startUploadsAtom] finds it
    as its only ready upload, the transfer begins and succeeds. The record
    is ready with the URL and the method PUT after the reservation,
    uploading once begun, and at the end the registry holds that single
    record, in success at progress 100 with its file, and the overall
    progress is 100. *)
Theorem X27_single_transfer_end_to_end :
  forall (randomUUID : nat -> string) (file : File) (rid : option string)
         (url : string) (c : AbortController) (m : OP.Machine),
    url <> "" -> randomUUID 0%nat <> "" ->
    exists u2,
      U.readyUploadsAtom
        (U.reserved (randomUUID 0%nat) rid (Some url)
           (U.prepareUploadsAtom_add randomUUID [file] U.emptyStore).1)
      = [u2]
      /\ U.item_id u2 = randomUUID 0%nat
      /\ U.item_status u2 = ready
      /\ R.destination u2 = (rid, Some url, Some PUT)
      /\ (exists u3,
            U.uploadsArrayAtom
              (U.uploadBegun c u2
                 (U.reserved (randomUUID 0%nat) rid (Some url)
                    (U.prepareUploadsAtom_add randomUUID [file] U.emptyStore).1))
            = [u3]
            /\ U.item_status u3 = uploading)
      /\ exists u4,
           U.uploadsArrayAtom
             (U.uploadSucceeded u2
                (U.uploadBegun c u2
                   (U.reserved (randomUUID 0%nat) rid (Some url)
                      (U.prepareUploadsAtom_add randomUUID [file] U.emptyStore).1)))
           = [u4]
           /\ U.item_status u4 = success
           /\ U.item_progress u4 = 100
           /\ U.item_error u4 = None
           /\ U.item_file u4 = file
           /\ U.item_uploadUrl u4 = Some url
           /\ OP.overallProgress (OP.context (U.overallProgressAtom
                (U.uploadsArrayAtom
                   (U.uploadSucceeded u2
                      (U.uploadBegun c u2
                         (U.reserved (randomUUID 0%nat) rid (Some url)
                            (U.prepareUploadsAtom_add randomUUID [file]
                               U.emptyStore).1))))
                m)) = 100.
Proof.
  intros randomUUID file rid url c m Hurl Hid.
  set (id := randomUUID 0%nat) in *.
  pose proof (prepared_single randomUUID file) as H1. fold id in H1.
  set (st1 := (U.prepareUploadsAtom_add randomUUID [file] U.emptyStore).1) in *.
  pose proof (updateUploadAtom_singleton st1 id _
                {| U.u_id := None; U.u_file := None; U.u_fileSize := None;
                   U.u_progress := None; U.u_status := Some ready;
                   U.u_error := None; U.u_remoteId := Some rid;
                   U.u_uploadUrl := Some (Some url);
                   U.u_method := Some (Some PUT);
                   U.u_controller := None; U.u_stateMachine := None |} H1)
    as H2.
  fold (U.reserved id rid (Some url) st1) in H2.
  set (st2 := U.reserved id rid (Some url) st1) in *.
  match type of H2 with _ = {[ _ := ?r ]} => set (u2 := r) in * end.
  assert (Hu2 : U.item_id u2 = id /\ U.item_status u2 = ready
                /\ R.destination u2 = (rid, Some url, Some PUT)
                /\ U.item_file u2 = file
                /\ U.item_uploadUrl u2 = Some url).
  { subst u2. unfold U.rehydrate, FileCache.get.
    rewrite lookup_singleton_eq. by repeat split. }
  destruct Hu2 as (Hi2 & Hs2 & Hd2 & Hf2 & Hurl2).
  exists u2. split; [|split; [done|split; [done|split; [done|]]]].
  - unfold U.readyUploadsAtom. rewrite H2, values_singleton.
    rewrite filter_cons, decide_True; [reflexivity|].
    rewrite (registry_record_never_placeholder st2 id u2)
      by (by rewrite H2, lookup_singleton_eq).
    rewrite Hurl2, Hi2, Hs2. simpl.
    by rewrite !bool_decide_eq_false_2.
  - pose proof (updateUploadAtom_singleton st2 id u2
                {| U.u_id := None; U.u_file := None; U.u_fileSize := None;
                   U.u_progress := None; U.u_status := Some uploading;
                   U.u_error := None; U.u_remoteId := None;
                   U.u_uploadUrl := None; U.u_method := None;
                   U.u_controller := Some (Some c);
                   U.u_stateMachine := None |} H2) as H3.
    rewrite <- Hi2 in H3 at 1. fold (U.uploadBegun c u2 st2) in H3.
    set (st3 := U.uploadBegun c u2 st2) in *.
    match type of H3 with _ = {[ _ := ?r ]} => set (u3 := r) in * end.
    split.
    + exists u3. unfold U.uploadsArrayAtom. rewrite H3, values_singleton.
      split; [reflexivity|]. subst u3. unfold U.rehydrate, FileCache.get.
      by rewrite lookup_singleton_eq.
    + pose proof (updateUploadAtom_singleton st3 id u3
                {| U.u_id := None; U.u_file := None; U.u_fileSize := None;
                   U.u_progress := Some 100; U.u_status := Some success;
                   U.u_error := Some None; U.u_remoteId := None;
                   U.u_uploadUrl := None; U.u_method := None;
                   U.u_controller := Some None;
                   U.u_stateMachine := None |} H3) as H4.
      rewrite <- Hi2 in H4 at 1. fold (U.uploadSucceeded u2 st3) in H4.
      match type of H4 with _ = {[ _ := ?r ]} => set (u4 := r) in * end.
      assert (Hu4 : U.item_status u4 = success /\ U.item_progress u4 = 100
                    /\ U.item_error u4 = None /\ U.item_file u4 = file
                    /\ U.item_uploadUrl u4 = Some url).
      { subst u4 u3. unfold U.rehydrate, FileCache.get.
        rewrite !lookup_singleton_eq. simpl. rewrite ?lookup_singleton_eq.
        by repeat split. }
      destruct Hu4 as (Hs4 & Hp4 & He4 & Hf4 & Hurl4).
      exists u4. unfold U.uploadsArrayAtom. rewrite H4, values_singleton.
      repeat split; try done.
      rewrite overallProgress_value. simpl.
      unfold U.total_contribution, U.contribution. simpl. by rewrite Hs4.
Qed.

Lemma X27_single_transfer_witness :
  "/api/upload/r1" <> "" /\ R.sampleUUID 0%nat <> ""
  /\ exists u2,
       U.readyUploadsAtom
         (U.reserved (R.sampleUUID 0%nat) (Some "r1") (Some "/api/upload/r1")
            (U.prepareUploadsAtom_add R.sampleUUID [R.fileA] U.emptyStore).1)
       = [u2]
       /\ U.item_status u2 = ready.
Proof.
  assert (H1 : "/api/upload/r1" <> "") by discriminate.
  assert (H2 : R.sampleUUID 0%nat <> "") by discriminate.
  split; [exact H1|]. split; [exact H2|].
  destruct (X27_single_transfer_end_to_end R.sampleUUID R.fileA (Some "r1")
              "/api/upload/r1" 1%nat OP.createOverallProgressStateMachine H1 H2)
    as (u2 & Hr & _ & Hs & _).
  exists u2. split; [exact Hr | exact Hs].
Defined.
